(** * basic_scanner: extraction, classification, routing, moving, watching

    A shallow embedding of the processing core of the scanner
    (src/basic_scanner/{extract,classify,suppliers,rules,mover,watcher}.py)
    and the properties its specification states about it.

    Conventions of the embedding
    - a Python [str] is a list of Unicode code points ([list N]); literals of
      the source are written [utf8 "..."];
    - what Python takes from its Unicode database ([str.lower], the classes
      behind the regular-expression escapes, NFD) is a record
      [Unicode]; [Latin1] is the instance for Basic Latin and the Latin-1
      Supplement, on which the examples run;
    - a Python [int] is a [Z]; the amount, the confidence score and the
      watcher's clock are binary64 floats ([PrimFloat]), and the float a
      decimal numeral stands for is the correctly rounded quotient of
      IEEE 754 ([SpecFloat]);
    - filesystem effects are explicit: a state of the filesystem is
      threaded through the mover, with an oracle for what the operating
      system refuses or raises, and an observation function through the
      watcher. *)

From Stdlib Require Import List Bool Arith ZArith NArith QArith Lia Sorted.
From Stdlib Require Import Ascii String.
From Stdlib Require Import DecimalString DecimalNat.
From Stdlib Require Import Floats.
Import ListNotations.
Close Scope Q_scope.

Set Implicit Arguments.
Set Warnings "-inexact-float".

(* ================================================================== *)
(** * Python strings                                                    *)
(* ================================================================== *)

Module Py.

(** A code point, and a string of them. *)
Definition char := N.
Definition str := list char.

(** Decoding of the UTF-8 bytes of a literal into code points. *)
Fixpoint utf8_decode (l : list N) : str :=
  match l with
  | [] => []
  | b0 :: t =>
    if (b0 <? 128)%N then b0 :: utf8_decode t
    else if (b0 <? 224)%N then
      match t with
      | b1 :: t1 => ((b0 - 192) * 64 + (b1 - 128))%N :: utf8_decode t1
      | [] => [b0]
      end
    else if (b0 <? 240)%N then
      match t with
      | b1 :: b2 :: t2 =>
        ((b0 - 224) * 4096 + (b1 - 128) * 64 + (b2 - 128))%N :: utf8_decode t2
      | _ => [b0]
      end
    else
      match t with
      | b1 :: b2 :: b3 :: t3 =>
        ((b0 - 240) * 262144 + (b1 - 128) * 4096 + (b2 - 128) * 64 + (b3 - 128))%N
          :: utf8_decode t3
      | _ => [b0]
      end
  end.

Definition utf8 (s : string) : str :=
  utf8_decode (map N_of_ascii (list_ascii_of_string s)).

Definition char_eqb (a b : char) : bool := (a =? b)%N.

Fixpoint str_eqb (a b : str) : bool :=
  match a, b with
  | [], [] => true
  | x :: a', y :: b' => char_eqb x y && str_eqb a' b'
  | _, _ => false
  end.

(** Truthiness of a [str] ([if s:]) and of an [Optional[str]]. *)
Definition truthy (s : str) : bool :=
  match s with [] => false | _ => true end.

Definition opt_truthy (o : option str) : bool :=
  match o with Some s => truthy s | None => false end.

(** [s.startswith(p)] *)
Fixpoint startswith (s p : str) : bool :=
  match p, s with
  | [], _ => true
  | x :: p', y :: s' => char_eqb x y && startswith s' p'
  | _ :: _, [] => false
  end.

(** [s.endswith(p)] *)
Definition endswith (s p : str) : bool := startswith (rev s) (rev p).

(** [k in s] *)
Fixpoint contains (s k : str) : bool :=
  startswith s k ||
  match s with
  | [] => false
  | _ :: s' => contains s' k
  end.

(** [s.replace(old, new)] for a non-empty [old]: the occurrences are
    replaced from the left, without overlap.  [skip] counts the
    characters of the occurrence being replaced that are still to be
    dropped. *)
Fixpoint replace_from (old new : str) (skip : nat) (s : str) : str :=
  match s with
  | [] => []
  | c :: s' =>
    match skip with
    | S n => replace_from old new n s'
    | O =>
      if startswith s old
      then new ++ replace_from old new (Nat.pred (List.length old)) s'
      else c :: replace_from old new 0 s'
    end
  end.

Definition replace (s old new : str) : str :=
  match old with
  | [] => s
  | _ => replace_from old new 0 s
  end.

(** [s.lstrip(...)], [s.rstrip(...)], [s.strip(...)] over a class of
    characters. *)
Fixpoint lstrip_by (p : char -> bool) (s : str) : str :=
  match s with
  | c :: s' => if p c then lstrip_by p s' else s
  | [] => []
  end.

Definition rstrip_by (p : char -> bool) (s : str) : str :=
  rev (lstrip_by p (rev s)).

Definition strip_by (p : char -> bool) (s : str) : str :=
  rstrip_by p (lstrip_by p s).

(** [s.strip(chars)] *)
Definition strip_chars (chars s : str) : str :=
  strip_by (fun c => existsb (char_eqb c) chars) s.

(** [s[:n]] for an [int] [n] (a negative [n] counts from the end). *)
Definition slice_to (s : str) (n : Z) : str :=
  if (0 <=? n)%Z then firstn (Z.to_nat n) s
  else firstn (Z.to_nat (Z.of_nat (List.length s) + n)) s.

(** [str(n)] for a natural number: its decimal digits. *)
Definition str_of_nat (n : nat) : str :=
  map N_of_ascii (list_ascii_of_string (NilZero.string_of_uint (Nat.to_uint n))).

(** What the program takes from Python's Unicode database. *)
Class Unicode := {
  (** [str.lower()] *)
  u_lower : str -> str;
  (** the case folding behind [re.IGNORECASE] *)
  u_fold : char -> char;
  (** the value of a decimal digit ([\d], [int()]); [None] for other
      characters *)
  u_decimal : char -> option Z;
  (** [str.isspace()], [\s] *)
  u_space : char -> bool;
  (** [str.isalnum()]; [\w] adds the underscore *)
  u_alnum : char -> bool;
  (** [unicodedata.category(c) == "Mn"] *)
  u_Mn : char -> bool;
  (** the full canonical decomposition of a character *)
  u_decomp : char -> str;
  (** its canonical combining class *)
  u_ccc : char -> nat
}.

Section WithUnicode.
Context {U : Unicode}.

Definition is_digit (c : char) : bool :=
  match u_decimal c with Some _ => true | None => false end.

(** [\w] *)
Definition is_word (c : char) : bool := u_alnum c || char_eqb c 95%N.

(** [s.strip()] *)
Definition strip (s : str) : str := strip_by u_space s.

(** [int(s)] for a string of decimal digits (the groups the patterns
    capture contain nothing else). *)
Definition int_of_digits (s : str) : Z :=
  fold_left
    (fun acc c => match u_decimal c with
                  | Some v => (acc * 10 + v)%Z
                  | None => acc
                  end)
    s 0%Z.

(** Canonical ordering: a character with a non-zero combining class moves
    left over the characters of a greater class.  [acc] is the reversed
    prefix already ordered. *)
Fixpoint reorder_insert (c : char) (acc : str) : str :=
  match acc with
  | a :: acc' =>
    if (0 <? u_ccc c) && (u_ccc c <? u_ccc a)
    then a :: reorder_insert c acc'
    else c :: acc
  | [] => [c]
  end.

Definition canonical_order (s : str) : str :=
  rev (fold_left (fun acc c => reorder_insert c acc) s []).

(** [unicodedata.normalize("NFD", s)] *)
Definition nfd (s : str) : str := canonical_order (flat_map u_decomp s).

End WithUnicode.

(** ** The instance for Basic Latin and the Latin-1 Supplement *)

Definition in_range (lo hi c : N) : bool := ((lo <=? c) && (c <=? hi))%N.

Definition latin1_upper (c : char) : bool :=
  in_range 65 90%N c || (in_range 192 222%N c && negb (c =? 215)%N).

Definition latin1_lower_char (c : char) : char :=
  if latin1_upper c then (c + 32)%N else c.

Definition latin1_decimal (c : char) : option Z :=
  if in_range 48 57 c then Some (Z.of_N c - 48)%Z else None.

Definition latin1_space (c : char) : bool :=
  in_range 9 13 c || in_range 28 32 c || (c =? 133)%N || (c =? 160)%N.

Definition latin1_alnum (c : char) : bool :=
  in_range 48 57 c || in_range 65 90 c || in_range 97 122 c
  || (c =? 170)%N || (c =? 178)%N || (c =? 179)%N || (c =? 181)%N
  || (c =? 185)%N || (c =? 186)%N || in_range 188 190 c
  || (in_range 192 255 c && negb (c =? 215)%N && negb (c =? 247)%N).

(** The canonical decompositions of the Latin-1 letters: base letter and
    combining mark. *)
Definition latin1_decomp_upper : list (N * str) :=
  [ (192, [65; 768]); (193, [65; 769]); (194, [65; 770]); (195, [65; 771]);
    (196, [65; 776]); (197, [65; 778]); (199, [67; 807]);
    (200, [69; 768]); (201, [69; 769]); (202, [69; 770]); (203, [69; 776]);
    (204, [73; 768]); (205, [73; 769]); (206, [73; 770]); (207, [73; 776]);
    (209, [78; 771]);
    (210, [79; 768]); (211, [79; 769]); (212, [79; 770]); (213, [79; 771]);
    (214, [79; 776]);
    (217, [85; 768]); (218, [85; 769]); (219, [85; 770]); (220, [85; 776]);
    (221, [89; 769]) ]%N.

Definition latin1_decomp_table : list (N * str) :=
  latin1_decomp_upper
  ++ map (fun e => ((fst e + 32)%N,
                    match snd e with
                    | b :: m => (b + 32)%N :: m
                    | [] => []
                    end)) latin1_decomp_upper
  ++ [ (255, [121; 776]) ]%N.

Fixpoint table_find (t : list (N * str)) (c : N) : option str :=
  match t with
  | [] => None
  | (k, v) :: t' => if (k =? c)%N then Some v else table_find t' c
  end.

Definition latin1_decomp (c : char) : str :=
  match table_find latin1_decomp_table c with
  | Some d => d
  | None => [c]
  end.

(** Combining Diacritical Marks, U+0300..U+036F. *)
Definition latin1_Mn (c : char) : bool := in_range 768 879 c.

Definition latin1_ccc (c : char) : nat :=
  if in_range 807 808 c then 202
  else if in_range 768 879 c then 230
  else 0.

#[export] Instance Latin1 : Unicode := {
  u_lower := map latin1_lower_char;
  u_fold := latin1_lower_char;
  u_decimal := latin1_decimal;
  u_space := latin1_space;
  u_alnum := latin1_alnum;
  u_Mn := latin1_Mn;
  u_decomp := latin1_decomp;
  u_ccc := latin1_ccc
}.

End Py.

(* ================================================================== *)
(** * Regular expressions ([re])                                        *)
(* ================================================================== *)

(** The fragment of Python's [re] the program's patterns use, with its
    backtracking semantics: alternatives are tried from the left,
    quantifiers are greedy, the leftmost match wins.  Every quantified
    sub-pattern of the sources is a character class, or optional. *)
Module Re.
Import Py.

Inductive re :=
| Chr (p : char -> bool)                          (* one character of a class *)
| Seq (a b : re)                                  (* a b *)
| Alt (a b : re)                                  (* a | b *)
| Opt (a : re)                                    (* (?:a)? *)
| Rep (p : char -> bool) (lo : nat) (hi : option nat) (* [class]{lo,hi} *)
| Grp (n : nat) (a : re)                          (* the n-th capturing group *)
| Bnd (w : char -> bool).                         (* \b, for the \w class w *)

(** A match object: its captured groups and the text it covers. *)
Record Match := {
  m_groups : list (nat * str);
  m_text : str
}.

Fixpoint group_of (g : list (nat * str)) (n : nat) : str :=
  match g with
  | [] => []
  | (k, v) :: g' => if Nat.eqb k n then v else group_of g' n
  end.

(** [m.group(n)] *)
Definition group (m : Match) (n : nat) : str := group_of (m_groups m) n.

(** The part of [s] consumed to reach its suffix [s']. *)
Definition consumed (s s' : str) : str :=
  firstn (List.length s - List.length s') s.

Definition dec_hi (hi : option nat) : option nat :=
  match hi with Some n => Some (Nat.pred n) | None => None end.

Definition hi_open (hi : option nat) : bool :=
  match hi with Some O => false | _ => true end.

Section Matcher.
Variable A : Type.

(** The continuation receives the character before the position reached,
    the rest of the input and the groups captured so far. *)
Definition cont := option char -> str -> list (nat * str) -> option A.

(** Greedy repetition of a class: take one more character when allowed,
    and give it back when the rest of the pattern fails. *)
Fixpoint rep (p : char -> bool) (lo : nat) (hi : option nat)
  (prev : option char) (s : str) (g : list (nat * str)) (k : cont) : option A :=
  let stop := match lo with O => k prev s g | S _ => None end in
  match s with
  | c :: s' =>
    if p c && hi_open hi then
      match rep p (Nat.pred lo) (dec_hi hi) (Some c) s' g k with
      | Some r => Some r
      | None => stop
      end
    else stop
  | [] => stop
  end.

Definition at_boundary (w : char -> bool) (prev : option char) (s : str) : bool :=
  xorb (match prev with Some c => w c | None => false end)
       (match s with c :: _ => w c | [] => false end).

Fixpoint run (r : re) (prev : option char) (s : str) (g : list (nat * str))
  (k : cont) : option A :=
  match r with
  | Chr p =>
    match s with
    | c :: s' => if p c then k (Some c) s' g else None
    | [] => None
    end
  | Seq a b => run a prev s g (fun prev' s' g' => run b prev' s' g' k)
  | Alt a b =>
    match run a prev s g k with
    | Some x => Some x
    | None => run b prev s g k
    end
  | Opt a =>
    match run a prev s g k with
    | Some x => Some x
    | None => k prev s g
    end
  | Rep p lo hi => rep p lo hi prev s g k
  | Grp n a =>
    run a prev s g (fun prev' s' g' => k prev' s' ((n, consumed s s') :: g'))
  | Bnd w => if at_boundary w prev s then k prev s g else None
  end.

End Matcher.

(** [pattern.match] at one position: the match, if there is one. *)
Definition match_here (r : re) (prev : option char) (s : str) : option Match :=
  run r prev s []
    (fun _ s' g => Some {| m_groups := g; m_text := consumed s s' |}).

(** [pattern.search(s)]: the leftmost match. *)
Fixpoint search_from (r : re) (prev : option char) (s : str) : option Match :=
  match match_here r prev s with
  | Some m => Some m
  | None =>
    match s with
    | c :: s' => search_from r (Some c) s'
    | [] => None
    end
  end.

Definition search (r : re) (s : str) : option Match := search_from r None s.

(** [pattern.finditer(s)]: the matches from left to right, without
    overlap.  [skip] counts the characters of the previous match still to
    be passed. *)
Fixpoint finditer_from (r : re) (prev : option char) (skip : nat) (s : str)
  : list Match :=
  match skip with
  | S n =>
    match s with
    | c :: s' => finditer_from r (Some c) n s'
    | [] => []
    end
  | O =>
    match match_here r prev s with
    | Some m =>
      m :: match s with
           | c :: s' => finditer_from r (Some c) (Nat.pred (List.length (m_text m))) s'
           | [] => []
           end
    | None =>
      match s with
      | c :: s' => finditer_from r (Some c) 0 s'
      | [] => []
      end
    end
  end.

Definition finditer (r : re) (s : str) : list Match := finditer_from r None 0 s.

(** [pattern.sub(repl, s)] for a constant [repl] and a pattern that
    matches no empty string. *)
Fixpoint sub_from (r : re) (repl : str) (prev : option char) (skip : nat)
  (s : str) : str :=
  match s with
  | [] => []
  | c :: s' =>
    match skip with
    | S n => sub_from r repl (Some c) n s'
    | O =>
      match match_here r prev s with
      | Some m =>
        match m_text m with
        | [] => c :: sub_from r repl (Some c) 0 s'
        | _ :: t => repl ++ sub_from r repl (Some c) (List.length t) s'
        end
      | None => c :: sub_from r repl (Some c) 0 s'
      end
    end
  end.

Definition sub (r : re) (repl s : str) : str := sub_from r repl None 0 s.

(** Pattern builders. *)
Definition is_char (x : char) : char -> bool := fun c => char_eqb c x.

Definition one_of (l : str) : char -> bool := fun c => existsb (char_eqb c) l.

Fixpoint seqs (l : list re) : re :=
  match l with
  | [] => Rep (fun _ => false) 0 (Some 0)
  | [r] => r
  | r :: l' => Seq r (seqs l')
  end.

Fixpoint alts (l : list re) : re :=
  match l with
  | [] => Chr (fun _ => false)
  | [r] => r
  | r :: l' => Alt r (alts l')
  end.

(** A literal, case-sensitive. *)
Definition lit (s : str) : re := seqs (map (fun x => Chr (is_char x)) s).

Section WithUnicode.
Context {U : Unicode}.

(** A literal under [re.IGNORECASE]. *)
Definition lit_i (s : str) : re :=
  seqs (map (fun x => Chr (fun c => char_eqb (u_fold c) (u_fold x))) s).

Definition digit : char -> bool := is_digit.
Definition space : char -> bool := u_space.
Definition word_boundary : re := Bnd is_word.

End WithUnicode.

End Re.

(* ================================================================== *)
(** * Python floats                                                     *)
(* ================================================================== *)

Module PyFloat.

(** The integer [k] as a float (exact below 2^53). *)
Definition of_Z (k : Z) : float :=
  if (0 <=? k)%Z then PrimFloat.of_uint63 (Uint63.of_Z k)
  else (- PrimFloat.of_uint63 (Uint63.of_Z (- k)))%float.

(** [n / d] rounded to the nearest integer, ties to even ([0 < d]). *)
Definition round_half_even (n d : Z) : Z :=
  let q := (n / d)%Z in
  let r := (n mod d)%Z in
  if (2 * r <? d)%Z then q
  else if (d <? 2 * r)%Z then (q + 1)%Z
  else if Z.even q then q else (q + 1)%Z.

(** The exact value of [100 * x], rounded to an integer, ties to even;
    [None] for an infinity or a NaN. *)
Definition hundredths_of (x : float) : option Z :=
  match Prim2SF x with
  | S754_zero _ => Some 0%Z
  | S754_finite s m e =>
    let n := (100 * (if s then Z.neg m else Z.pos m))%Z in
    Some (if (0 <=? e)%Z then (n * 2 ^ e)%Z
          else round_half_even n (2 ^ (- e)))
  | S754_infinity _ => None
  | S754_nan => None
  end.

(** The float nearest to [k / 100] ([k] below 2^53: the division of two
    floats that hold [k] and [100] exactly is rounded correctly). *)
Definition hundredths (k : Z) : float := (of_Z k / of_Z 100)%float.

(** [round(x, 2)]: the float nearest to the value of [x] rounded to two
    decimals, ties to even. *)
Definition round2 (x : float) : float :=
  match hundredths_of x with
  | Some k => hundredths k
  | None => x
  end.

(** [min(a, b)]: [b] when it is smaller, [a] otherwise. *)
Definition min (a b : float) : float := if (b <? a)%float then b else a.

(** The float nearest to [n / d] for two positive integers, ties to the
    even mantissa, and infinite when the quotient is beyond the range:
    the division of IEEE 754 as the library specifies it ([SFdiv]), on
    the two integers taken exactly. *)
Definition nearest_quotient (n d : positive) : float :=
  SF2Prim (SFdiv prec emax (S754_finite false n 0) (S754_finite false d 0)).

(** The float a decimal numeral stands for, as [float()] reads it: the
    float nearest to [n / 10^k], for the number [n] its digits write and
    [k] digits after the period. *)
Definition of_decimal (n : Z) (k : nat) : float :=
  match n with
  | Zpos p => nearest_quotient p (Z.to_pos (10 ^ Z.of_nat k))
  | _ => 0%float
  end.

(** The magnitude of a finite float in hundredths, rounded to an integer,
    ties to even: the digits the [.2f] format writes. *)
Definition magnitude_hundredths (m : positive) (e : Z) : Z :=
  let n := (100 * Z.pos m)%Z in
  if (0 <=? e)%Z then (n * 2 ^ e)%Z else round_half_even n (2 ^ (- e)).

End PyFloat.

(* ================================================================== *)
(** * models.py                                                         *)
(* ================================================================== *)

Module Models.
Import Py.

(** [datetime.date]: the proleptic Gregorian calendar, years 1..9999. *)
Record date := { year : Z; month : Z; day : Z }.

Definition is_leap (y : Z) : bool :=
  ((y mod 4 =? 0) && (negb (y mod 100 =? 0) || (y mod 400 =? 0)))%Z.

Definition days_in_month (y m : Z) : Z :=
  (if (m =? 2) then (if is_leap y then 29 else 28)
   else if (m =? 4) || (m =? 6) || (m =? 9) || (m =? 11) then 30
   else 31)%Z.

(** [date(y, m, d)]; [None] stands for the [ValueError] it raises. *)
Definition mk_date (y m d : Z) : option date :=
  if ((1 <=? y) && (y <=? 9999) && (1 <=? m) && (m <=? 12)
      && (1 <=? d) && (d <=? days_in_month y m))%Z
  then Some {| year := y; month := m; day := d |}
  else None.

(** [a <= b] on dates. *)
Definition date_leb (a b : date) : bool :=
  ((year a <? year b)
   || ((year a =? year b)
       && ((month a <? month b)
           || ((month a =? month b) && (day a <=? day b)))))%Z.

(** The dataclass [ExtractedData]; [montant_ttc] is a float, and
    [type_doc_slug] is the attribute [_type_doc_slug] that
    [classify.ensure_type_doc] sets. *)
Record ExtractedData := {
  type_document : str;
  date_doc : option date;
  montant_ttc : option float;
  numero_facture : option str;
  fournisseur : option str;
  fournisseur_raw : option str;
  texte_complet : str;
  confidence : float;
  type_doc_slug : option str
}.

End Models.

(* ================================================================== *)
(** * extract.py                                                        *)
(* ================================================================== *)

Module Extract.
Import Py Re Models.

Section WithUnicode.
Context {U : Unicode}.

(** r"\b(\d{1,2})[/\-\.](\d{1,2})[/\-\.](\d{2,4})\b" *)
Definition DATE_FR : re :=
  seqs [ word_boundary;
         Grp 1 (Rep digit 1 (Some 2)); Chr (one_of (utf8 "/-."));
         Grp 2 (Rep digit 1 (Some 2)); Chr (one_of (utf8 "/-."));
         Grp 3 (Rep digit 2 (Some 4));
         word_boundary ].

(** r"\b(20\d{2})[/\-](\d{2})[/\-](\d{2})\b" *)
Definition DATE_ISO : re :=
  seqs [ word_boundary;
         Grp 1 (Seq (lit (utf8 "20")) (Rep digit 2 (Some 2)));
         Chr (one_of (utf8 "/-"));
         Grp 2 (Rep digit 2 (Some 2)); Chr (one_of (utf8 "/-"));
         Grp 3 (Rep digit 2 (Some 2));
         word_boundary ].

Definition MONTHS_FR : list str :=
  map utf8
    [ "janvier"; "février"; "mars"; "avril"; "mai"; "juin";
      "juillet"; "août"; "septembre"; "octobre"; "novembre"; "décembre" ]%string.

(** r"\b(\d{1,2})\s+(janvier|...|décembre)\s+(\d{4})\b", re.IGNORECASE *)
Definition DATE_FR_LONG : re :=
  seqs [ word_boundary;
         Grp 1 (Rep digit 1 (Some 2)); Rep space 1 None;
         Grp 2 (alts (map lit_i MONTHS_FR)); Rep space 1 None;
         Grp 3 (Rep digit 4 (Some 4));
         word_boundary ].

(** "[\d\s]+[,\.]\d{2}", the amount both patterns capture *)
Definition amount_re : re :=
  seqs [ Rep (fun c => digit c || space c) 1 None;
         Chr (one_of (utf8 ",."));
         Rep digit 2 (Some 2) ].

(** "(?:€|eur|euros?)" *)
Definition currency_re : re :=
  alts [ lit_i (utf8 "€"); lit_i (utf8 "eur");
         Seq (lit_i (utf8 "euro")) (Opt (lit_i (utf8 "s"))) ].

(** r"(?:total\s+ttc|ttc\s*:?|montant\s+ttc|total\s+à\s+payer)\s*:?\s*"
    r"([\d\s]+[,\.]\d{2})\s*(?:€|eur|euros?)?", re.IGNORECASE *)
Definition MONTANT_TTC : re :=
  seqs [ alts [ seqs [lit_i (utf8 "total"); Rep space 1 None; lit_i (utf8 "ttc")];
                seqs [lit_i (utf8 "ttc"); Rep space 0 None; Opt (lit (utf8 ":"))];
                seqs [lit_i (utf8 "montant"); Rep space 1 None; lit_i (utf8 "ttc")];
                seqs [lit_i (utf8 "total"); Rep space 1 None; lit_i (utf8 "à");
                      Rep space 1 None; lit_i (utf8 "payer")] ];
         Rep space 0 None; Opt (lit (utf8 ":")); Rep space 0 None;
         Grp 1 amount_re;
         Rep space 0 None; Opt currency_re ].

(** r"([\d\s]+[,\.]\d{2})\s*(?:€|eur|euros?)\b", re.IGNORECASE *)
Definition MONTANT_FALLBACK : re :=
  seqs [ Grp 1 amount_re; Rep space 0 None; currency_re; word_boundary ].

Definition KEYWORDS_FACTURE : list str :=
  map utf8 [ "facture"; "invoice"; "rechnung" ]%string.
Definition KEYWORDS_AVOIR : list str :=
  map utf8 [ "avoir"; "credit note"; "crédit"; "remboursement"; "refund" ]%string.
Definition KEYWORDS_DEVIS : list str :=
  map utf8 [ "devis"; "quote"; "estimation"; "proposition commerciale";
             "proposal" ]%string.
Definition KEYWORDS_COURRIER : list str :=
  map utf8 [ "courrier"; "lettre"; "letter"; "mail"; "correspondance" ]%string.
Definition KEYWORDS_PLAN : list str :=
  map utf8 [ "plan"; "schéma"; "schema"; "drawing"; "plan de"; "plan d'" ]%string.
Definition KEYWORDS_IMPOTS : list str :=
  map utf8 [ "impôts"; "impots"; "avis d'imposition"; "avis d'impôt"; "dgfip";
             "urssaf"; "caf"; "taxe"; "fiscal"; "revenus" ]%string.

Definition _parse_fr_date (m : Match) : option date :=
  let d := int_of_digits (group m 1) in
  let mth := int_of_digits (group m 2) in
  let y := int_of_digits (group m 3) in
  let y := if (y <? 100)%Z then (y + 2000)%Z else y in
  mk_date y mth d.

Definition _parse_iso_date (m : Match) : option date :=
  let y := int_of_digits (group m 1) in
  let mth := int_of_digits (group m 2) in
  let d := int_of_digits (group m 3) in
  mk_date y mth d.

(** [MONTHS_FR.index(name)]; [None] stands for its [ValueError]. *)
Fixpoint index_of (name : str) (l : list str) : option Z :=
  match l with
  | [] => None
  | x :: l' =>
    if str_eqb x name then Some 0%Z
    else match index_of name l' with
         | Some i => Some (i + 1)%Z
         | None => None
         end
  end.

Definition _parse_fr_long_date (m : Match) : option date :=
  let day := int_of_digits (group m 1) in
  let month_name := u_lower (group m 2) in
  let year := int_of_digits (group m 3) in
  match index_of month_name MONTHS_FR with
  | Some i => mk_date year (i + 1)%Z day
  | None => None
  end.

(** [date(2000, 1, 1) <= d <= date(2030, 12, 31)] *)
Definition in_window (d : date) : bool :=
  date_leb {| year := 2000; month := 1; day := 1 |} d
  && date_leb d {| year := 2030; month := 12; day := 31 |}.

(** The inner loop of [extract_date]: the first match of one pattern that
    parses to a date of the window. *)
Fixpoint first_plausible (parse : Match -> option date) (ms : list Match)
  : option date :=
  match ms with
  | [] => None
  | m :: ms' =>
    match parse m with
    | Some d => if in_window d then Some d else first_plausible parse ms'
    | None => first_plausible parse ms'
    end
  end.

(** The outer loop, over the (pattern, parse) pairs. *)
Fixpoint try_patterns (ps : list (re * (Match -> option date))) (texte : str)
  : option date :=
  match ps with
  | [] => None
  | (pattern, parse) :: ps' =>
    match first_plausible parse (finditer pattern texte) with
    | Some d => Some d
    | None => try_patterns ps' texte
    end
  end.

Definition extract_date (texte : str) : option date :=
  try_patterns
    [ (DATE_ISO, _parse_iso_date);
      (DATE_FR, _parse_fr_date);
      (DATE_FR_LONG, _parse_fr_long_date) ]
    texte.

(** What [float()] makes of a string before it reads a number in it:
    an ASCII string stays as it is; in another string a character below
    U+007F stays, and from there on white space becomes a space, a
    decimal digit becomes its ASCII digit, and any other character
    becomes a question mark, which ends the reading. *)
Definition float_char (c : char) : char :=
  if (c <? 127)%N then c
  else if u_space c then 32%N
  else match u_decimal c with
       | Some v => (48 + Z.to_N v)%N
       | None => 63%N
       end.

Definition float_text (s : str) : str :=
  if forallb (fun c => (c <? 128)%N) s then s else map float_char s.

(** The white space [float()] passes over around the number: space,
    tabulation, line feed, vertical tabulation, form feed and carriage
    return, and no other character. *)
Definition c_space (c : char) : bool :=
  char_eqb c 32%N || in_range 9 13 c.

Definition ascii_digit (c : char) : bool := in_range 48 57 c.

(** The longest prefix of ASCII digits, and what follows it. *)
Fixpoint span_digits (s : str) : str * str :=
  match s with
  | c :: s' =>
    if ascii_digit c then let (a, b) := span_digits s' in (c :: a, b)
    else ([], s)
  | [] => ([], [])
  end.

(** The number a string of ASCII digits writes. *)
Definition digits_value (s : str) : Z :=
  fold_left (fun acc c => (acc * 10 + (Z.of_N c - 48))%Z) s 0%Z.

(** [float(s)] on the strings [extract_montant_ttc] builds from a captured
    amount: decimal digits, white space and one period.  White space --
    the six characters of [c_space] -- is allowed around the number
    only; [None] stands for [ValueError].  The value is the float nearest
    to the decimal number read. *)
Definition py_float (s : str) : option float :=
  let t := strip_by c_space (float_text s) in
  let (ip, r) := span_digits t in
  match r with
  | [] =>
    if truthy ip then Some (PyFloat.of_decimal (digits_value ip) 0) else None
  | c :: r' =>
    if char_eqb c 46%N then
      let (fp, r2) := span_digits r' in
      match r2 with
      | [] =>
        if truthy ip || truthy fp then
          Some (PyFloat.of_decimal (digits_value (ip ++ fp)) (List.length fp))
        else None
      | _ :: _ => None
      end
    else None
  end.

(** [m.group(1).replace(" ", "").replace(",", ".")] *)
Definition normalize_amount (m : Match) : str :=
  replace (replace (group m 1) (utf8 " ") []) (utf8 ",") (utf8 ".").

(** The fallback loop: [for m in reversed(matches)], first parseable. *)
Fixpoint first_parseable (ms : list Match) : option float :=
  match ms with
  | [] => None
  | m :: ms' =>
    match py_float (normalize_amount m) with
    | Some v => Some v
    | None => first_parseable ms'
    end
  end.

Definition montant_fallback (texte : str) : option float :=
  first_parseable (rev (finditer MONTANT_FALLBACK texte)).

Definition extract_montant_ttc (texte : str) : option float :=
  match search MONTANT_TTC texte with
  | Some m =>
    match py_float (normalize_amount m) with
    | Some v => Some v
    | None => montant_fallback texte
    end
  | None => montant_fallback texte
  end.

(** [for k in keywords: if k in lower: ...] *)
Definition any_in (keywords : list str) (lower : str) : bool :=
  existsb (fun k => contains lower k) keywords.

Definition extract_type_document (texte : str) : str :=
  let lower := u_lower texte in
  if any_in KEYWORDS_AVOIR lower then utf8 "avoir"
  else if any_in KEYWORDS_FACTURE lower then utf8 "facture_fournisseur"
  else if any_in KEYWORDS_DEVIS lower then utf8 "devis"
  else if any_in KEYWORDS_COURRIER lower then utf8 "courrier"
  else if any_in KEYWORDS_PLAN lower then utf8 "plan"
  else if any_in KEYWORDS_IMPOTS lower then utf8 "impots"
  else utf8 "inconnu".

(** A character of "[A-Z0-9\-/]" under [re.IGNORECASE]: one that the case
    folding identifies with a character of the class. *)
Definition NUM_CHARS : str := utf8 "ABCDEFGHIJKLMNOPQRSTUVWXYZ0123456789-/".

Definition num_char (c : char) : bool :=
  existsb (fun x => char_eqb (u_fold c) (u_fold x)) NUM_CHARS.

(** A character of "[°ºo]" under [re.IGNORECASE]. *)
Definition degree_char (c : char) : bool :=
  existsb (fun x => char_eqb (u_fold c) (u_fold x)) (utf8 "°ºo").

(** r"(?:facture\s*n[°ºo]?\s*:?|invoice\s*(?:no|n°|#)?\s*:?|n°\s*facture\s*:?)\s*"
    r"([A-Z0-9\-/]+)", re.IGNORECASE *)
Definition NUM_FACTURE : re :=
  seqs [ alts [ seqs [ lit_i (utf8 "facture"); Rep space 0 None;
                       lit_i (utf8 "n"); Opt (Chr degree_char);
                       Rep space 0 None; Opt (lit (utf8 ":")) ];
                seqs [ lit_i (utf8 "invoice"); Rep space 0 None;
                       Opt (alts [ lit_i (utf8 "no"); lit_i (utf8 "n°");
                                   lit_i (utf8 "#") ]);
                       Rep space 0 None; Opt (lit (utf8 ":")) ];
                seqs [ lit_i (utf8 "n°"); Rep space 0 None;
                       lit_i (utf8 "facture");
                       Rep space 0 None; Opt (lit (utf8 ":")) ] ];
         Rep space 0 None;
         Grp 1 (Rep num_char 1 None) ].

(** r"(?:n°|no\.?|#)\s*([A-Z0-9\-/]{4,})", re.IGNORECASE *)
Definition NUM_FACTURE_ALT : re :=
  seqs [ alts [ lit_i (utf8 "n°");
                Seq (lit_i (utf8 "no")) (Opt (lit (utf8 ".")));
                lit_i (utf8 "#") ];
         Rep space 0 None;
         Grp 1 (Rep num_char 4 None) ].

Definition extract_numero_facture (texte : str) : option str :=
  match search NUM_FACTURE texte with
  | Some m => Some (strip (group m 1))
  | None =>
    match search NUM_FACTURE_ALT texte with
    | Some m => Some (strip (group m 1))
    | None => None
    end
  end.

End WithUnicode.

End Extract.

(* ================================================================== *)
(** * classify.py                                                       *)
(* ================================================================== *)

Module Classify.
Import Py Models.

Definition is_some {A} (o : option A) : bool :=
  match o with Some _ => true | None => false end.

(** ("facture_fournisseur", "avoir", "devis", "courrier", "plan", "impots") *)
Definition RECOGNIZED_TYPES : list str :=
  map utf8 [ "facture_fournisseur"; "avoir"; "devis"; "courrier"; "plan";
             "impots" ]%string.

Definition type_recognized (e : ExtractedData) : bool :=
  existsb (str_eqb (type_document e)) RECOGNIZED_TYPES.

Definition compute_confidence (extracted : ExtractedData) : float :=
  let score := 0%float in
  let score :=
    if opt_truthy (fournisseur extracted) then (score + 0.35)%float
    else if opt_truthy (fournisseur_raw extracted) then (score + 0.1)%float
    else score in
  let score :=
    if is_some (date_doc extracted) then (score + 0.25)%float else score in
  let score :=
    if type_recognized extracted then (score + 0.2)%float else score in
  let score :=
    if opt_truthy (numero_facture extracted) then (score + 0.1)%float
    else score in
  let score :=
    if is_some (montant_ttc extracted) then (score + 0.1)%float else score in
  PyFloat.min 1%float (PyFloat.round2 score).

(** The dictionary [slug_map] with its default, [slug_map.get(t, "INCONNU")]. *)
Definition slug_map : list (str * str) :=
  map (fun p => (utf8 (fst p), utf8 (snd p)))
    [ ("facture_fournisseur", "FACT"); ("avoir", "AVR"); ("devis", "DEVIS");
      ("courrier", "COURRIER"); ("plan", "PLAN"); ("impots", "IMPOTS") ]%string.

Fixpoint dict_get (d : list (str * str)) (k : str) (default : str) : str :=
  match d with
  | [] => default
  | (k', v) :: d' => if str_eqb k' k then v else dict_get d' k default
  end.

Definition ensure_type_doc (extracted : ExtractedData) : ExtractedData :=
  {| type_document := type_document extracted;
     date_doc := date_doc extracted;
     montant_ttc := montant_ttc extracted;
     numero_facture := numero_facture extracted;
     fournisseur := fournisseur extracted;
     fournisseur_raw := fournisseur_raw extracted;
     texte_complet := texte_complet extracted;
     confidence := confidence extracted;
     type_doc_slug :=
       Some (dict_get slug_map (type_document extracted) (utf8 "INCONNU")) |}.

(** The value [get_type_doc_slug] returns (it also caches it on the
    object, through [ensure_type_doc]). *)
Definition get_type_doc_slug (extracted : ExtractedData) : str :=
  match type_doc_slug extracted with
  | Some s => s
  | None =>
    match type_doc_slug (ensure_type_doc extracted) with
    | Some s => s
    | None => []
    end
  end.

End Classify.

(* ================================================================== *)
(** * suppliers.py                                                      *)
(* ================================================================== *)

Module Suppliers.
Import Py Models.

Definition DEFAULT_SCORE_CUTOFF : Z := 70.

(** The two scorers of [rapidfuzz.fuzz] the resolver calls; their values
    are numbers from 0 to 100. *)
Record Fuzz := {
  ratio : str -> str -> Q;
  partial_ratio : str -> str -> Q
}.

Definition Qltb (a b : Q) : bool := negb (Qle_bool b a).

Definition set_fournisseur (e : ExtractedData) (v : str) : ExtractedData :=
  {| type_document := type_document e;
     date_doc := date_doc e;
     montant_ttc := montant_ttc e;
     numero_facture := numero_facture e;
     fournisseur := Some v;
     fournisseur_raw := fournisseur_raw e;
     texte_complet := texte_complet e;
     confidence := confidence e;
     type_doc_slug := type_doc_slug e |}.

Section WithUnicode.
Context {U : Unicode}.

(** The loop taken when rapidfuzz cannot be imported. *)
Fixpoint containment_loop (raw : str) (items : list (str * str))
  (extracted : ExtractedData) : ExtractedData :=
  match items with
  | [] => extracted
  | (key, value) :: items' =>
    if contains (u_lower raw) (u_lower key)
    then set_fournisseur extracted value
    else containment_loop raw items' extracted
  end.

(** One test of the scoring loop:
    [if r >= score_cutoff and r > best_ratio: best_ratio, best_value = r, name]. *)
Definition keep_better (score_cutoff : Z) (r : Q) (folder_name : str)
  (best : Q * option str) : Q * option str :=
  if Qle_bool (inject_Z score_cutoff) r && Qltb (fst best) r
  then (r, Some folder_name)
  else best.

(** The body of the scoring loop for one (alias, folder_name). *)
Definition score_step (fuzz_mod : Fuzz) (score_cutoff : Z) (raw : str)
  (best : Q * option str) (candidate : str * str) : Q * option str :=
  let (alias, folder_name) := candidate in
  let r := ratio fuzz_mod (u_lower raw) (u_lower alias) in
  let best := keep_better score_cutoff r folder_name best in
  let pr := partial_ratio fuzz_mod (u_lower raw) (u_lower alias) in
  keep_better score_cutoff pr folder_name best.

(** [fuzz_mod] is what [_get_rapidfuzz()] returns: the module, or [None]
    when it is not installed. *)
Definition resolve_fournisseur (fuzz_mod : option Fuzz)
  (extracted : ExtractedData) (mapping_fournisseurs : list (str * str))
  (score_cutoff : Z) : ExtractedData :=
  match fournisseur_raw extracted with
  | None => extracted
  | Some raw =>
    if negb (truthy raw) then extracted
    else match mapping_fournisseurs with
    | [] => extracted
    | _ :: _ =>
      match fuzz_mod with
      | None => containment_loop raw mapping_fournisseurs extracted
      | Some fz =>
        let best :=
          fold_left (score_step fz score_cutoff raw) mapping_fournisseurs
                    (inject_Z 0, None) in
        match snd best with
        | Some best_value =>
          if truthy best_value then set_fournisseur extracted best_value
          else extracted
        | None => extracted
        end
      end
    end
  end.

End WithUnicode.

End Suppliers.

(* ================================================================== *)
(** * rules.py                                                          *)
(* ================================================================== *)

Module Rules.
Import Py Re Models.

(** A number on at least [width] digits, as [strftime] and the [.2f]
    format write them. *)
Definition zero_pad (width : nat) (n : Z) : str :=
  let d := str_of_nat (Z.to_nat n) in
  repeat 48%N (width - List.length d) ++ d.

(** [str(n)] for a natural number given in binary. *)
Definition str_of_N (n : N) : str :=
  map N_of_ascii (list_ascii_of_string (NilZero.string_of_uint (N.to_uint n))).

(** [f"{x:.2f}"]: the exact value of the float rounded to two decimals,
    ties to even, with its sign; "inf" and "nan" for the floats that are
    no numbers. *)
Definition format_2f (x : float) : str :=
  match Prim2SF x with
  | S754_nan => utf8 "nan"
  | S754_infinity s => (if s then utf8 "-" else []) ++ utf8 "inf"
  | S754_zero s => (if s then utf8 "-" else []) ++ utf8 "0.00"
  | S754_finite s m e =>
    let k := PyFloat.magnitude_hundredths m e in
    (if s then utf8 "-" else [])
    ++ str_of_N (Z.to_N (k / 100)) ++ utf8 "." ++ zero_pad 2 (k mod 100)
  end.

(** An entry of [config["cles_personnalisees"]]: a dictionary with the
    keys "cle" and "valeur_par_defaut", a list or tuple of strings, or
    anything else. *)
Inductive CleItem :=
| CleDict (cle valeur_par_defaut : option str)
| CleSeq (items : list str)
| CleOther.

(** The part of the configuration dictionary [rules.py] reads to build a
    file name. *)
Record Config := {
  cles_personnalisees : list CleItem
}.

(** [d[k] = v] on a dictionary: the value of a present key is replaced
    where it stands, a new key goes last. *)
Fixpoint dict_set (d : list (str * str)) (k v : str) : list (str * str) :=
  match d with
  | [] => [(k, v)]
  | (k', v') :: d' =>
    if str_eqb k' k then (k, v) :: d' else (k', v') :: dict_set d' k v
  end.

Definition or_default (o : option str) (default : str) : str :=
  match o with
  | Some s => if truthy s then s else default
  | None => default
  end.

Section WithUnicode.
Context {U : Unicode}.

(** r"[^\w\s\-]" *)
Definition special_re : re :=
  Chr (fun c => negb (is_word c || space c || is_char 45%N c)).

(** r"[-\s]+" *)
Definition dashes_spaces_re : re :=
  Rep (fun c => is_char 45%N c || space c) 1 None.

Definition slugify (value : str) (max_length : Z) : str :=
  if negb (truthy value) then []
  else
    let nfd := Py.nfd value in
    let ascii_str := filter (fun c => negb (u_Mn c)) nfd in
    let ascii_str := sub special_re (utf8 " ") ascii_str in
    let ascii_str :=
      strip_chars (utf8 "_") (sub dashes_spaces_re (utf8 "_") ascii_str) in
    if (max_length =? 0)%Z then ascii_str else slice_to ascii_str max_length.

Definition _format_montant (montant : option float) : str :=
  match montant with
  | None => utf8 "0"
  | Some x => replace (replace (format_2f x) (utf8 ".") (utf8 ",")) (utf8 ",") (utf8 "_")
  end.

(** The loop over the user's keys. *)
Definition add_cle (out : list (str * str)) (item : CleItem) : list (str * str) :=
  match item with
  | CleDict cle valeur =>
    let cle := strip (or_default cle []) in
    let val := strip (or_default valeur []) in
    if truthy cle then dict_set out cle (if truthy val then val else cle)
    else out
  | CleSeq (c :: v :: _) =>
    let cle := strip c in
    let val := strip v in
    if truthy cle then dict_set out cle (if truthy val then val else cle)
    else out
  | CleSeq _ => out
  | CleOther => out
  end.

Definition build_placeholders (extracted : ExtractedData) (config : option Config)
  : list (str * str) :=
  let d := date_doc extracted in
  let yyyy := match d with Some d => zero_pad 4 (year d) | None => utf8 "0000" end in
  let mm := match d with Some d => zero_pad 2 (month d) | None => utf8 "00" end in
  let dd := match d with Some d => zero_pad 2 (day d) | None => utf8 "00" end in
  let fournisseur := strip (or_default (fournisseur extracted) (utf8 "Inconnu")) in
  let fournisseur_slug := slugify fournisseur 60 in
  let numero := strip (or_default (numero_facture extracted) (utf8 "N")) in
  let numero_slug := slugify numero 40 in
  let montant_str := _format_montant (montant_ttc extracted) in
  let type_doc := Classify.get_type_doc_slug extracted in
  let impots_slug :=
    if str_eqb type_doc (utf8 "IMPOTS") then fournisseur_slug
    else slugify (utf8 "impots") 60 in
  let client_slug := fournisseur_slug in
  let out :=
    [ (utf8 "fournisseur", fournisseur_slug);
      (utf8 "client", client_slug);
      (utf8 "impots", impots_slug);
      (utf8 "YYYY", yyyy);
      (utf8 "MM", mm);
      (utf8 "DD", dd);
      (utf8 "numero", numero_slug);
      (utf8 "montant", montant_str);
      (utf8 "type_doc", type_doc) ] in
  match config with
  | Some cfg => fold_left add_cle (cles_personnalisees cfg) out
  | None => out
  end.

(** r"\{[^}]+\}" *)
Definition unresolved_re : re :=
  seqs [ Chr (is_char 123%N);
         Rep (fun c => negb (is_char 125%N c)) 1 None;
         Chr (is_char 125%N) ].

Definition apply_template (template : str) (placeholders : list (str * str)) : str :=
  let result :=
    fold_left
      (fun result kv => replace result (utf8 "{" ++ fst kv ++ utf8 "}") (snd kv))
      placeholders template in
  let result := sub unresolved_re [] result in
  strip (strip_chars [92%N] (strip_chars (utf8 "/") result)).

Definition build_destination_filename (modele_nom_fichier : str)
  (extracted : ExtractedData) (config : option Config) : str :=
  let placeholders := build_placeholders extracted config in
  let name := apply_template modele_nom_fichier placeholders in
  if negb (endswith (u_lower name) (utf8 ".pdf"))
  then name ++ utf8 ".pdf"
  else name.

End WithUnicode.

End Rules.

(* ================================================================== *)
(** * models.py: serialization                                          *)
(* ================================================================== *)

Module Serialize.
Import Py Models Rules.

(** [d.isoformat()]: "%04d-%02d-%02d" *)
Definition isoformat (d : date) : str :=
  zero_pad 4 (year d) ++ utf8 "-" ++ zero_pad 2 (month d) ++ utf8 "-"
  ++ zero_pad 2 (day d).

(** The values [to_dict] holds: [None], a string, a float. *)
Inductive value :=
| VNone
| VStr (s : str)
| VFloat (x : float).

Definition opt_str (o : option str) : value :=
  match o with Some s => VStr s | None => VNone end.

(** [ExtractedData.to_dict] *)
Definition to_dict (self : ExtractedData) : list (str * value) :=
  [ (utf8 "type_document", VStr (type_document self));
    (utf8 "date_doc",
     match date_doc self with Some d => VStr (isoformat d) | None => VNone end);
    (utf8 "montant_ttc",
     match montant_ttc self with Some x => VFloat x | None => VNone end);
    (utf8 "numero_facture", opt_str (numero_facture self));
    (utf8 "fournisseur", opt_str (fournisseur self));
    (utf8 "fournisseur_raw", opt_str (fournisseur_raw self));
    (utf8 "confidence", VFloat (confidence self)) ].

End Serialize.

(* ================================================================== *)
(** * pathlib and the filesystem                                        *)
(* ================================================================== *)

(** [pathlib.Path] in its POSIX flavour, without symbolic links. *)
Module Pathlib.
Import Py.

Record Path := { absolute : bool; parts : list str }.

Fixpoint parts_eqb (a b : list str) : bool :=
  match a, b with
  | [], [] => true
  | x :: a', y :: b' => str_eqb x y && parts_eqb a' b'
  | _, _ => false
  end.

Definition path_eqb (p q : Path) : bool :=
  Bool.eqb (absolute p) (absolute q) && parts_eqb (parts p) (parts q).

(** [s.split("/")]; [cur] is the component being read, reversed. *)
Fixpoint split_slash (cur : str) (s : str) : list str :=
  match s with
  | [] => [rev cur]
  | c :: s' =>
    if char_eqb c 47%N then rev cur :: split_slash [] s'
    else split_slash (c :: cur) s'
  end.

(** The components of a path written as a string: empty ones and "." are
    dropped. *)
Definition parse_parts (s : str) : list str :=
  filter (fun p => truthy p && negb (str_eqb p (utf8 ".")))
         (split_slash [] s).

(** [p / s] *)
Definition joinpath (p : Path) (s : str) : Path :=
  if startswith s (utf8 "/")
  then {| absolute := true; parts := parse_parts s |}
  else {| absolute := absolute p; parts := parts p ++ parse_parts s |}.

(** [p.name] *)
Definition name (p : Path) : str := last (parts p) [].

(** [p.parent] *)
Definition parent (p : Path) : Path :=
  {| absolute := absolute p; parts := removelast (parts p) |}.

(** The length of what follows the last period of [n], if it has one. *)
Fixpoint after_last_dot (rn : str) : option nat :=
  match rn with
  | [] => None
  | c :: rn' =>
    if char_eqb c 46%N then Some 0
    else match after_last_dot rn' with
         | Some j => Some (S j)
         | None => None
         end
  end.

(** Where [p.suffix] starts in the name: at its last period, when that is
    neither the first nor the last character. *)
Definition suffix_length (n : str) : nat :=
  match after_last_dot (rev n) with
  | Some j =>
    if (0 <? j) && (S j <? List.length n) then S j else 0
  | None => 0
  end.

(** [p.suffix] *)
Definition suffix (p : Path) : str :=
  let n := name p in skipn (List.length n - suffix_length n) n.

(** [p.stem] *)
Definition stem (p : Path) : str :=
  let n := name p in firstn (List.length n - suffix_length n) n.

Fixpoint join_slash (l : list str) : str :=
  match l with
  | [] => []
  | [x] => x
  | x :: l' => x ++ utf8 "/" ++ join_slash l'
  end.

(** [str(p)] *)
Definition path_str (p : Path) : str :=
  if absolute p then utf8 "/" ++ join_slash (parts p)
  else match parts p with
       | [] => utf8 "."
       | l => join_slash l
       end.

(** [p] and the paths above it, nearest last. *)
Definition ancestors_and_self (p : Path) : list Path :=
  map (fun k => {| absolute := absolute p; parts := firstn k (parts p) |})
      (seq 1 (List.length (parts p))).

End Pathlib.

(** The filesystem the mover acts on: the files and directories that
    exist, and the failures the operating system may answer with. *)
Module Os.
Import Py Pathlib.

Inductive kind := File | Dir.

Definition FS := list (Path * kind).

Definition is_file_kind (k : kind) : bool :=
  match k with File => true | Dir => false end.

(** Whether a path exists in a state of the filesystem.  The root and
    the current directory always exist.  A path is looked up by its
    components, so a path with a ".." among them is outside the model:
    the theorem on the names of colliding moves excludes it
    ([Spec.lexical]).  The calls
    [p.exists()] and [p.is_file()], which may raise, are
    [Path_exists] and [Path_is_file] below. *)
Definition exists_ (fs : FS) (p : Path) : bool :=
  match parts p with
  | [] => true
  | _ => existsb (fun e => path_eqb (fst e) p) fs
  end.

(** Whether a path is a regular file in a state of the filesystem. *)
Definition is_file (fs : FS) (p : Path) : bool :=
  existsb (fun e => path_eqb (fst e) p && is_file_kind (snd e)) fs.

(** Whether a path is a directory in a state of the filesystem. *)
Definition is_dir (fs : FS) (p : Path) : bool :=
  match parts p with
  | [] => true
  | _ => existsb (fun e => path_eqb (fst e) p && negb (is_file_kind (snd e))) fs
  end.

Definition remove (fs : FS) (p : Path) : FS :=
  filter (fun e => negb (path_eqb (fst e) p)) fs.

(** An exception of a move: an [OSError] with its errno, message and
    file name, [shutil.Error] for an occupied destination, or the
    [RuntimeError] that [resolve()] raises for a loop of symbolic
    links. *)
Inductive exc :=
| OSError (errno : Z) (strerror : str) (filename : Path)
| ShutilError (destination : Path)
| RuntimeError (filename : Path).

(** [str(e)] *)
Definition exc_str (e : exc) : str :=
  match e with
  | OSError errno strerror filename =>
    utf8 "[Errno " ++ str_of_nat (Z.to_nat errno) ++ utf8 "] " ++ strerror
    ++ utf8 ": '" ++ path_str filename ++ utf8 "'"
  | ShutilError destination =>
    utf8 "Destination path '" ++ path_str destination ++ utf8 "' already exists"
  | RuntimeError filename =>
    utf8 "Symlink loop from '" ++ path_str filename ++ utf8 "'"
  end.

(** What the operating system refuses for reasons outside the model
    (permissions, full disk, unreachable share, over-long names,
    symbolic links): for a directory to create, an errno and a message;
    for a move, the same and whether a copy was left at the destination;
    for the [os.stat] behind [exists()] and [is_file()], the errno and
    message of the [OSError] it raises; for [resolve()], the exception
    it raises. *)
Record Faults := {
  mkdir_fault : Path -> option (Z * str);
  move_fault : Path -> Path -> option (Z * str * bool);
  stat_fault : Path -> option (Z * str);
  resolve_fault : Path -> option exc
}.

(** The result of an operation: a value or an exception, with the
    filesystem left behind; or a loop that did not end within its bound. *)
Inductive result (A : Type) :=
| Ok (a : A) (fs : FS)
| Raised (e : exc) (fs : FS)
| Unfinished.
Arguments Ok {A} a fs.
Arguments Raised {A} e fs.
Arguments Unfinished {A}.

Definition M (A : Type) := FS -> result A.

Definition ret {A} (a : A) : M A := fun fs => Ok a fs.

Definition raise {A} (e : exc) : M A := fun fs => Raised e fs.

Definition bind {A B} (c : M A) (k : A -> M B) : M B :=
  fun fs =>
    match c fs with
    | Ok a fs' => k a fs'
    | Raised e fs' => Raised e fs'
    | Unfinished => Unfinished
    end.

(** [try: c  except Exception as e: h e] *)
Definition try_except {A} (c : M A) (h : exc -> M A) : M A :=
  fun fs =>
    match c fs with
    | Ok a fs' => Ok a fs'
    | Raised e fs' => h e fs'
    | Unfinished => Unfinished
    end.

Definition get_fs : M FS := fun fs => Ok fs fs.

Definition put_fs (fs' : FS) : M unit := fun _ => Ok tt fs'.

Notation "x <- c ;; k" := (bind c (fun x => k))
  (at level 61, c at next level, right associativity).
Notation "c ;;; k" := (bind c (fun _ => k))
  (at level 61, right associativity).

(** [pathlib._ignore_error]: ENOENT, ENOTDIR, EBADF and ELOOP, the errors
    that [exists()] and [is_file()] answer with [False]. *)
Definition _ignore_error (errno : Z) : bool :=
  existsb (Z.eqb errno) [2; 20; 9; 40]%Z.

Section WithFaults.
Variable os : Faults.

(** The exception a query of [p] raises, if it raises one: every
    [OSError] of [os.stat] but the ignored ones.  Whether a path is
    missing is told by the filesystem, so an ignored error is no fault. *)
Definition stat_raises (p : Path) : option exc :=
  match stat_fault os p with
  | Some (errno, msg) =>
    if _ignore_error errno then None else Some (OSError errno msg p)
  | None => None
  end.

(** [p.exists()] *)
Definition Path_exists (p : Path) : M bool :=
  fs <- get_fs ;;
  match stat_raises p with
  | Some e => raise e
  | None => ret (exists_ fs p)
  end.

(** [p.is_file()] *)
Definition Path_is_file (p : Path) : M bool :=
  fs <- get_fs ;;
  match stat_raises p with
  | Some e => raise e
  | None => ret (is_file fs p)
  end.

(** [p.resolve()], whose value only goes to the log. *)
Definition Path_resolve (p : Path) : M unit :=
  match resolve_fault os p with
  | Some e => raise e
  | None => ret tt
  end.

(** [p.mkdir(parents=True, exist_ok=True)] *)
Definition mkdir_parents (p : Path) : M unit :=
  fs <- get_fs ;;
  match mkdir_fault os p with
  | Some (errno, msg) => raise (OSError errno msg p)
  | None =>
    match find (is_file fs) (ancestors_and_self p) with
    | Some q => raise (OSError 17 (utf8 "File exists") q)
    | None =>
      put_fs (fs ++ map (fun q => (q, Dir))
                        (filter (fun q => negb (exists_ fs q))
                                (ancestors_and_self p)))
    end
  end.

(** [os.rename(src, dst)]: a file at [dst] is replaced. *)
Definition rename (src dst : Path) : M unit :=
  fs <- get_fs ;;
  if negb (is_dir fs (parent dst))
  then raise (OSError 2 (utf8 "No such file or directory") dst)
  else put_fs (remove (remove fs src) dst ++ [(dst, File)]).

(** [shutil.move(src, dst)] for a file [src]. *)
Definition shutil_move (src dst : Path) : M unit :=
  fs <- get_fs ;;
  match move_fault os src dst with
  | Some (errno, msg, copy_left) =>
    (if copy_left && negb (exists_ fs dst)
     then put_fs (fs ++ [(dst, File)]) else ret tt) ;;;
    raise (OSError errno msg src)
  | None =>
    if negb (is_file fs src)
    then raise (OSError 2 (utf8 "No such file or directory") src)
    else if is_dir fs dst then
      let real_dst := joinpath dst (name src) in
      if exists_ fs real_dst then raise (ShutilError real_dst)
      else rename src real_dst
    else rename src dst
  end.

End WithFaults.

End Os.

(* ================================================================== *)
(** * mover.py                                                          *)
(* ================================================================== *)

Module Mover.
Import Py Pathlib Os Models.

(** The dataclass [ProcessingResult]. *)
Record ProcessingResult := {
  source_path : Path;
  dest_dir : Path;
  dest_filename : str;
  extracted : ExtractedData;
  moved : bool;
  error : option str
}.

(** f"{stem}_{i}{suffix}" *)
Definition candidate_name (stem suffix : str) (i : nat) : str :=
  stem ++ utf8 "_" ++ str_of_nat i ++ suffix.

Section WithFaults.
Variable os : Faults.

(** The [while True] loop of [_unique_path], run for at most [fuel]
    candidates. *)
Fixpoint unique_loop (fuel : nat) (dest_dir : Path) (stem suffix : str)
  (i : nat) : M Path :=
  match fuel with
  | O => fun _ => Unfinished
  | S fuel' =>
    let candidate := joinpath dest_dir (candidate_name stem suffix i) in
    taken <- Path_exists os candidate ;;
    if negb taken then ret candidate
    else unique_loop fuel' dest_dir stem suffix (S i)
  end.

(** The loop is given one candidate more than the filesystem has
    entries. *)
Definition _unique_path (dest_dir : Path) (base_name : str) : M Path :=
  let dest := joinpath dest_dir base_name in
  taken <- Path_exists os dest ;;
  if negb taken then ret dest
  else
    fs <- get_fs ;;
    unique_loop (S (List.length fs)) dest_dir
                (Pathlib.stem dest) (Pathlib.suffix dest) 1.

(** The error is logged and raised again. *)
Definition _ensure_dir (path : Path) : M unit :=
  try_except (mkdir_parents os path) (fun e => raise e).

Definition with_error (r : ProcessingResult) (e : str) : ProcessingResult :=
  {| source_path := source_path r; dest_dir := dest_dir r;
     dest_filename := dest_filename r; extracted := extracted r;
     moved := moved r; error := Some e |}.

Definition with_moved (r : ProcessingResult) (final_name : str) : ProcessingResult :=
  {| source_path := source_path r; dest_dir := dest_dir r;
     dest_filename := final_name; extracted := extracted r;
     moved := true; error := error r |}.

(** The end of the try block of a move: the two paths are resolved for
    the log.  The block is left with the fields of [result] as they were
    set: an exception raised here finds [moved] set, and the handler of
    the block adds its text to that result. *)
Definition log_move (source_path final_path : Path) (result : ProcessingResult)
  : M ProcessingResult :=
  try_except
    (Path_resolve os final_path ;;; Path_resolve os source_path ;;; ret result)
    (fun e => ret (with_error result (exc_str e))).

(** The test of the source stands before the try block: what it raises
    is raised by the call. *)
Definition move_to_destination (source_path dest_dir : Path) (dest_filename : str)
  (extracted : ExtractedData) (dry_run : bool) : M ProcessingResult :=
  let result :=
    {| source_path := source_path; dest_dir := dest_dir;
       dest_filename := dest_filename; extracted := extracted;
       moved := false; error := None |} in
  if dry_run then ret result
  else
    found <- Path_is_file os source_path ;;
    if negb found
    then ret (with_error result
                (utf8 "Fichier source introuvable: " ++ path_str source_path))
    else
      try_except
        (_ensure_dir dest_dir ;;;
         final_path <- _unique_path dest_dir dest_filename ;;
         shutil_move os source_path final_path ;;;
         log_move source_path final_path
                  (with_moved result (name final_path)))
        (fun e => ret (with_error result (exc_str e))).

(** Several files moved, one after the other, to the same directory under
    the same rendered name. *)
Fixpoint move_all (sources : list Path) (dest_dir : Path) (dest_filename : str)
  (extracted : ExtractedData) : M (list ProcessingResult) :=
  match sources with
  | [] => ret []
  | s :: rest =>
    r <- move_to_destination s dest_dir dest_filename extracted false ;;
    rs <- move_all rest dest_dir dest_filename extracted ;;
    ret (r :: rs)
  end.

(** [ProcessingResult.dest_path] *)
Definition dest_path (self : ProcessingResult) : Path :=
  joinpath (dest_dir self) (dest_filename self).

(** [move_to_failed]; the message only goes to the log.  The test of
    the source stands before the try block, and the two paths are
    resolved for the log inside it, after the move. *)
Definition move_to_failed (source_path dossier_failed : Path)
  (error_message : str) (dry_run : bool) : M (option Path) :=
  if dry_run
  then ret (Some (joinpath dossier_failed (name source_path ++ utf8 "_FAILED")))
  else
    found <- Path_is_file os source_path ;;
    if negb found then ret None
    else
      try_except
        (_ensure_dir dossier_failed ;;;
         let base := stem source_path ++ utf8 "_FAILED" ++ suffix source_path in
         final_path <- _unique_path dossier_failed base ;;
         shutil_move os source_path final_path ;;;
         Path_resolve os final_path ;;;
         Path_resolve os source_path ;;;
         ret (Some final_path))
        (fun _ => ret None).

(** What the operating system or the encoder refuses when the metadata
    are written: for a path and a content, the text of the exception
    ([str(e)]) and whether the file was created before it was raised. *)
Variable write_fault :
  Path -> list (str * Serialize.value) -> option (str * bool).

(** The text of the [ValueError] that [with_suffix] raises for a path and
    a suffix it refuses. *)
Variable value_error_text : Path -> str -> str.

(** [p.with_suffix(s)]; [None] stands for its [ValueError]. *)
Definition with_suffix (p : Path) (s : str) : option Path :=
  if contains s (utf8 "/")
     || (truthy s && negb (startswith s (utf8 ".")))
     || str_eqb s (utf8 ".")
  then None
  else if negb (truthy (name p)) then None
  else
    let old_suffix := suffix p in
    let new_name :=
      if negb (truthy old_suffix) then name p ++ s
      else firstn (List.length (name p) - List.length old_suffix) (name p) ++ s in
    Some {| absolute := absolute p;
            parts := removelast (parts p) ++ [new_name] |}.

(** The block under [if write_metadata:]: the file beside the moved one
    is opened for writing and the metadata are dumped into it.  The
    answer is the text of the exception the block raises, if it raises
    one. *)
Definition dump_metadata (final_path : Path) (extracted : ExtractedData)
  : M (option str) :=
  match with_suffix final_path (suffix final_path ++ utf8 ".json") with
  | None =>
    ret (Some (value_error_text final_path (suffix final_path ++ utf8 ".json")))
  | Some meta_path =>
    fs <- get_fs ;;
    match write_fault meta_path (Serialize.to_dict extracted) with
    | Some (text, created) =>
      (if created && negb (exists_ fs meta_path)
       then put_fs (fs ++ [(meta_path, File)]) else ret tt) ;;;
      ret (Some text)
    | None =>
      if is_dir fs meta_path
      then ret (Some (exc_str (OSError 21 (utf8 "Is a directory") meta_path)))
      else if negb (is_dir fs (parent meta_path))
      then ret (Some (exc_str (OSError 2 (utf8 "No such file or directory")
                                 meta_path)))
      else
        (if is_file fs meta_path then ret tt
         else put_fs (fs ++ [(meta_path, File)])) ;;;
        ret None
    end
  end.

(** [move_to_a_classer]; [timestamp] is
    [datetime.now().strftime("%Y%m%d_%H%M%S")].  The test of the source
    stands before the try block.  An exception raised after the move --
    by the writing of the metadata or by the resolution of the paths for
    the log -- finds the result with [moved] set: the handler adds its
    text to that result. *)
Definition move_to_a_classer (timestamp : str)
  (source_path dossier_a_classer : Path) (extracted : ExtractedData)
  (dry_run write_metadata : bool) : M ProcessingResult :=
  let original_name := name source_path in
  let safe_name :=
    if 80 <? List.length original_name then firstn 80 original_name
    else original_name in
  let dest_filename := timestamp ++ utf8 "_A_CLASSER_" ++ safe_name in
  let result :=
    {| source_path := source_path; dest_dir := dossier_a_classer;
       dest_filename := dest_filename; extracted := extracted;
       moved := false; error := None |} in
  if dry_run then ret result
  else
    found <- Path_is_file os source_path ;;
    if negb found
    then ret (with_error result
                (utf8 "Fichier source introuvable: " ++ path_str source_path))
    else
      try_except
        (_ensure_dir dossier_a_classer ;;;
         final_path <- _unique_path dossier_a_classer dest_filename ;;
         shutil_move os source_path final_path ;;;
         let result := with_moved result (name final_path) in
         if write_metadata then
           raised <- dump_metadata final_path extracted ;;
           match raised with
           | Some text => ret (with_error result text)
           | None => log_move source_path final_path result
           end
         else log_move source_path final_path result)
        (fun e => ret (with_error result (exc_str e))).

End WithFaults.

End Mover.

(* ================================================================== *)
(** * watcher.py                                                        *)
(* ================================================================== *)

Module Watcher.
Import Py Pathlib.

(** What the filesystem answers about a path: nothing there
    ([exists()] is false), a file whose [stat()] raises [OSError], or a
    file of some size. *)
Inductive probe :=
| Missing
| Unreadable
| Size (st_size : Z).

(** One call of [_check_pending]: the value of [time.monotonic()], what
    the filesystem answers during the scan of the pending files, and what
    it answers when the stable files are handed over. *)
Record Tick := {
  now : float;
  scan : Path -> probe;
  at_dispatch : Path -> probe
}.

(** The fields of [StableFileHandler]; [on_stable_file] is represented by
    the list of paths it is called with. *)
Record StableFileHandler := {
  stability_seconds : float;
  check_interval : float;
  min_file_size : Z;
  exclude_patterns : list str;
  _pending : list (Path * (Z * float))
}.

Definition with_pending (h : StableFileHandler)
  (pending : list (Path * (Z * float))) : StableFileHandler :=
  {| stability_seconds := stability_seconds h;
     check_interval := check_interval h;
     min_file_size := min_file_size h;
     exclude_patterns := exclude_patterns h;
     _pending := pending |}.

(** [d.get(p)], [d[p] = v] and [d.pop(p, None)] on the dictionary of
    pending files. *)
Fixpoint pending_get (d : list (Path * (Z * float))) (p : Path)
  : option (Z * float) :=
  match d with
  | [] => None
  | (q, v) :: d' => if path_eqb q p then Some v else pending_get d' p
  end.

Fixpoint pending_set (d : list (Path * (Z * float))) (p : Path)
  (v : Z * float) : list (Path * (Z * float)) :=
  match d with
  | [] => [(p, v)]
  | (q, w) :: d' =>
    if path_eqb q p then (q, v) :: d' else (q, w) :: pending_set d' p v
  end.

Definition pending_pop (d : list (Path * (Z * float))) (p : Path)
  : list (Path * (Z * float)) :=
  filter (fun e => negb (path_eqb (fst e) p)) d.

Section WithUnicode.
Context {U : Unicode}.
(** [fnmatch.fnmatch(name, pattern)] *)
Variable fnmatch : str -> str -> bool.

Definition _matches_exclude (path : Path) (exclude_patterns : list str) : bool :=
  existsb (fun pattern => fnmatch (name path) pattern) exclude_patterns.

Definition _is_pdf (path : Path) : bool :=
  str_eqb (u_lower (suffix path)) (utf8 ".pdf").

Definition _should_ignore (h : StableFileHandler) (answer : Path -> probe)
  (path : Path) : bool :=
  if negb (_is_pdf path) then true
  else if _matches_exclude path (exclude_patterns h) then true
  else match answer path with
       | Size st_size => (st_size <? min_file_size h)%Z
       | Unreadable => true
       | Missing => true
       end.

(** The loop of [_schedule_check]'s caller is the watchdog thread; the
    function itself records an untracked file with its size and the
    time. *)
Definition _schedule_check (h : StableFileHandler) (time : float)
  (answer : Path -> probe) (path : Path) : StableFileHandler :=
  match pending_get (_pending h) path with
  | Some _ => h
  | None =>
    match answer path with
    | Size size => with_pending h (pending_set (_pending h) path (size, time))
    | _ => h
    end
  end.

(** The state of the first loop of [_check_pending]: the dictionary and
    the two lists. *)
Record Scan := {
  pending : list (Path * (Z * float));
  to_remove : list Path;
  to_process : list Path
}.

(** Its body, for one item of [list(self._pending.items())]. *)
Definition scan_item (h : StableFileHandler) (t : Tick) (st : Scan)
  (item : Path * (Z * float)) : Scan :=
  let '(path, (last_size, last_check)) := item in
  match scan t path with
  | Missing | Unreadable =>
    {| pending := pending st;
       to_remove := to_remove st ++ [path];
       to_process := to_process st |}
  | Size size =>
    if negb (size =? last_size)%Z then
      {| pending := pending_set (pending st) path (size, now t);
         to_remove := to_remove st;
         to_process := to_process st |}
    else
      let elapsed := (now t - last_check)%float in
      if (stability_seconds h <=? elapsed)%float then
        {| pending := pending st;
           to_remove := to_remove st ++ [path];
           to_process := to_process st ++ [path] |}
      else st
  end.

(** The paths [on_stable_file] is called with. *)
Definition dispatched_of (h : StableFileHandler) (t : Tick)
  (to_process : list Path) : list Path :=
  filter
    (fun path =>
       match at_dispatch t path with
       | Missing => false
       | _ => negb (_should_ignore h (at_dispatch t) path)
       end)
    to_process.

(** [_check_pending]: the handler afterwards, and the calls of
    [on_stable_file] in their order. *)
Definition _check_pending (h : StableFileHandler) (t : Tick)
  : StableFileHandler * list Path :=
  let st :=
    fold_left (scan_item h t) (_pending h)
              {| pending := _pending h; to_remove := []; to_process := [] |} in
  let pending' := fold_left pending_pop (to_remove st) (pending st) in
  (with_pending h pending', dispatched_of h t (to_process st)).

(** The stability thread: one [_check_pending] per tick. *)
Fixpoint run_ticks (h : StableFileHandler) (ticks : list Tick)
  : StableFileHandler * list (list Path) :=
  match ticks with
  | [] => (h, [])
  | t :: ticks' =>
    let (h1, d) := _check_pending h t in
    let (h2, ds) := run_ticks h1 ticks' in
    (h2, d :: ds)
  end.

(** A [FileSystemEvent] of watchdog, as far as the handler reads it. *)
Record FileSystemEvent := {
  is_directory : bool;
  src_path : Path
}.

(** [on_created]: [at_filter] is what the filesystem answers to
    [_should_ignore], [at_schedule] what it answers to
    [_schedule_check], [time] the value of [time.monotonic()] there.
    The paths of the events are absolute and free of symbolic links, so
    the [path.resolve()] of [_schedule_check] leaves them as they are. *)
Definition on_created (h : StableFileHandler) (time : float)
  (at_filter at_schedule : Path -> probe) (event : FileSystemEvent)
  : StableFileHandler :=
  if is_directory event then h
  else
    let path := src_path event in
    if _should_ignore h at_filter path then h
    else _schedule_check h time at_schedule path.

(** [on_modified] has the same body. *)
Definition on_modified (h : StableFileHandler) (time : float)
  (at_filter at_schedule : Path -> probe) (event : FileSystemEvent)
  : StableFileHandler :=
  if is_directory event then h
  else
    let path := src_path event in
    if _should_ignore h at_filter path then h
    else _schedule_check h time at_schedule path.

Definition get_pending_count (h : StableFileHandler) : nat :=
  List.length (_pending h).

End WithUnicode.

End Watcher.

(* ================================================================== *)
(** * rules.py: the rules of the configuration and the destination      *)
(* ================================================================== *)

Module Routing.
Import Py Re Models Rules Pathlib.

(** An entry of [config["regles_classement"]]: what [r.get] answers for
    the three keys the program reads ([None] for a key that is missing or
    null). *)
Record Regle := {
  regle_type : option str;
  regle_modele_chemin : option str;
  regle_modele_nom_fichier : option str
}.

Section WithUnicode.
Context {U : Unicode}.

(** [(r.get("type") or "").strip().lower()] *)
Definition regle_key (r : Regle) : str :=
  u_lower (strip (or_default (regle_type r) [])).

(** [(r.get("modele_chemin") or ""), (r.get("modele_nom_fichier") or "")] *)
Definition regle_models (r : Regle) : str * str :=
  (or_default (regle_modele_chemin r) [],
   or_default (regle_modele_nom_fichier r) []).

(** The first loop: the rule of the type. *)
Fixpoint rule_of_type (type_document : str) (regles : list Regle)
  : option (str * str) :=
  match regles with
  | [] => None
  | r :: regles' =>
    if str_eqb (regle_key r) (u_lower type_document)
    then Some (regle_models r)
    else rule_of_type type_document regles'
  end.

(** The second loop: the default rule. *)
Fixpoint rule_by_default (regles : list Regle) : option (str * str) :=
  match regles with
  | [] => None
  | r :: regles' =>
    let t := regle_key r in
    if str_eqb t (utf8 "défaut") || str_eqb t (utf8 "defaut")
       || str_eqb t (utf8 "default")
    then Some (regle_models r)
    else rule_by_default regles'
  end.

(** [regles_classement] is [config.get("regles_classement")]. *)
Definition get_rule_for_type (type_document : str)
  (regles_classement : option (list Regle)) : option (str * str) :=
  let regles := match regles_classement with Some l => l | None => [] end in
  match regles with
  | [] => None
  | _ :: _ =>
    match rule_of_type type_document regles with
    | Some models => Some models
    | None => rule_by_default regles
    end
  end.

(** [root.joinpath( *parts)] *)
Definition joinpath_all (root : Path) (parts : list str) : Path :=
  fold_left joinpath parts root.

(** [racine_destination] is given as a path, as [main.py] does. *)
Definition build_destination_path (racine_destination : Path)
  (modele_chemin : str) (extracted : ExtractedData) (config : option Config)
  : Path :=
  let root := racine_destination in
  let placeholders := build_placeholders extracted config in
  let path_part := apply_template modele_chemin placeholders in
  let parts :=
    filter truthy (split_slash [] (replace path_part [92%N] (utf8 "/"))) in
  joinpath_all root parts.

End WithUnicode.

End Routing.

(* ================================================================== *)
(** * The words of the specification                                    *)
(* ================================================================== *)

(** Predicates the statements below are written with. *)
Module Spec.
Import Py Re Models.

Section WithUnicode.
Context {U : Unicode}.

(** The text, in lower case, contains one of the keywords. *)
Definition mentions (keywords : list str) (texte : str) : Prop :=
  exists k a b, In k keywords /\ u_lower texte = a ++ k ++ b.

(** The year of a numeric date: a year below 100 counts from 2000. *)
Definition resolved_year (y : Z) : Z :=
  if (y <? 100)%Z then (y + 2000)%Z else y.

(** The months in letters and their numbers. *)
Definition month_numbers : list (str * Z) :=
  [ (utf8 "janvier", 1); (utf8 "février", 2); (utf8 "mars", 3);
    (utf8 "avril", 4); (utf8 "mai", 5); (utf8 "juin", 6);
    (utf8 "juillet", 7); (utf8 "août", 8); (utf8 "septembre", 9);
    (utf8 "octobre", 10); (utf8 "novembre", 11); (utf8 "décembre", 12) ]%Z.

Fixpoint month_lookup (t : list (str * Z)) (name : str) : option Z :=
  match t with
  | [] => None
  | (n, k) :: t' => if str_eqb n name then Some k else month_lookup t' name
  end.

(** The number of a month written in lower case. *)
Definition month_number (name : str) : option Z :=
  month_lookup month_numbers name.

(** An ISO match read as a date: year, month, day. *)
Definition iso_reading (m : Match) : option date :=
  mk_date (int_of_digits (group m 1)) (int_of_digits (group m 2))
          (int_of_digits (group m 3)).

(** A numeric match read as a date: day, month, year. *)
Definition numeric_reading (m : Match) : option date :=
  mk_date (resolved_year (int_of_digits (group m 3)))
          (int_of_digits (group m 2)) (int_of_digits (group m 1)).

(** A match with the month in letters read as a date: day, the month by
    its name in lower case, year. *)
Definition long_reading (m : Match) : option date :=
  match month_number (u_lower (group m 2)) with
  | Some k => mk_date (int_of_digits (group m 3)) k (int_of_digits (group m 1))
  | None => None
  end.

(** What the three date patterns find in a text, read as dates, in the
    order [extract_date] consults them: the ISO matches, then the numeric
    ones, then the ones with the month in letters. *)
Definition dated_candidates (texte : str) : list (option date) :=
  map iso_reading (finditer Extract.DATE_ISO texte)
  ++ map numeric_reading (finditer Extract.DATE_FR texte)
  ++ map long_reading (finditer Extract.DATE_FR_LONG texte).

(** A candidate is plausible when it parsed to a date of the window. *)
Definition plausible (c : option date) : bool :=
  match c with
  | Some d => Extract.in_window d
  | None => false
  end.

(** The first plausible candidate of a list. *)
Fixpoint first_ok (cs : list (option date)) : option date :=
  match cs with
  | [] => None
  | c :: cs' => if plausible c then c else first_ok cs'
  end.

(** A captured amount as [extract_montant_ttc] reads it. *)
Definition parsed_amount (m : Match) : option float :=
  Extract.py_float (Extract.normalize_amount m).

(** The value of the labeled match, when there is one and it parses. *)
Definition labeled_amount (texte : str) : option float :=
  match search Extract.MONTANT_TTC texte with
  | Some m => parsed_amount m
  | None => None
  end.

(** A captured amount without its spaces and with a period for each
    comma. *)
Definition normalized (s : str) : str :=
  flat_map (fun c => if char_eqb 32%N c then []
                     else if char_eqb 44%N c then [46%N] else [c]) s.

(** The characters an amount is captured from before its separator:
    decimal digits and white space. *)
Definition amount_class (c : char) : bool := is_digit c || u_space c.

(** A string without its spaces. *)
Definition unspaced (s : str) : str :=
  filter (fun c => negb (char_eqb 32%N c)) s.

(** What the reading of an amount takes from Unicode: up to U+007F the
    decimal digits are "0" to "9", each with its own value, and the white
    space is the tabulation to the carriage return, the four separators
    U+001C to U+001F and the space; everywhere a decimal digit has a
    value from 0 to 9 and is no white space. *)
Definition ascii_classes : Prop :=
  (forall c v, (c < 128)%N -> u_decimal c = Some v -> c = (48 + Z.to_N v)%N)
  /\ (forall c, (c < 128)%N -> u_space c = true ->
                in_range 9 13 c || in_range 28 32 c = true)
  /\ (forall c v, u_decimal c = Some v ->
                  (0 <= v <= 9)%Z /\ u_space c = false).

(** The white space that may stand before the number once the spaces
    are removed: tabulation, line feed, vertical tabulation, form feed
    and carriage return, and the white space beyond ASCII. *)
Definition float_blank (c : char) : bool :=
  if (c <? 128)%N then in_range 9 13 c else u_space c.

(** A captured amount read by hand: [body], a separator and the two
    decimals [d1] and [d2].  The spaces of [body] are dropped and the
    white space before its first other character is passed over; what is
    left must be decimal digits, and the amount is the float nearest to
    the number these digits and the two decimals write, in hundredths. *)
Definition amount_reading (body : str) (d1 d2 : char) : option float :=
  let b := lstrip_by float_blank (unspaced body) in
  if forallb is_digit b
  then Some (PyFloat.of_decimal (int_of_digits (b ++ [d1; d2])) 2)
  else None.

(** The shape of a captured amount: characters of the class, at least
    one, then a comma or a period, then two decimal digits. *)
Definition amount_shape (body : str) (sep d1 d2 : char) : Prop :=
  body <> [] /\ forallb amount_class body = true
  /\ (sep = 44%N \/ sep = 46%N)
  /\ is_digit d1 = true /\ is_digit d2 = true.

(** A pattern that captures no group. *)
Fixpoint groupless (r : re) : bool :=
  match r with
  | Seq a b => groupless a && groupless b
  | Alt a b => groupless a && groupless b
  | Opt a => groupless a
  | Grp _ _ => false
  | _ => true
  end.

(** The scores the resolver computes, in the order it computes them: for
    each alias of the mapping its full-string score, then its partial
    score, each with the canonical name of the alias. *)
Definition scored (fz : Suppliers.Fuzz) (raw : str)
  (mapping : list (str * str)) : list (Q * str) :=
  flat_map
    (fun c =>
       [ (Suppliers.ratio fz (u_lower raw) (u_lower (fst c)), snd c);
         (Suppliers.partial_ratio fz (u_lower raw) (u_lower (fst c)), snd c) ])
    mapping.

(** What every character of a slug is: a word character that is neither
    white space, nor a dash, nor a combining mark, that decomposes no
    further and is a starter. *)
Definition slug_char (c : char) : Prop :=
  is_word c = true /\ u_space c = false /\ char_eqb 45%N c = false
  /\ u_Mn c = false /\ u_decomp c = [c] /\ u_ccc c = 0.

(** The string before truncation. *)
Definition slug_body (value : str) : str :=
  strip_chars (utf8 "_")
    (sub Rules.dashes_spaces_re (utf8 "_")
       (sub Rules.special_re (utf8 " ")
          (filter (fun c => negb (u_Mn c)) (nfd value)))).

End WithUnicode.

(** A date of the calendar. *)
Definition valid_date (d : date) : Prop :=
  (1 <= year d <= 9999 /\ 1 <= month d <= 12
   /\ 1 <= day d <= days_in_month (year d) (month d))%Z.

(** An extraction result used by the examples. *)
Definition sample_extracted : ExtractedData :=
  {| type_document := utf8 "facture_fournisseur";
     date_doc := Some {| year := 2024; month := 3; day := 15 |};
     montant_ttc := Some 1234.56%float;
     numero_facture := Some (utf8 "FAC-001");
     fournisseur := Some (utf8 "EDF");
     fournisseur_raw := Some (utf8 "EDF SA");
     texte_complet := [];
     confidence := 0%float;
     type_doc_slug := None |}.

(** The weight of the supplier signal, in hundredths: 35 for a resolved
    canonical supplier, otherwise 10 for a raw supplier text alone. *)
Definition supplier_weight (e : ExtractedData) : Z :=
  if opt_truthy (fournisseur e) then 35
  else if opt_truthy (fournisseur_raw e) then 10
  else 0.

(** The sum of the weights of the signals present, in hundredths. *)
Definition weights (e : ExtractedData) : Z :=
  supplier_weight e
  + (if Classify.is_some (date_doc e) then 25 else 0)
  + (if Classify.type_recognized e then 20 else 0)
  + (if opt_truthy (numero_facture e) then 10 else 0)
  + (if Classify.is_some (montant_ttc e) then 10 else 0).

(** [e'] has every positive signal [e] has. *)
Definition more_signals (e e' : ExtractedData) : Prop :=
  (opt_truthy (fournisseur e) = true -> opt_truthy (fournisseur e') = true)
  /\ (opt_truthy (fournisseur_raw e) = true ->
      opt_truthy (fournisseur e') = true
      \/ opt_truthy (fournisseur_raw e') = true)
  /\ (Classify.is_some (date_doc e) = true ->
      Classify.is_some (date_doc e') = true)
  /\ (Classify.type_recognized e = true -> Classify.type_recognized e' = true)
  /\ (opt_truthy (numero_facture e) = true ->
      opt_truthy (numero_facture e') = true)
  /\ (Classify.is_some (montant_ttc e) = true ->
      Classify.is_some (montant_ttc e') = true).

(** The hundredths from 0 to 100. *)
Definition percents : list Z := map Z.of_nat (seq 0 101).

(** A score qualifies when it meets the cutoff and is positive. *)
Definition qualifies (score_cutoff : Z) (r : Q) : Prop :=
  (inject_Z score_cutoff <= r)%Q /\ (0 < r)%Q.

(** A scorer for the examples: 100 for equal strings and for a contained
    alias, 0 otherwise. *)
Definition exact_fuzz : Suppliers.Fuzz :=
  {| Suppliers.ratio := fun a b => if str_eqb a b then inject_Z 100 else inject_Z 0;
     Suppliers.partial_ratio :=
       fun a b => if contains a b then inject_Z 100 else inject_Z 0 |}.

(** The loop over the scores, one at a time. *)
Definition keep (cutoff : Z) (best : Q * option str) (c : Q * str)
  : Q * option str :=
  Suppliers.keep_better cutoff (fst c) (snd c) best.

(** An extraction result with a raw supplier text only. *)
Definition edf_raw : ExtractedData :=
  {| type_document := utf8 "facture_fournisseur"; date_doc := None;
     montant_ttc := None; numero_facture := None; fournisseur := None;
     fournisseur_raw := Some (utf8 "EDF SA"); texte_complet := [];
     confidence := 0%float; type_doc_slug := None |}.

(** The characters of a class at the head of a string, and the string
    without them. *)
Fixpoint run_of (p : char -> bool) (s : str) : str :=
  match s with
  | c :: s' => if p c then c :: run_of p s' else []
  | [] => []
  end.

(** A stripped string has no character of the class at either end. *)
Definition stripped (p : char -> bool) (s : str) : Prop :=
  lstrip_by p s = s /\ lstrip_by p (rev s) = rev s.

(** What one check decides for a pending file. *)
Inductive verdict :=
| Drop                (* the file is gone or cannot be read *)
| Reset (size : Z)    (* its size changed: the window restarts *)
| Fire                (* unchanged for the stability duration *)
| Keep.               (* unchanged, not long enough *)

Definition judge (h : Watcher.StableFileHandler) (t : Watcher.Tick)
  (path : Pathlib.Path) (entry : Z * float) : verdict :=
  match Watcher.scan t path with
  | Watcher.Missing => Drop
  | Watcher.Unreadable => Drop
  | Watcher.Size size =>
    if negb (size =? fst entry)%Z then Reset size
    else if (Watcher.stability_seconds h <=? Watcher.now t - snd entry)%float
         then Fire else Keep
  end.

(** The paths a dictionary of pending files tracks. *)
Definition tracked (d : list (Pathlib.Path * (Z * float))) : list Pathlib.Path :=
  map fst d.

(** A pending file, a handler that tracks it since time 0 with 100
    bytes, and checks at a given time that find a given size. *)
Definition inbox_file : Pathlib.Path :=
  {| Pathlib.absolute := true;
     Pathlib.parts := [utf8 "inbox"; utf8 "scan.pdf"] |}.

Definition sample_handler : Watcher.StableFileHandler :=
  {| Watcher.stability_seconds := 5%float;
     Watcher.check_interval := 1%float;
     Watcher.min_file_size := 0;
     Watcher.exclude_patterns := [utf8 "*.tmp"];
     Watcher._pending := [(inbox_file, (100%Z, 0%float))] |}.

Definition tick_at (time : float) (size : Z) : Watcher.Tick :=
  {| Watcher.now := time;
     Watcher.scan := fun _ => Watcher.Size size;
     Watcher.at_dispatch := fun _ => Watcher.Size size |}.

(** A pattern matcher for the examples: the pattern "*.tmp" alone, as
    [fnmatch] reads it. *)
Definition fnmatch_tmp (name pattern : str) : bool :=
  str_eqb pattern (utf8 "*.tmp") && endswith name (utf8 ".tmp").

(** The numeric suffix of a candidate name: an underscore and a number. *)
Definition numbered (i : nat) : str := 95%N :: str_of_nat i.

(** A file name: not empty, not ".", without slash. *)
Definition simple_name (base : str) : Prop :=
  base <> [] /\ base <> utf8 "." /\ ~ In 47%N base.


(** The path made of one name. *)
Definition name_path (base : str) : Pathlib.Path :=
  {| Pathlib.absolute := false; Pathlib.parts := [base] |}.

(** The [i]-th name a file of a given base name can land on: the base
    name itself, then the base name with _1, _2, ... before its
    extension. *)
Definition landing_name (base : str) (i : nat) : str :=
  match i with
  | O => base
  | S _ =>
    Mover.candidate_name (Pathlib.stem (name_path base))
                         (Pathlib.suffix (name_path base)) i
  end.

Definition landing (d : Pathlib.Path) (base : str) (i : nat) : Pathlib.Path :=
  Pathlib.joinpath d (landing_name base i).

(** A filesystem for the examples: three scanned files in /inbox, and an
    invoice already filed in /out/EDF. *)
Definition abs_path (l : list string) : Pathlib.Path :=
  {| Pathlib.absolute := true; Pathlib.parts := map utf8 l |}.

Definition sample_fs : Os.FS :=
  [ (abs_path ["inbox"], Os.Dir);
    (abs_path ["inbox"; "a.pdf"], Os.File);
    (abs_path ["inbox"; "b.pdf"], Os.File);
    (abs_path ["inbox"; "c.pdf"], Os.File);
    (abs_path ["out"], Os.Dir);
    (abs_path ["out"; "EDF"], Os.Dir);
    (abs_path ["out"; "EDF"; "facture.pdf"], Os.File) ]%string.

(** An operating system that refuses nothing, and one that refuses to
    create any directory. *)
Definition no_faults : Os.Faults :=
  {| Os.mkdir_fault := fun _ => None; Os.move_fault := fun _ _ => None;
     Os.stat_fault := fun _ => None; Os.resolve_fault := fun _ => None |}.

Definition mkdir_denied : Os.Faults :=
  {| Os.mkdir_fault := fun _ => Some (13%Z, utf8 "Permission denied");
     Os.move_fault := fun _ _ => None;
     Os.stat_fault := fun _ => None; Os.resolve_fault := fun _ => None |}.

(** A scanned file that is a symbolic link to the file "x.pdf" beside
    it, so that it counts as a file; once moved to /out under the name
    "x.pdf" the link points to itself, and [resolve()] raises for it. *)
Definition link_fs : Os.FS :=
  [ (abs_path ["inbox"], Os.Dir);
    (abs_path ["inbox"; "a.pdf"], Os.File);
    (abs_path ["inbox"; "x.pdf"], Os.File);
    (abs_path ["out"], Os.Dir) ]%string.

Definition link_loop : Os.Faults :=
  {| Os.mkdir_fault := fun _ => None; Os.move_fault := fun _ _ => None;
     Os.stat_fault := fun _ => None;
     Os.resolve_fault := fun p =>
       if Pathlib.path_eqb p (abs_path ["out"; "x.pdf"]%string)
       then Some (Os.RuntimeError p) else None |}.

(** An operating system for which every name is too long. *)
Definition name_too_long : Os.Faults :=
  {| Os.mkdir_fault := fun _ => None; Os.move_fault := fun _ _ => None;
     Os.stat_fault := fun _ => Some (36%Z, utf8 "File name too long");
     Os.resolve_fault := fun _ => None |}.

(** The three files moved to /out/EDF as "facture.pdf". *)
Definition sample_moves : Os.result (list Mover.ProcessingResult) :=
  Mover.move_all no_faults
    [ abs_path ["inbox"; "a.pdf"]; abs_path ["inbox"; "b.pdf"];
      abs_path ["inbox"; "c.pdf"] ]%string
    (abs_path ["out"; "EDF"]%string) (utf8 "facture.pdf")
    sample_extracted sample_fs.

(** The seven labels a file name can carry for the type of a document. *)
Definition SLUGS : list str :=
  map utf8 [ "FACT"; "AVR"; "DEVIS"; "COURRIER"; "PLAN"; "IMPOTS";
             "INCONNU" ]%string.

(** What is extracted from a text that mentions a credit note, as far as
    its type goes. *)
Definition avoir_extracted : ExtractedData :=
  {| type_document :=
       Extract.extract_type_document (U := Latin1)
         (utf8 "AVOIR sur facture 12");
     date_doc := None; montant_ttc := None; numero_facture := None;
     fournisseur := None; fournisseur_raw := None;
     texte_complet := utf8 "AVOIR sur facture 12";
     confidence := 0%float; type_doc_slug := None |}.

(** The type of a rule that applies to every type without a rule of its
    own. *)
Definition default_key (t : str) : Prop :=
  t = utf8 "défaut" \/ t = utf8 "defaut" \/ t = utf8 "default".

(** A component of a path: a name that is not empty, holds neither a
    slash nor a backslash, and is not ".". *)
Definition component (c : str) : Prop :=
  c <> [] /\ ~ In 47%N c /\ ~ In 92%N c /\ c <> utf8 ".".

(** The class of the characters of a placeholder: all but the closing
    brace. *)
Definition inner (c : char) : bool := negb (is_char 125%N c).

(** A placeholder stands at the head of a string: an opening brace, one
    character at least and none of them a closing brace, and a closing
    brace. *)
Definition placeholder_at (s : str) : Prop :=
  exists body rest,
    s = 123%N :: body ++ 125%N :: rest /\ body <> [] /\ ~ In 125%N body.

(** A placeholder stands somewhere in a string. *)
Definition has_placeholder (s : str) : Prop :=
  exists a t, s = a ++ t /\ placeholder_at t.

(** A user's key that holds a given character neither in its name nor in
    its default value. *)
Definition cle_free (x : char) (item : Rules.CleItem) : Prop :=
  match item with
  | Rules.CleDict cle valeur =>
    ~ In x (Rules.or_default cle []) /\ ~ In x (Rules.or_default valeur [])
  | Rules.CleSeq (c :: v :: _) => ~ In x c /\ ~ In x v
  | _ => True
  end.

(** [P] holds of the [n] integers from [k] on. *)
Fixpoint all_from (P : Z -> bool) (n : nat) (k : Z) : bool :=
  match n with
  | O => true
  | S n' => P k && all_from P n' (k + 1)
  end.

(** The amounts the file names are checked on one by one: those below
    1000 euros, in hundredths. *)
Definition cents_bound : Z := 100000.

(** The float that holds [k] hundredths is written back as [k]
    hundredths by the [.2f] format. *)
Definition exact_hundredths (k : Z) : bool :=
  match Prim2SF (PyFloat.of_decimal k 2) with
  | S754_zero false => (k =? 0)%Z
  | S754_finite false m e => (PyFloat.magnitude_hundredths m e =? k)%Z
  | _ => false
  end.

Section ForeignChars.
Context {U : Unicode}.

(** A character that no value read from a document brings into a name:
    neither a letter or digit, nor the underscore, nor the dash. *)
Definition foreign (x : char) : Prop :=
  u_alnum x = false /\ x <> 95%N /\ x <> 45%N
  /\ ~ (48 <= x <= 57)%N /\ ~ (65 <= x <= 90)%N /\ ~ (97 <= x <= 122)%N.

End ForeignChars.

(** An extraction result whose supplier name is written like a path that
    climbs out of a directory. *)
Definition climbing_extracted : ExtractedData :=
  {| type_document := utf8 "facture_fournisseur";
     date_doc := Some {| year := 2024; month := 3; day := 15 |};
     montant_ttc := Some 10.5%float;
     numero_facture := Some (utf8 "../A-1");
     fournisseur := Some (utf8 "../../etc/cron.d");
     fournisseur_raw := None;
     texte_complet := [];
     confidence := 0%float;
     type_doc_slug := None |}.

(** Nothing of the first filesystem is lost in the second, but perhaps
    the entry of one path. *)
Definition kept_but (src : Pathlib.Path) (fs fs' : Os.FS) : Prop :=
  forall q k, In (q, k) fs -> q <> src -> In (q, k) fs'.

(** An operating system that lets everything pass, for the metadata as
    well, and one on which no metadata can be written. *)
Definition no_write_fault (p : Pathlib.Path)
  (content : list (str * Serialize.value)) : option (str * bool) := None.

Definition disk_full (p : Pathlib.Path)
  (content : list (str * Serialize.value)) : option (str * bool) :=
  Some (utf8 "[Errno 28] No space left on device", true).

Definition no_value_error (p : Pathlib.Path) (s : str) : str := [].

(** The numbers from [lo] on, [n] of them. *)
Definition z_range (lo : Z) (n : nat) : list Z :=
  map (fun i => (lo + Z.of_nat i)%Z) (seq 0 n).

(** The days of the years 2000 to 2030, written year, month, day, with
    the months of 31 days throughout. *)
Definition window_days : list (Z * Z * Z) :=
  flat_map (fun y => flat_map (fun m => map (fun d => (y, m, d))
                                            (z_range 1 31))
                              (z_range 1 12))
           (z_range 2000 31).

Definition date_eqb (a b : date) : bool :=
  ((year a =? year b) && (month a =? month b) && (day a =? day b))%Z.

(** A date of the calendar written with [isoformat] is read back by
    [extract_date]. *)
Definition reads_back (t : Z * Z * Z) : bool :=
  let '(y, m, d) := t in
  match mk_date y m d with
  | Some dt =>
    match Extract.extract_date (U := Latin1) (Serialize.isoformat dt) with
    | Some dt' => date_eqb dt' dt
    | None => false
    end
  | None => true
  end.

(** What happens to a handler while the watcher runs: the observer
    reports a creation or a modification, or the stability loop makes a
    check. *)
Inductive Action :=
| Created (time : float) (at_filter at_schedule : Pathlib.Path -> Watcher.probe)
          (event : Watcher.FileSystemEvent)
| Modified (time : float) (at_filter at_schedule : Pathlib.Path -> Watcher.probe)
           (event : Watcher.FileSystemEvent)
| Checked (t : Watcher.Tick).

Section WatcherRuns.
Context {U : Unicode}.
Variable fnmatch : str -> str -> bool.

(** One action: the handler afterwards and the files handed over. *)
Definition act (h : Watcher.StableFileHandler) (a : Action)
  : Watcher.StableFileHandler * list Pathlib.Path :=
  match a with
  | Created time f s event => (Watcher.on_created fnmatch h time f s event, [])
  | Modified time f s event => (Watcher.on_modified fnmatch h time f s event, [])
  | Checked t => Watcher._check_pending fnmatch h t
  end.

(** The actions of a run, one after the other. *)
Fixpoint run_actions (h : Watcher.StableFileHandler) (l : list Action)
  : Watcher.StableFileHandler * list (list Pathlib.Path) :=
  match l with
  | [] => (h, [])
  | a :: l' =>
    let (h1, d) := act h a in
    let (h2, ds) := run_actions h1 l' in
    (h2, d :: ds)
  end.

(** A file the handler accepts by its name: a PDF that no exclusion
    pattern matches. *)
Definition accepted (h : Watcher.StableFileHandler) (p : Pathlib.Path) : Prop :=
  Watcher._is_pdf p = true
  /\ Watcher._matches_exclude fnmatch p (Watcher.exclude_patterns h) = false.

(** The state a run keeps: no path is tracked twice, every tracked path
    is accepted, and the settings are those of the start. *)
Definition sound (h0 h : Watcher.StableFileHandler) : Prop :=
  NoDup (tracked (Watcher._pending h))
  /\ (forall p, In p (tracked (Watcher._pending h)) -> accepted h0 p)
  /\ Watcher.exclude_patterns h = Watcher.exclude_patterns h0
  /\ Watcher.min_file_size h = Watcher.min_file_size h0
  /\ Watcher.stability_seconds h = Watcher.stability_seconds h0.

End WatcherRuns.

(** A handler that tracks nothing yet. *)
Definition fresh_handler : Watcher.StableFileHandler :=
  {| Watcher.stability_seconds := 5%float;
     Watcher.check_interval := 1%float;
     Watcher.min_file_size := 1;
     Watcher.exclude_patterns := [utf8 "*.tmp"];
     Watcher._pending := [] |}.

Definition event_on (p : Pathlib.Path) : Watcher.FileSystemEvent :=
  {| Watcher.is_directory := false; Watcher.src_path := p |}.

(** A scan reported twice, a temporary file and a directory, then two
    checks: one file is tracked once, and it is handed over at the second
    check. *)
Definition sample_actions : list Action :=
  [ Created 0%float (fun _ => Watcher.Size 100) (fun _ => Watcher.Size 100)
      (event_on inbox_file);
    Modified 1%float (fun _ => Watcher.Size 100) (fun _ => Watcher.Size 100)
      (event_on inbox_file);
    Created 1%float (fun _ => Watcher.Size 100) (fun _ => Watcher.Size 100)
      (event_on {| Pathlib.absolute := true;
                   Pathlib.parts := [utf8 "inbox"; utf8 "scan.pdf.tmp"] |});
    Created 1%float (fun _ => Watcher.Size 100) (fun _ => Watcher.Size 100)
      {| Watcher.is_directory := true;
         Watcher.src_path := {| Pathlib.absolute := true;
                        Pathlib.parts := [utf8 "inbox"; utf8 "lot.pdf"] |} |};
    Checked (tick_at 2 100);
    Checked (tick_at 6 100) ].

(** Rules in which the default comes first. *)
Definition sample_regles : list Routing.Regle :=
  [ {| Routing.regle_type := Some (utf8 "défaut");
       Routing.regle_modele_chemin := Some (utf8 "Divers/{YYYY}");
       Routing.regle_modele_nom_fichier := None |};
    {| Routing.regle_type := Some (utf8 " Avoir ");
       Routing.regle_modele_chemin := Some (utf8 "Avoirs/{fournisseur}/{YYYY}");
       Routing.regle_modele_nom_fichier := Some (utf8 "{YYYY}-{MM}-{DD}_{numero}") |} ].

End Spec.

(* ================================================================== *)
(** * Facts about strings                                               *)
(* ================================================================== *)

Module PyFacts.
Import Py.

Lemma char_eqb_eq (a b : char) : char_eqb a b = true <-> a = b.
Proof. unfold char_eqb. apply N.eqb_eq. Qed.

Lemma char_eqb_refl (a : char) : char_eqb a a = true.
Proof. apply char_eqb_eq. reflexivity. Qed.

Lemma str_eqb_eq (a b : str) : str_eqb a b = true <-> a = b.
Proof.
  revert b. induction a as [|x a IH]; intros [|y b]; simpl; split; intro H;
    try reflexivity; try discriminate.
  - apply andb_true_iff in H. destruct H as [H1 H2].
    apply char_eqb_eq in H1. apply IH in H2. congruence.
  - inversion H; subst. rewrite char_eqb_refl. simpl. apply IH. reflexivity.
Qed.

Lemma str_eqb_refl (a : str) : str_eqb a a = true.
Proof. apply str_eqb_eq. reflexivity. Qed.

Lemma startswith_spec (s p : str) :
  startswith s p = true <-> exists b, s = p ++ b.
Proof.
  revert s. induction p as [|x p IH]; intros s.
  - destruct s; split; intros _; try reflexivity; eexists; reflexivity.
  - destruct s as [|y s]; cbn [startswith].
    + split; [discriminate | intros [b Hb]; discriminate].
    + rewrite andb_true_iff, char_eqb_eq, IH. split.
      * intros [-> [b ->]]. exists b. reflexivity.
      * intros [b Hb]. inversion Hb; subst. split; [reflexivity | eauto].
Qed.

Lemma startswith_nil (s : str) : startswith s [] = true.
Proof. destruct s; reflexivity. Qed.

(** [k in s] holds exactly when [k] is a substring of [s]. *)
Lemma contains_spec (s k : str) :
  contains s k = true <-> exists a b, s = a ++ k ++ b.
Proof.
  induction s as [|c s IH]; cbn [contains].
  - rewrite orb_false_r, startswith_spec. split.
    + intros [b Hb]. exists [], b. exact Hb.
    + intros [a [b Hab]]. destruct a; simpl in Hab.
      * exists b. exact Hab.
      * discriminate.
  - rewrite orb_true_iff, startswith_spec, IH. split.
    + intros [[b Hb] | [a [b Hab]]].
      * exists [], b. exact Hb.
      * exists (c :: a), b. simpl. congruence.
    + intros [a [b Hab]]. destruct a as [|x a]; simpl in Hab.
      * left. exists b. exact Hab.
      * right. inversion Hab; subst. exists a, b. reflexivity.
Qed.

Lemma endswith_app (a p : str) : endswith (a ++ p) p = true.
Proof.
  unfold endswith. rewrite rev_app_distr. apply startswith_spec. eauto.
Qed.

(** The laws of the Unicode database the proofs rest on: the lower case
    of the empty string is empty; a decimal digit is worth 0 to 9; the
    space is white space; a canonical decomposition is made of characters
    that decompose no further; letters and digits are starters; the
    underscore is an undecomposable starter that is neither white space
    nor a combining mark. *)
Class UnicodeLaws (U : Unicode) : Prop := {
  lower_nil : u_lower [] = [];
  decimal_range : forall c v, u_decimal c = Some v -> (0 <= v <= 9)%Z;
  space_is_space : u_space 32%N = true;
  decomp_stable : forall c d, In d (u_decomp c) -> u_decomp d = [d];
  alnum_starter : forall c, u_alnum c = true -> u_ccc c = 0;
  underscore_space : u_space 95%N = false;
  underscore_Mn : u_Mn 95%N = false;
  underscore_decomp : u_decomp 95%N = [95%N];
  underscore_ccc : u_ccc 95%N = 0
}.

Lemma in_range_spec (lo hi c : N) :
  in_range lo hi c = true <-> (lo <= c <= hi)%N.
Proof.
  unfold in_range. rewrite andb_true_iff, !N.leb_le. reflexivity.
Qed.

Lemma table_find_in (t : list (N * str)) (c : N) (d : str) :
  table_find t c = Some d -> In (c, d) t.
Proof.
  induction t as [|[k v] t IH]; simpl; [discriminate|].
  destruct (N.eqb_spec k c) as [->|_].
  - intros [= ->]. left. reflexivity.
  - intro H. right. apply IH. exact H.
Qed.

(** Every character of a decomposition of the table is its own
    decomposition, and every letter or digit of Latin-1 is a starter. *)
Lemma latin1_table_stable :
  forallb (fun e => forallb (fun d => str_eqb (latin1_decomp d) [d]) (snd e))
          latin1_decomp_table = true.
Proof. vm_compute. reflexivity. Qed.

Lemma latin1_alnum_below (c : N) : latin1_alnum c = true -> (c < 256)%N.
Proof.
  unfold latin1_alnum. rewrite !orb_true_iff, !andb_true_iff, !in_range_spec,
    !N.eqb_eq. lia.
Qed.

#[export] Instance Latin1_laws : UnicodeLaws Latin1.
Proof.
  constructor; try reflexivity.
  - intros c v. simpl. unfold latin1_decimal.
    destruct (in_range 48 57 c) eqn:E; [|discriminate].
    apply in_range_spec in E. intros [= <-]. lia.
  - intros c d. simpl. unfold latin1_decomp at 1.
    destruct (table_find latin1_decomp_table c) as [l|] eqn:E.
    + intro Hd. apply table_find_in in E.
      pose proof latin1_table_stable as T.
      rewrite forallb_forall in T. specialize (T _ E). simpl in T.
      rewrite forallb_forall in T. apply str_eqb_eq. apply T. exact Hd.
    + intros [<- | []]. unfold latin1_decomp. rewrite E. reflexivity.
  - intros c Hc. simpl in *. apply latin1_alnum_below in Hc.
    unfold latin1_ccc.
    destruct (in_range 807 808 c) eqn:E1; [apply in_range_spec in E1; lia|].
    destruct (in_range 768 879 c) eqn:E2; [apply in_range_spec in E2; lia|].
    reflexivity.
Qed.

End PyFacts.

(* ================================================================== *)
(** * Properties of extract.py                                          *)
(* ================================================================== *)

Module ExtractFacts.
Import Py Re Models Extract Spec PyFacts.

Section WithUnicode.
Context {U : Unicode}.

Lemma any_in_spec (keywords : list str) (texte : str) :
  any_in keywords (u_lower texte) = true <-> mentions keywords texte.
Proof.
  unfold any_in, mentions. rewrite existsb_exists. split.
  - intros [k [Hk Hc]]. apply contains_spec in Hc. destruct Hc as [a [b Hab]].
    exists k, a, b. split; assumption.
  - intros [k [a [b [Hk Hab]]]]. exists k. split; [exact Hk|].
    apply contains_spec. exists a, b. exact Hab.
Qed.

Lemma any_in_false (keywords : list str) (texte : str) :
  ~ mentions keywords texte -> any_in keywords (u_lower texte) = false.
Proof.
  intro H. destruct (any_in keywords (u_lower texte)) eqn:E; [|reflexivity].
  apply any_in_spec in E. contradiction.
Qed.

(** C5. The document type is found by a case-insensitive substring search
    down a fixed ladder of keyword lists: credit note first, then invoice,
    quote, correspondence, drawing, tax; the first list with a keyword in
    the lower-cased text decides, and a text with none is "inconnu".  A
    text with both credit-note and invoice vocabulary is an "avoir". *)
Theorem extract_type_document_ladder (texte : str) :
  (mentions KEYWORDS_AVOIR texte ->
   extract_type_document texte = utf8 "avoir")
  /\ (~ mentions KEYWORDS_AVOIR texte ->
      mentions KEYWORDS_FACTURE texte ->
      extract_type_document texte = utf8 "facture_fournisseur")
  /\ (~ mentions KEYWORDS_AVOIR texte ->
      ~ mentions KEYWORDS_FACTURE texte ->
      mentions KEYWORDS_DEVIS texte ->
      extract_type_document texte = utf8 "devis")
  /\ (~ mentions KEYWORDS_AVOIR texte ->
      ~ mentions KEYWORDS_FACTURE texte ->
      ~ mentions KEYWORDS_DEVIS texte ->
      mentions KEYWORDS_COURRIER texte ->
      extract_type_document texte = utf8 "courrier")
  /\ (~ mentions KEYWORDS_AVOIR texte ->
      ~ mentions KEYWORDS_FACTURE texte ->
      ~ mentions KEYWORDS_DEVIS texte ->
      ~ mentions KEYWORDS_COURRIER texte ->
      mentions KEYWORDS_PLAN texte ->
      extract_type_document texte = utf8 "plan")
  /\ (~ mentions KEYWORDS_AVOIR texte ->
      ~ mentions KEYWORDS_FACTURE texte ->
      ~ mentions KEYWORDS_DEVIS texte ->
      ~ mentions KEYWORDS_COURRIER texte ->
      ~ mentions KEYWORDS_PLAN texte ->
      mentions KEYWORDS_IMPOTS texte ->
      extract_type_document texte = utf8 "impots")
  /\ (~ mentions KEYWORDS_AVOIR texte ->
      ~ mentions KEYWORDS_FACTURE texte ->
      ~ mentions KEYWORDS_DEVIS texte ->
      ~ mentions KEYWORDS_COURRIER texte ->
      ~ mentions KEYWORDS_PLAN texte ->
      ~ mentions KEYWORDS_IMPOTS texte ->
      extract_type_document texte = utf8 "inconnu")
  /\ (mentions KEYWORDS_AVOIR texte ->
      mentions KEYWORDS_FACTURE texte ->
      extract_type_document texte = utf8 "avoir").
Proof.
  unfold extract_type_document.
  repeat split; intros;
    repeat match goal with
    | H : mentions _ _ |- _ => apply any_in_spec in H; rewrite H
    | H : ~ mentions _ _ |- _ => apply any_in_false in H; rewrite H
    end; reflexivity.
Qed.

End WithUnicode.

(** The ladder on a text that speaks of a credit on an invoice. *)
Example extract_type_document_avoir_facture :
  extract_type_document (U := Latin1) (utf8 "CRÉDIT sur la facture 12")
  = utf8 "avoir".
Proof. vm_compute. reflexivity. Qed.

End ExtractFacts.

(* ================================================================== *)
(** * Properties of rules.py                                            *)
(* ================================================================== *)

Module RulesFacts.
Import Py Re Models Rules Spec PyFacts.

Section WithUnicode.
Context {U : Unicode} {L : UnicodeLaws U}.

(** C10. The file name built from a template ends with ".pdf": when the
    rendered template already does, whatever the case of its letters, it
    is the name; otherwise ".pdf" is appended to it, and a template that
    renders to nothing gives ".pdf" alone. *)
Theorem build_destination_filename_pdf (modele_nom_fichier : str)
  (extracted : ExtractedData) (config : option Config) :
  let name :=
    apply_template modele_nom_fichier (build_placeholders extracted config) in
  let result := build_destination_filename modele_nom_fichier extracted config in
  (endswith (u_lower name) (utf8 ".pdf") = true ->
   result = name /\ endswith (u_lower result) (utf8 ".pdf") = true)
  /\ (endswith (u_lower name) (utf8 ".pdf") = false ->
      result = name ++ utf8 ".pdf" /\ endswith result (utf8 ".pdf") = true)
  /\ (name = [] -> result = utf8 ".pdf").
Proof.
  intros name result. unfold result, build_destination_filename.
  fold name. repeat split.
  - rewrite H. reflexivity.
  - rewrite H. exact H.
  - rewrite H. reflexivity.
  - rewrite H. apply endswith_app.
  - intro H. rewrite H, lower_nil. reflexivity.
Qed.

End WithUnicode.

(** The empty template on the Latin-1 instance. *)
Lemma build_destination_filename_pdf_witness :
  build_destination_filename (U := Latin1) [] sample_extracted None
  = utf8 ".pdf".
Proof.
  apply (build_destination_filename_pdf (U := Latin1) [] sample_extracted None).
  vm_compute. reflexivity.
Defined.

Example build_destination_filename_rendered :
  build_destination_filename (U := Latin1)
    (utf8 "{YYYY}-{MM}-{DD}_{type_doc}_{fournisseur}_{numero}_{montant}.pdf")
    sample_extracted None
  = utf8 "2024-03-15_FACT_EDF_FAC_001_1234_56.pdf".
Proof. vm_compute. reflexivity. Qed.

Example build_destination_filename_upper_case :
  build_destination_filename (U := Latin1) (utf8 "{fournisseur}.PDF")
    sample_extracted None
  = utf8 "EDF.PDF".
Proof. vm_compute. reflexivity. Qed.

End RulesFacts.

(* ================================================================== *)
(** * Properties of the date extraction                                 *)
(* ================================================================== *)

Module DateFacts.
Import Py Re Models Extract Spec PyFacts.

Lemma first_ok_app (a b : list (option date)) :
  first_ok (a ++ b) =
  match first_ok a with Some d => Some d | None => first_ok b end.
Proof.
  induction a as [|c a IH]; simpl; [reflexivity|].
  destruct c as [d|]; simpl; [destruct (in_window d)|]; auto.
Qed.

Lemma first_ok_some (cs : list (option date)) (d : date) :
  first_ok cs = Some d <->
  exists before after,
    cs = before ++ Some d :: after /\ in_window d = true
    /\ forall c, In c before -> plausible c = false.
Proof.
  induction cs as [|c cs IH]; simpl.
  - split; [discriminate|]. intros [[|? ?] [after [H _]]]; discriminate.
  - destruct (plausible c) eqn:E.
    + split.
      * intros ->. exists [], cs. simpl in E. repeat split; auto.
        intros ? [].
      * intros [before [after [H [Hw Hb]]]]. destruct before as [|c0 before].
        -- simpl in H. congruence.
        -- simpl in H. inversion H; subst c0.
           rewrite (Hb c (or_introl eq_refl)) in E. discriminate.
    + rewrite IH. split.
      * intros [before [after [H [Hw Hb]]]].
        exists (c :: before), after. subst cs. repeat split; auto.
        intros c0 [<- | Hc]; auto.
      * intros [before [after [H [Hw Hb]]]]. destruct before as [|c0 before].
        -- simpl in H. inversion H; subst c. simpl in E. congruence.
        -- simpl in H. inversion H; subst. exists before, after.
           repeat split; auto. intros c Hc. apply Hb. right. exact Hc.
Qed.

Lemma first_ok_none (cs : list (option date)) :
  first_ok cs = None <-> forall c, In c cs -> plausible c = false.
Proof.
  induction cs as [|c cs IH]; simpl.
  - split; [intros _ ? [] | reflexivity].
  - destruct (plausible c) eqn:E.
    + split.
      * destruct c; simpl in E; discriminate.
      * intro H. rewrite (H c (or_introl eq_refl)) in E. discriminate.
    + rewrite IH. split.
      * intros H c0 [<- | Hc]; auto.
      * intros H c0 Hc. apply H. right. exact Hc.
Qed.

Lemma mk_date_valid (y m d : Z) (dt : date) :
  mk_date y m d = Some dt ->
  valid_date dt /\ year dt = y /\ month dt = m /\ day dt = d.
Proof.
  unfold mk_date, valid_date.
  destruct (_ && _) eqn:E; [|discriminate].
  intros [= <-]. cbn [year month day].
  rewrite !andb_true_iff, !Z.leb_le in E. intuition.
Qed.

Lemma mk_date_invalid (y m d : Z) :
  ~ (1 <= y <= 9999 /\ 1 <= m <= 12 /\ 1 <= d <= days_in_month y m)%Z ->
  mk_date y m d = None.
Proof.
  unfold mk_date. intro H.
  destruct (_ && _) eqn:E; [|reflexivity].
  rewrite !andb_true_iff, !Z.leb_le in E. exfalso. apply H. intuition.
Qed.

Lemma in_window_years (d : date) :
  in_window d = true -> (2000 <= year d <= 2030)%Z.
Proof.
  unfold in_window, date_leb. cbn [year month day].
  rewrite !andb_true_iff, !orb_true_iff, !andb_true_iff, !Z.ltb_lt, !Z.eqb_eq.
  lia.
Qed.

Lemma days_in_month_max (y m : Z) : (days_in_month y m <= 31)%Z.
Proof.
  unfold days_in_month.
  destruct (m =? 2)%Z; [destruct (is_leap y); lia|].
  destruct (_ || _); lia.
Qed.

(** For a date of the calendar the window is the years 2000 to 2030. *)
Lemma in_window_valid (d : date) :
  valid_date d -> (in_window d = true <-> (2000 <= year d <= 2030)%Z).
Proof.
  intro Hv. split; [apply in_window_years|].
  destruct Hv as (_ & Hm & Hd).
  pose proof (days_in_month_max (year d) (month d)) as Hmax.
  intro Hy. unfold in_window, date_leb. cbn [year month day].
  repeat match goal with
         | |- context [(?a <? ?b)%Z] => destruct (Z.ltb_spec a b)
         | |- context [(?a =? ?b)%Z] => destruct (Z.eqb_spec a b)
         | |- context [(?a <=? ?b)%Z] => destruct (Z.leb_spec a b)
         end; cbn [andb orb]; try reflexivity; lia.
Qed.

Section WithUnicode.
Context {U : Unicode} {L : UnicodeLaws U}.

Lemma first_plausible_spec (parse : Match -> option date) (ms : list Match) :
  first_plausible parse ms = first_ok (map parse ms).
Proof.
  induction ms as [|m ms IH]; simpl; [reflexivity|].
  destruct (parse m) as [d|]; simpl; [destruct (in_window d)|]; auto.
Qed.

(** The position of a month in [MONTHS_FR], counted from 1, is its
    number. *)
Lemma month_index (name : str) :
  match index_of name MONTHS_FR with
  | Some i => Some (i + 1)%Z
  | None => None
  end = month_number name.
Proof.
  unfold month_number, month_numbers, MONTHS_FR.
  cbn [map index_of month_lookup].
  repeat (destruct (str_eqb _ name); [reflexivity|]). reflexivity.
Qed.

Lemma parse_iso_reading (m : Match) : _parse_iso_date m = iso_reading m.
Proof. reflexivity. Qed.

Lemma parse_fr_reading (m : Match) : _parse_fr_date m = numeric_reading m.
Proof. reflexivity. Qed.

Lemma parse_fr_long_reading (m : Match) :
  _parse_fr_long_date m = long_reading m.
Proof.
  unfold _parse_fr_long_date, long_reading.
  rewrite <- (month_index (u_lower (group m 2))).
  destruct (index_of (u_lower (group m 2)) MONTHS_FR); reflexivity.
Qed.

Lemma extract_date_first_ok (texte : str) :
  extract_date texte = first_ok (dated_candidates texte).
Proof.
  unfold extract_date, dated_candidates. simpl.
  rewrite !first_plausible_spec, !first_ok_app.
  rewrite (map_ext _ _ parse_iso_reading), (map_ext _ _ parse_fr_reading),
    (map_ext _ _ parse_fr_long_reading).
  repeat match goal with |- context [first_ok ?l] =>
    destruct (first_ok l); try reflexivity end.
Qed.

Lemma parsed_valid (texte : str) (d : date) :
  In (Some d) (dated_candidates texte) -> valid_date d.
Proof.
  unfold dated_candidates. rewrite !in_app_iff, !in_map_iff.
  intros [[m [H _]] | [[m [H _]] | [m [H _]]]].
  - apply mk_date_valid in H. tauto.
  - apply mk_date_valid in H. tauto.
  - unfold long_reading in H.
    destruct (month_number _); [|discriminate].
    apply mk_date_valid in H. tauto.
Qed.

Lemma mk_date_some (y m d : Z) :
  (1 <= y <= 9999 /\ 1 <= m <= 12 /\ 1 <= d <= days_in_month y m)%Z ->
  mk_date y m d = Some {| year := y; month := m; day := d |}.
Proof.
  unfold mk_date. intro H.
  destruct (_ && _) eqn:E; [reflexivity|]. exfalso.
  rewrite !andb_false_iff, !Z.leb_gt in E. lia.
Qed.

Lemma two_digits_value (a b : char) (va vb : Z) :
  u_decimal a = Some va -> u_decimal b = Some vb ->
  int_of_digits [a; b] = (10 * va + vb)%Z /\ (0 <= 10 * va + vb < 100)%Z.
Proof.
  intros Ha Hb. unfold int_of_digits. cbn [fold_left]. rewrite Ha, Hb.
  apply decimal_range in Ha. apply decimal_range in Hb. lia.
Qed.

(** C4. The date of a text is the first of its candidates -- the ISO
    matches read as year, month, day, then the numeric matches read as
    day, month, year, then the matches with the month in letters, read
    as day, month of that name, year -- that parses to a date of the
    calendar within 2000-01-01..2030-12-31; a match that is no date of
    the calendar parses to nothing and is passed over; a numeric match
    whose year has two digits is read as that number plus 2000; and the
    result is absent exactly when no candidate is plausible.  Each of the
    three parsers is the reading of its matches; year, month and day of
    the calendar make the date with these three fields; and for a date
    of the calendar the window is the years 2000 to 2030. *)
Theorem extract_date_priority (texte : str) :
  (forall d,
     extract_date texte = Some d <->
     exists before after,
       dated_candidates texte = before ++ Some d :: after
       /\ in_window d = true
       /\ forall c, In c before -> plausible c = false)
  /\ (extract_date texte = None <->
      forall c, In c (dated_candidates texte) -> plausible c = false)
  /\ (forall d,
        extract_date texte = Some d ->
        valid_date d /\ (2000 <= year d <= 2030)%Z)
  /\ (forall m a b va vb,
        group m 3 = [a; b] ->
        u_decimal a = Some va -> u_decimal b = Some vb ->
        _parse_fr_date m =
        mk_date (10 * va + vb + 2000)
                (int_of_digits (group m 2)) (int_of_digits (group m 1)))
  /\ (forall y mth d,
        ~ (1 <= y <= 9999 /\ 1 <= mth <= 12
           /\ 1 <= d <= days_in_month y mth)%Z ->
        mk_date y mth d = None)
  /\ (forall m,
        _parse_iso_date m = iso_reading m
        /\ _parse_fr_date m = numeric_reading m
        /\ _parse_fr_long_date m = long_reading m)
  /\ (forall y mth d,
        (1 <= y <= 9999 /\ 1 <= mth <= 12
         /\ 1 <= d <= days_in_month y mth)%Z ->
        mk_date y mth d = Some {| year := y; month := mth; day := d |})
  /\ (forall d,
        valid_date d ->
        (in_window d = true <-> (2000 <= year d <= 2030)%Z)).
Proof.
  split; [|split; [|split; [|split; [|split; [|split; [|split]]]]]].
  - intro d. rewrite extract_date_first_ok. apply first_ok_some.
  - rewrite extract_date_first_ok. apply first_ok_none.
  - intros d H. rewrite extract_date_first_ok in H. apply first_ok_some in H.
    destruct H as [before [after [H [Hw _]]]]. split.
    + apply (parsed_valid texte). rewrite H. apply in_or_app. right. left.
      reflexivity.
    + apply in_window_years. exact Hw.
  - intros m a b va vb Hg Ha Hb. unfold _parse_fr_date. rewrite Hg.
    destruct (two_digits_value a b Ha Hb) as [-> Hr].
    destruct (Z.ltb_spec (10 * va + vb) 100); [reflexivity | lia].
  - intros y mth d. apply mk_date_invalid.
  - intro m. split; [apply parse_iso_reading|].
    split; [apply parse_fr_reading | apply parse_fr_long_reading].
  - intros y mth d. apply mk_date_some.
  - intro d. apply in_window_valid.
Qed.

End WithUnicode.

(** The theorem on the Latin-1 instance and the text "Facture 01/03/24". *)
Lemma extract_date_priority_witness :
  extract_date (U := Latin1) (utf8 "Facture 01/03/24")
  = Some {| year := 2024; month := 3; day := 1 |}.
Proof.
  apply (proj1 (extract_date_priority (U := Latin1) (utf8 "Facture 01/03/24"))).
  exists [], []. vm_compute. repeat split; intros ? [].
Defined.

Example extract_date_iso_first :
  extract_date (U := Latin1) (utf8 "le 15/03/2024, soit 2024-03-16")
  = Some {| year := 2024; month := 3; day := 16 |}.
Proof. vm_compute. reflexivity. Qed.

Example extract_date_skips_invalid :
  extract_date (U := Latin1) (utf8 "le 31/04/2024 puis le 30/04/2024")
  = Some {| year := 2024; month := 4; day := 30 |}.
Proof. vm_compute. reflexivity. Qed.

Example extract_date_outside_window :
  extract_date (U := Latin1) (utf8 "le 12/05/1999") = None.
Proof. vm_compute. reflexivity. Qed.

Example extract_date_long_form :
  extract_date (U := Latin1) (utf8 "Le 3 DÉCEMBRE 2024 nous avons émis")
  = Some {| year := 2024; month := 12; day := 3 |}.
Proof. vm_compute. reflexivity. Qed.

End DateFacts.

(* ================================================================== *)
(** * What a match tells: inversion of the matcher                      *)
(* ================================================================== *)

Module MatchFacts.
Import Py Re Spec PyFacts.

(** A repetition that succeeds took [n] characters of the class, at
    least [lo], and the rest of the pattern succeeded behind them. *)
Lemma rep_inv (A : Type) (p : char -> bool) (k : cont A) (x : A)
  (g : list (nat * str)) (s : str) :
  forall (lo : nat) (hi : option nat) (prev : option char),
    rep p lo hi prev s g k = Some x ->
    exists n prev',
      lo <= n /\ n <= List.length s /\ forallb p (firstn n s) = true
      /\ k prev' (skipn n s) g = Some x.
Proof.
  induction s as [|c s IH]; intros lo hi prev H.
  - cbn [rep] in H. destruct lo; [|discriminate].
    exists 0, prev. repeat split; auto.
  - cbn [rep] in H.
    assert (Stop : match lo with O => k prev (c :: s) g | S _ => None end
                   = Some x ->
                   exists n prev',
                     lo <= n /\ n <= List.length (c :: s)
                     /\ forallb p (firstn n (c :: s)) = true
                     /\ k prev' (skipn n (c :: s)) g = Some x).
    { intro E. destruct lo; [|discriminate]. exists 0, prev.
      repeat split; auto. apply Nat.le_0_l. }
    destruct (p c && hi_open hi) eqn:E; [|exact (Stop H)].
    destruct (rep p (Nat.pred lo) (dec_hi hi) (Some c) s g k) as [r|] eqn:Er;
      [|exact (Stop H)].
    injection H as ->.
    destruct (IH _ _ _ Er) as (n & prev' & Hlo & Hlen & Hall & Hk).
    apply andb_true_iff in E. destruct E as [Hc _].
    exists (S n), prev'. cbn [firstn skipn forallb List.length].
    rewrite Hc, Hall. repeat split; auto; lia.
Qed.

(** A pattern that succeeds handed over to what follows it, and that
    succeeded. *)
Lemma run_inv (A : Type) (r : re) (x : A) :
  forall (k : cont A) (prev : option char) (s : str) (g : list (nat * str)),
    run r prev s g k = Some x ->
    exists prev' s' g', k prev' s' g' = Some x.
Proof.
  induction r as [p | a IHa b IHb | a IHa b IHb | a IHa | p lo hi | n a IHa | w];
    intros k prev s g H; cbn [run] in H.
  - destruct s as [|c s]; [discriminate|].
    destruct (p c); [|discriminate]. eauto.
  - apply IHa in H. destruct H as (p1 & s1 & g1 & H). apply IHb in H. exact H.
  - destruct (run a prev s g k) as [y|] eqn:E.
    + injection H as ->. apply IHa in E. exact E.
    + apply IHb in H. exact H.
  - destruct (run a prev s g k) as [y|] eqn:E.
    + injection H as ->. apply IHa in E. exact E.
    + eauto.
  - apply rep_inv in H. destruct H as (n & prev' & _ & _ & _ & H). eauto.
  - apply IHa in H. destruct H as (p1 & s1 & g1 & H). eauto.
  - destruct (at_boundary w prev s); [|discriminate]. eauto.
Qed.

(** The match a search returns is a match at some position. *)
Lemma search_from_inv (r : re) (m : Match) (s : str) :
  forall prev, search_from r prev s = Some m ->
  exists prev' s', match_here r prev' s' = Some m.
Proof.
  induction s as [|c s IH]; intros prev H; cbn [search_from] in H.
  - destruct (match_here r prev []) as [m'|] eqn:E; [|discriminate].
    injection H as ->. eauto.
  - destruct (match_here r prev (c :: s)) as [m'|] eqn:E.
    + injection H as ->. eauto.
    + apply IH in H. exact H.
Qed.

Lemma consumed_suffix (a s : str) : consumed (a ++ s) s = a.
Proof.
  unfold consumed. rewrite length_app, Nat.add_sub.
  rewrite firstn_app, Nat.sub_diag, firstn_all, firstn_O, app_nil_r.
  reflexivity.
Qed.

Lemma consumed_skipn (n : nat) (s : str) :
  n <= List.length s -> consumed s (skipn n s) = firstn n s.
Proof.
  intro H. unfold consumed. rewrite length_skipn. f_equal. lia.
Qed.

(** In a pattern that ends with a group over a repeated class, the group
    of a match holds characters of the class, as many as the repetition
    asks for at least. *)
Lemma match_last_group (a b : re) (n : nat) (p : char -> bool) (lo : nat)
  (hi : option nat) (prev : option char) (s : str) (m : Match) :
  match_here (Seq a (Seq b (Grp n (Rep p lo hi)))) prev s = Some m ->
  lo <= List.length (group m n) /\ forallb p (group m n) = true.
Proof.
  unfold match_here. cbn [run]. intro H.
  apply run_inv in H. destruct H as (p0 & s0 & g0 & H).
  apply run_inv in H. destruct H as (p1 & s1 & g1 & H).
  apply rep_inv in H. destruct H as (k & p2 & Hlo & Hlen & Hall & H).
  injection H as <-. unfold group. cbn [m_groups group_of].
  rewrite Nat.eqb_refl, (@consumed_skipn k s1 Hlen), length_firstn.
  split; [lia | exact Hall].
Qed.

Lemma lstrip_by_none (p : char -> bool) (s : str) :
  forallb (fun c => negb (p c)) s = true -> lstrip_by p s = s.
Proof.
  destruct s as [|c s]; [reflexivity|]. cbn [forallb lstrip_by].
  intro H. apply andb_true_iff in H. destruct H as [H _].
  apply negb_true_iff in H. rewrite H. reflexivity.
Qed.

(** Stripping a string that holds no character of the class changes
    nothing. *)
Lemma strip_by_none (p : char -> bool) (s : str) :
  forallb (fun c => negb (p c)) s = true -> strip_by p s = s.
Proof.
  intro H. unfold strip_by, rstrip_by. rewrite (lstrip_by_none p s H).
  rewrite lstrip_by_none; [apply rev_involutive|].
  apply forallb_forall. intros x Hx. apply in_rev in Hx.
  rewrite forallb_forall in H. exact (H x Hx).
Qed.

(** A repetition with an upper bound took no more characters than it
    allows. *)
Lemma rep_inv_bounded (A : Type) (p : char -> bool) (k : cont A) (x : A)
  (g : list (nat * str)) (s : str) :
  forall (lo hi : nat) (prev : option char),
    rep p lo (Some hi) prev s g k = Some x ->
    exists n prev',
      lo <= n /\ n <= hi /\ n <= List.length s
      /\ forallb p (firstn n s) = true
      /\ k prev' (skipn n s) g = Some x.
Proof.
  induction s as [|c s IH]; intros lo hi prev H.
  - cbn [rep] in H. destruct lo; [|discriminate].
    exists 0, prev. repeat split; auto. apply Nat.le_0_l.
  - cbn [rep] in H.
    assert (Stop : match lo with O => k prev (c :: s) g | S _ => None end
                   = Some x ->
                   exists n prev',
                     lo <= n /\ n <= hi /\ n <= List.length (c :: s)
                     /\ forallb p (firstn n (c :: s)) = true
                     /\ k prev' (skipn n (c :: s)) g = Some x).
    { intro E. destruct lo; [|discriminate]. exists 0, prev.
      repeat split; auto; apply Nat.le_0_l. }
    destruct (p c && hi_open (Some hi)) eqn:E; [|exact (Stop H)].
    destruct (rep p (Nat.pred lo) (dec_hi (Some hi)) (Some c) s g k)
      as [r|] eqn:Er; [|exact (Stop H)].
    injection H as ->. cbn [dec_hi] in Er.
    destruct (IH _ _ _ Er) as (n & prev' & Hlo & Hhi & Hlen & Hall & Hk).
    apply andb_true_iff in E. destruct E as [Hc Hopen].
    destruct hi as [|hi]; [discriminate Hopen|]. cbn [Nat.pred] in Hhi.
    exists (S n), prev'. cbn [firstn skipn forallb List.length].
    rewrite Hc, Hall. repeat split; auto; lia.
Qed.

(** A pattern without group hands the groups over as it received
    them. *)
Lemma run_groupless (A : Type) (r : re) (x : A) :
  groupless r = true ->
  forall (k : cont A) (prev : option char) (s : str) (g : list (nat * str)),
    run r prev s g k = Some x ->
    exists prev' s', k prev' s' g = Some x.
Proof.
  induction r as [p | a IHa b IHb | a IHa b IHb | a IHa | p lo hi | n a IHa | w];
    cbn [groupless]; intros Hg k prev s g H; cbn [run] in H.
  - destruct s as [|c s]; [discriminate|].
    destruct (p c); [|discriminate]. eauto.
  - apply andb_true_iff in Hg. destruct Hg as [Ha Hb].
    apply (IHa Ha) in H. destruct H as (p1 & s1 & H).
    apply (IHb Hb) in H. exact H.
  - apply andb_true_iff in Hg. destruct Hg as [Ha Hb].
    destruct (run a prev s g k) as [y|] eqn:E.
    + injection H as ->. apply (IHa Ha) in E. exact E.
    + apply (IHb Hb) in H. exact H.
  - destruct (run a prev s g k) as [y|] eqn:E.
    + injection H as ->. apply (IHa Hg) in E. exact E.
    + eauto.
  - apply rep_inv in H. destruct H as (n & prev' & _ & _ & _ & H). eauto.
  - discriminate.
  - destruct (at_boundary w prev s); [|discriminate]. eauto.
Qed.

(** Every match of [finditer] is a match at some position. *)
Lemma finditer_from_inv (r : re) (m : Match) (s : str) :
  forall prev skip, In m (finditer_from r prev skip s) ->
  exists prev' s', match_here r prev' s' = Some m.
Proof.
  induction s as [|c s IH]; intros prev skip H.
  - destruct skip as [|n]; cbn [finditer_from] in H; [|contradiction].
    destruct (match_here r prev []) as [m'|] eqn:E; [|contradiction].
    destruct H as [<- | []]. eauto.
  - destruct skip as [|n]; cbn [finditer_from] in H.
    + destruct (match_here r prev (c :: s)) as [m'|] eqn:E.
      * destruct H as [<- | H]; [eauto | exact (IH _ _ H)].
      * exact (IH _ _ H).
    + exact (IH _ _ H).
Qed.

End MatchFacts.

(* ================================================================== *)
(** * Properties of the amount extraction                               *)
(* ================================================================== *)

Module AmountFacts.
Import Py Re Models Extract Spec PyFacts MatchFacts.

Lemma replace_one_char (s : str) (x : char) (new : str) :
  replace s [x] new = flat_map (fun c => if char_eqb x c then new else [c]) s.
Proof.
  unfold replace. induction s as [|c s IH]; [reflexivity|].
  cbn [replace_from flat_map startswith List.length Nat.pred].
  rewrite startswith_nil, andb_true_r.
  destruct (char_eqb x c); rewrite IH; reflexivity.
Qed.

Section WithUnicode.
Context {U : Unicode}.

Lemma normalize_amount_spec (m : Match) :
  normalize_amount m = normalized (group m 1).
Proof.
  unfold normalize_amount, normalized.
  change (utf8 " ") with [32%N]. change (utf8 ",") with [44%N].
  change (utf8 ".") with [46%N].
  rewrite !replace_one_char. induction (group m 1) as [|c s IH];
    [reflexivity|].
  cbn [flat_map]. destruct (char_eqb 32%N c) eqn:E1.
  - apply char_eqb_eq in E1. subst c. exact IH.
  - cbn [app flat_map]. rewrite IH. destruct (char_eqb 44%N c); reflexivity.
Qed.

Lemma normalized_clean (s : str) :
  ~ In 32%N (normalized s) /\ ~ In 44%N (normalized s).
Proof.
  unfold normalized. induction s as [|c s [IH1 IH2]]; [split; intros []|].
  cbn [flat_map]. destruct (char_eqb 32%N c) eqn:E1; [split; assumption|].
  destruct (char_eqb 44%N c) eqn:E2; cbn [app In]; split; intros [H|H];
    try contradiction; subst;
    try discriminate;
    rewrite char_eqb_refl in *; discriminate.
Qed.

Lemma first_parseable_some (ms : list Match) (v : float) :
  first_parseable ms = Some v <->
  exists before m after,
    ms = before ++ m :: after /\ parsed_amount m = Some v
    /\ forall m', In m' before -> parsed_amount m' = None.
Proof.
  unfold parsed_amount. induction ms as [|m0 ms IH]; cbn [first_parseable].
  - split; [discriminate|]. intros [[|? ?] [? [? [H _]]]]; discriminate.
  - destruct (py_float (normalize_amount m0)) as [v0|] eqn:E.
    + split.
      * intros [= ->]. exists [], m0, ms. repeat split; auto. intros ? [].
      * intros [before [m [after [H [Hm Hb]]]]]. destruct before as [|b before].
        -- inversion H; subst. congruence.
        -- inversion H; subst. rewrite (Hb b (or_introl eq_refl)) in E.
           discriminate.
    + rewrite IH. split.
      * intros [before [m [after [H [Hm Hb]]]]].
        exists (m0 :: before), m, after. subst ms. repeat split; auto.
        intros m' [<- | Hm']; auto.
      * intros [before [m [after [H [Hm Hb]]]]]. destruct before as [|b before].
        -- inversion H; subst. congruence.
        -- inversion H; subst. exists before, m, after. repeat split; auto.
           intros m' Hm'. apply Hb. right. exact Hm'.
Qed.

Lemma first_parseable_none (ms : list Match) :
  first_parseable ms = None <->
  forall m, In m ms -> parsed_amount m = None.
Proof.
  unfold parsed_amount. induction ms as [|m0 ms IH]; cbn [first_parseable].
  - split; [intros _ ? [] | reflexivity].
  - destruct (py_float (normalize_amount m0)) as [v0|] eqn:E.
    + split; [discriminate|]. intro H.
      rewrite (H m0 (or_introl eq_refl)) in E. discriminate.
    + rewrite IH. split.
      * intros H m [<- | Hm]; auto.
      * intros H m Hm. apply H. right. exact Hm.
Qed.

(** The fallback takes the last parseable match in the order of the
    document. *)
Lemma montant_fallback_last (texte : str) (v : float) :
  montant_fallback texte = Some v <->
  exists before m after,
    finditer MONTANT_FALLBACK texte = before ++ m :: after
    /\ parsed_amount m = Some v
    /\ forall m', In m' after -> parsed_amount m' = None.
Proof.
  unfold montant_fallback. rewrite first_parseable_some. split.
  - intros [b [m [a [H [Hm Hb]]]]]. exists (rev a), m, (rev b).
    repeat split; auto.
    + rewrite <- (rev_involutive (finditer _ _)), H, rev_app_distr.
      cbn [rev]. rewrite <- app_assoc. reflexivity.
    + intros m' Hm'. apply Hb. apply in_rev. exact Hm'.
  - intros [b [m [a [H [Hm Ha]]]]]. exists (rev a), m, (rev b).
    repeat split; auto.
    + rewrite H, rev_app_distr. cbn [rev]. rewrite <- app_assoc. reflexivity.
    + intros m' Hm'. apply Ha. apply in_rev. exact Hm'.
Qed.

Lemma montant_fallback_none (texte : str) :
  montant_fallback texte = None <->
  forall m, In m (finditer MONTANT_FALLBACK texte) -> parsed_amount m = None.
Proof.
  unfold montant_fallback. rewrite first_parseable_none. split.
  - intros H m Hm. apply H. apply in_rev in Hm. exact Hm.
  - intros H m Hm. apply H. apply in_rev. exact Hm.
Qed.

Section Reading.
Hypothesis H : ascii_classes.

Lemma digit_image (c : char) (v : Z) :
  u_decimal c = Some v ->
  float_char c = (48 + Z.to_N v)%N /\ (0 <= v <= 9)%Z.
Proof.
  destruct H as (L1 & L2 & L3). intro E.
  destruct (L3 _ _ E) as [Hv Hs]. split; [|exact Hv].
  unfold float_char. destruct (N.ltb_spec c 127) as [Hc | Hc].
  - apply L1; [lia | exact E].
  - rewrite Hs, E. reflexivity.
Qed.

Lemma digit_ascii (c : char) :
  is_digit c = true -> ascii_digit (float_char c) = true.
Proof.
  unfold is_digit. destruct (u_decimal c) as [v|] eqn:E; [|discriminate].
  intros _. destruct (@digit_image _ _ E) as [-> Hv].
  unfold ascii_digit. apply in_range_spec. lia.
Qed.

Lemma digit_below (c : char) :
  is_digit c = true -> (c < 128)%N -> (48 <= c <= 57)%N.
Proof.
  unfold is_digit. destruct (u_decimal c) as [v|] eqn:E; [|discriminate].
  intros _ Hc. destruct H as (L1 & _ & L3).
  rewrite (L1 _ _ Hc E). destruct (L3 _ _ E) as [Hv _]. lia.
Qed.

(** What [float()] makes of white space that is no digit. *)
Lemma space_image (c : char) :
  u_space c = true -> c <> 32%N ->
  (float_char c = c /\ ((9 <= c <= 13)%N \/ (28 <= c <= 31)%N))
  \/ (float_char c = 32%N /\ (128 <= c)%N).
Proof.
  destruct H as (L1 & L2 & L3). intros Hs Hne.
  destruct (N.ltb_spec c 128) as [Hc | Hc].
  - left. specialize (L2 _ Hc Hs).
    rewrite orb_true_iff, !in_range_spec in L2.
    assert (R : (9 <= c <= 13)%N \/ (28 <= c <= 31)%N) by lia.
    split; [|exact R]. unfold float_char.
    destruct (N.ltb_spec c 127); [reflexivity | lia].
  - right. split; [|exact Hc]. unfold float_char.
    destruct (N.ltb_spec c 127); [lia|]. rewrite Hs. reflexivity.
Qed.

Lemma class_cases (c : char) :
  amount_class c = true -> c <> 32%N ->
  is_digit c = true \/ (is_digit c = false /\ u_space c = true).
Proof.
  unfold amount_class. destruct (is_digit c); [left; reflexivity|].
  cbn [orb]. intros Hs _. right. split; [reflexivity | exact Hs].
Qed.

Lemma class_blank (c : char) :
  amount_class c = true -> c <> 32%N ->
  c_space (float_char c) = float_blank c.
Proof.
  intros Hc Hne. unfold float_blank.
  destruct (@class_cases _ Hc Hne) as [Hd | [Hd Hs]].
  - pose proof (@digit_ascii _ Hd) as Ha. unfold ascii_digit in Ha.
    apply in_range_spec in Ha.
    assert (E1 : c_space (float_char c) = false).
    { unfold c_space. apply orb_false_iff. split.
      - apply not_true_is_false. intro E. apply char_eqb_eq in E. lia.
      - apply not_true_is_false. intro E. apply in_range_spec in E. lia. }
    rewrite E1. destruct (N.ltb_spec c 128) as [Hlt | Hge].
    + pose proof (@digit_below _ Hd Hlt) as Hb. symmetry.
      apply not_true_is_false. intro E. apply in_range_spec in E. lia.
    + unfold is_digit in Hd.
      destruct (u_decimal c) as [v|] eqn:E; [|discriminate].
      destruct H as (_ & _ & L3). destruct (L3 _ _ E) as [_ ->].
      reflexivity.
  - destruct (@space_image _ Hs Hne) as [[-> R] | [-> R]].
    + destruct (N.ltb_spec c 128) as [_ | Hge]; [|lia].
      unfold c_space. destruct (char_eqb c 32%N) eqn:E;
        [apply char_eqb_eq in E; contradiction | reflexivity].
    + destruct (N.ltb_spec c 128) as [Hlt | _]; [lia|].
      rewrite Hs. reflexivity.
Qed.

Lemma class_digit (c : char) :
  amount_class c = true -> c <> 32%N ->
  ascii_digit (float_char c) = is_digit c
  /\ char_eqb (float_char c) 46%N = false /\ c <> 127%N /\ c <> 44%N
  /\ c <> 46%N.
Proof.
  intros Hc Hne. destruct (@class_cases _ Hc Hne) as [Hd | [Hd Hs]].
  - pose proof (@digit_ascii _ Hd) as Ha. rewrite Ha, Hd.
    unfold ascii_digit in Ha. apply in_range_spec in Ha.
    split; [reflexivity|]. split.
    { apply not_true_is_false. intro E. apply char_eqb_eq in E. lia. }
    assert (Hn : (c < 128)%N -> (48 <= c <= 57)%N) by (apply digit_below; exact Hd).
    repeat split; intro E; subst c; lia.
  - rewrite Hd.
    destruct (@space_image _ Hs Hne) as [[E R] | [E R]]; rewrite E.
    + split; [apply not_true_is_false; intro A; apply in_range_spec in A; lia|].
      split; [apply not_true_is_false; intro A; apply char_eqb_eq in A; lia|].
      repeat split; intro A; subst c; lia.
    + split; [reflexivity|]. split; [reflexivity|].
      repeat split; intro A; subst c; lia.
Qed.


Lemma float_text_map (s : str) :
  ~ In 127%N s -> float_text s = map float_char s.
Proof.
  intro Hn. unfold float_text.
  destruct (forallb (fun c => (c <? 128)%N) s) eqn:E; [|reflexivity].
  symmetry. induction s as [|c s IH]; [reflexivity|].
  cbn [forallb] in E. apply andb_true_iff in E. destruct E as [E1 E2].
  cbn [map]. rewrite IH; [|intro A; apply Hn; right; exact A | exact E2].
  f_equal. unfold float_char. apply N.ltb_lt in E1.
  destruct (N.ltb_spec c 127) as [_ | Hc]; [reflexivity|].
  exfalso. apply Hn. left. lia.
Qed.

Lemma digit_class (d : char) :
  is_digit d = true -> amount_class d = true /\ d <> 32%N.
Proof.
  intro Hd. split; [unfold amount_class; rewrite Hd; reflexivity|].
  intro E. pose proof (@digit_below d Hd) as Hb. subst d.
  assert (A : (32 < 128)%N) by lia. specialize (Hb A). lia.
Qed.

Lemma unspaced_class (body : str) :
  forallb amount_class body = true ->
  Forall (fun c => amount_class c = true /\ c <> 32%N) (unspaced body).
Proof.
  intro Hb. apply Forall_forall. intros c Hc. unfold unspaced in Hc.
  apply filter_In in Hc. destruct Hc as [Hin Hne].
  rewrite forallb_forall in Hb. split; [exact (Hb _ Hin)|].
  intro E. subst c. rewrite char_eqb_refl in Hne. discriminate.
Qed.

Lemma normalized_body (body : str) :
  forallb amount_class body = true -> normalized body = unspaced body.
Proof.
  unfold normalized, unspaced. induction body as [|c body IH];
    [reflexivity|].
  cbn [forallb flat_map filter]. intro Hb. apply andb_true_iff in Hb.
  destruct Hb as [Hc Hb]. rewrite (IH Hb).
  destruct (char_eqb 32%N c) eqn:E1; [reflexivity|]. cbn [negb].
  assert (Hne : c <> 32%N).
  { intro A. subst c. rewrite char_eqb_refl in E1. discriminate. }
  destruct (@class_digit c Hc Hne) as (_ & _ & _ & H44 & _).
  destruct (char_eqb 44%N c) eqn:E2;
    [apply char_eqb_eq in E2; congruence | reflexivity].
Qed.

Lemma normalized_digit (d : char) :
  is_digit d = true -> normalized [d] = [d].
Proof.
  intro Hd. destruct (@digit_class _ Hd) as [Hc Hne].
  destruct (@class_digit d Hc Hne) as (_ & _ & _ & H44 & _).
  unfold normalized. cbn [flat_map app].
  destruct (char_eqb 32%N d) eqn:E1;
    [apply char_eqb_eq in E1; congruence|].
  destruct (char_eqb 44%N d) eqn:E2;
    [apply char_eqb_eq in E2; congruence | reflexivity].
Qed.

Lemma normalized_app (a b : str) :
  normalized (a ++ b) = normalized a ++ normalized b.
Proof. unfold normalized. apply flat_map_app. Qed.

Lemma normalized_group (body : str) (sep d1 d2 : char) :
  forallb amount_class body = true ->
  sep = 44%N \/ sep = 46%N ->
  is_digit d1 = true -> is_digit d2 = true ->
  normalized (body ++ [sep; d1; d2]) = unspaced body ++ [46%N; d1; d2].
Proof.
  intros Hb Hsep H1 H2.
  change (body ++ [sep; d1; d2]) with (body ++ [sep] ++ [d1] ++ [d2]).
  rewrite !normalized_app, (@normalized_body _ Hb), (@normalized_digit _ H1),
    (@normalized_digit _ H2).
  destruct Hsep as [-> | ->]; reflexivity.
Qed.

Lemma lstrip_image (fb r : str) :
  Forall (fun c => amount_class c = true /\ c <> 32%N) fb ->
  lstrip_by c_space (map float_char fb ++ 46%N :: r)
  = map float_char (lstrip_by float_blank fb) ++ 46%N :: r.
Proof.
  induction 1 as [|c fb [Hc Hne] Hfb IH]; [reflexivity|].
  cbn [map app lstrip_by]. rewrite (@class_blank c Hc Hne).
  destruct (float_blank c); [exact IH | reflexivity].
Qed.

Lemma lstrip_by_kept (p : char -> bool) (s : str) (x : char) :
  In x (lstrip_by p s) -> In x s.
Proof.
  induction s as [|c s IH]; [intros []|]. cbn [lstrip_by].
  destruct (p c); [intro A; right; exact (IH A) | exact (fun A => A)].
Qed.

Lemma rstrip_by_last (p : char -> bool) (l : str) (x : char) :
  p x = false -> rstrip_by p (l ++ [x]) = l ++ [x].
Proof.
  intro Hx. unfold rstrip_by. rewrite rev_app_distr. cbn [rev app lstrip_by].
  rewrite Hx. cbn [rev]. rewrite rev_involutive. reflexivity.
Qed.

Lemma span_digits_all (a r : str) :
  forallb ascii_digit a = true ->
  match r with [] => True | c :: _ => ascii_digit c = false end ->
  span_digits (a ++ r) = (a, r).
Proof.
  intros Ha Hr. induction a as [|c a IH].
  - destruct r as [|c r]; [reflexivity|]. cbn [app span_digits].
    rewrite Hr. reflexivity.
  - cbn [forallb] in Ha. apply andb_true_iff in Ha. destruct Ha as [Hc Ha].
    cbn [app span_digits]. rewrite Hc, (IH Ha). reflexivity.
Qed.

Lemma digits_image (l : str) :
  forallb is_digit l = true ->
  forallb ascii_digit (map float_char l) = true
  /\ forall acc,
       fold_left (fun acc c => (acc * 10 + (Z.of_N c - 48))%Z)
                 (map float_char l) acc
       = fold_left (fun acc c => match u_decimal c with
                                 | Some v => (acc * 10 + v)%Z
                                 | None => acc
                                 end) l acc.
Proof.
  induction l as [|c l IH]; [split; reflexivity|].
  cbn [forallb]. intro Hl. apply andb_true_iff in Hl. destruct Hl as [Hc Hl].
  destruct (IH Hl) as [IH1 IH2]. split.
  - cbn [map forallb]. rewrite (@digit_ascii _ Hc), IH1. reflexivity.
  - intro acc. cbn [map fold_left]. rewrite IH2. f_equal.
    unfold is_digit in Hc.
    destruct (u_decimal c) as [v|] eqn:E; [|discriminate].
    destruct (@digit_image _ _ E) as [-> Hv]. rewrite N2Z.inj_add, Z2N.id; lia.
Qed.

Lemma first_other (b : str) :
  forallb is_digit b = false ->
  exists a x rest,
    b = a ++ x :: rest /\ forallb is_digit a = true /\ is_digit x = false.
Proof.
  induction b as [|c b IH]; [discriminate|]. cbn [forallb].
  destruct (is_digit c) eqn:E.
  - cbn [andb]. intro Hb. destruct (IH Hb) as (a & x & rest & -> & Ha & Hx).
    exists (c :: a), x, rest. cbn [forallb]. rewrite E, Ha.
    repeat split. exact Hx.
  - intros _. exists [], c, b. repeat split. exact E.
Qed.

(** [float()] on a captured amount is its reading by hand. *)
Lemma py_float_amount (body : str) (sep d1 d2 : char) :
  forallb amount_class body = true ->
  sep = 44%N \/ sep = 46%N ->
  is_digit d1 = true -> is_digit d2 = true ->
  py_float (normalized (body ++ [sep; d1; d2])) = amount_reading body d1 d2.
Proof.
  intros Hb Hsep H1 H2. rewrite (@normalized_group _ _ _ _ Hb Hsep H1 H2).
  pose proof (@unspaced_class _ Hb) as Hfb.
  destruct (@digit_class _ H1) as [Hc1 Hn1].
  destruct (@digit_class _ H2) as [Hc2 Hn2].
  unfold amount_reading. fold (unspaced body).
  set (fb := unspaced body) in *. clearbody fb.
  assert (T : float_text (fb ++ [46%N; d1; d2])
              = map float_char fb
                ++ 46%N :: [float_char d1; float_char d2]).
  { rewrite float_text_map; [rewrite map_app; reflexivity|].
    intro A. apply in_app_or in A. destruct A as [A | A].
    - rewrite Forall_forall in Hfb. destruct (Hfb _ A) as [Hc Hne].
      destruct (@class_digit _ Hc Hne) as (_ & _ & N127 & _). congruence.
    - destruct A as [A | [A | [A | []]]]; [discriminate | |].
      + destruct (@class_digit _ Hc1 Hn1) as (_ & _ & N127 & _). congruence.
      + destruct (@class_digit _ Hc2 Hn2) as (_ & _ & N127 & _). congruence. }
  unfold py_float. rewrite T. unfold strip_by. rewrite (@lstrip_image _ _ Hfb).
  set (b := lstrip_by float_blank fb).
  assert (Hbcls : Forall (fun c => amount_class c = true /\ c <> 32%N) b).
  { apply Forall_forall. intros c Hc. rewrite Forall_forall in Hfb.
    apply Hfb. exact (@lstrip_by_kept _ _ _ Hc). }
  clearbody b.
  pose proof (@digit_ascii _ H1) as A1. pose proof (@digit_ascii _ H2) as A2.
  assert (R : rstrip_by c_space
                (map float_char b ++ [46%N; float_char d1; float_char d2])
              = map float_char b ++ [46%N; float_char d1; float_char d2]).
  { change (map float_char b ++ [46%N; float_char d1; float_char d2])
      with (map float_char b ++ [46%N; float_char d1] ++ [float_char d2]).
    rewrite app_assoc. apply rstrip_by_last.
    unfold ascii_digit in A2. apply in_range_spec in A2.
    unfold c_space. apply orb_false_iff. split; apply not_true_is_false;
      intro E; [apply char_eqb_eq in E | apply in_range_spec in E]; lia. }
  rewrite R.
  destruct (forallb is_digit b) eqn:Eb.
  - destruct (@digits_image _ Eb) as [D1 D2].
    rewrite (@span_digits_all _ _ D1); [|reflexivity].
    change (char_eqb 46%N 46%N) with true. cbv iota.
    cbn [span_digits]. rewrite A1, A2. cbn [span_digits].
    rewrite orb_true_r. cbn [List.length]. f_equal. f_equal.
    unfold digits_value, int_of_digits.
    assert (E12 : forallb is_digit (b ++ [d1; d2]) = true).
    { rewrite forallb_app, Eb. cbn [forallb]. rewrite H1, H2. reflexivity. }
    destruct (@digits_image _ E12) as [_ D3].
    rewrite <- D3, map_app. reflexivity.
  - destruct (@first_other _ Eb) as (a & x & rest & -> & Ha & Hx).
    destruct (@digits_image _ Ha) as [D1 _].
    rewrite map_app, <- app_assoc. cbn [map app].
    assert (Hxc : amount_class x = true /\ x <> 32%N).
    { rewrite Forall_forall in Hbcls. apply Hbcls. apply in_or_app.
      right. left. reflexivity. }
    destruct (@class_digit x (proj1 Hxc) (proj2 Hxc)) as (Ex & E46 & _).
    rewrite Hx in Ex.
    rewrite (@span_digits_all _ _ D1); [|exact Ex].
    rewrite E46. reflexivity.
Qed.

End Reading.

(** The shape of a captured amount: characters of the class, at least
    one, a comma or a period, and two decimal digits. *)
Lemma amount_group (A : Type) (k : cont A) (x : A) (prev : option char)
  (s : str) (g : list (nat * str)) :
  run (Grp 1 amount_re) prev s g k = Some x ->
  exists body sep d1 d2 prev' s',
    amount_shape body sep d1 d2
    /\ k prev' s' ((1, body ++ [sep; d1; d2]) :: g) = Some x.
Proof.
  unfold amount_re. cbn [seqs run]. intro H0.
  apply rep_inv in H0. destruct H0 as (n & p1 & Hlo & Hlen & Hall & H0).
  destruct (skipn n s) as [|c s2] eqn:Es; [discriminate|].
  destruct (one_of (utf8 ",.") c) eqn:Ec; [|discriminate].
  apply rep_inv_bounded in H0.
  destruct H0 as (n2 & p2 & Hlo2 & Hhi2 & Hlen2 & Hall2 & H0).
  assert (n2 = 2) by lia. subst n2.
  destruct s2 as [|d1 [|d2 s3]]; cbn [List.length] in Hlen2; try lia.
  cbn [firstn forallb skipn] in Hall2, H0.
  apply andb_true_iff in Hall2. destruct Hall2 as [Hd1 Hall2].
  apply andb_true_iff in Hall2. destruct Hall2 as [Hd2 _].
  assert (Es' : s = (firstn n s ++ [c; d1; d2]) ++ s3).
  { rewrite <- app_assoc. cbn [app]. rewrite <- Es. symmetry.
    apply firstn_skipn. }
  assert (Hbl : List.length (firstn n s) = n) by (rewrite length_firstn; lia).
  set (body := firstn n s) in *. clearbody body. rewrite Es' in H0. rewrite consumed_suffix in H0.
  exists body, c, d1, d2, p2, s3. split; [|exact H0].
  unfold amount_shape. repeat split.
  - intro E. rewrite E in Hbl. cbn [List.length] in Hbl. lia.
  - exact Hall.
  - unfold one_of in Ec. vm_compute utf8 in Ec. cbn [existsb] in Ec.
    rewrite !orb_true_iff in Ec.
    destruct Ec as [Ec | [Ec | Ec]]; [| |discriminate];
      apply char_eqb_eq in Ec; [left | right]; exact Ec.
  - exact Hd1.
  - exact Hd2.
Qed.

Lemma run_seq_rest (A : Type) (a b : re) (x : A) (k : cont A)
  (prev : option char) (s : str) (g : list (nat * str)) :
  run (Seq a b) prev s g k = Some x ->
  exists prev' s' g', run b prev' s' g' k = Some x.
Proof. cbn [run]. apply run_inv. Qed.

(** A pattern that ends with the amount and patterns without group:
    the first group of a match is the amount. *)
Lemma amount_then (rest : re) (prev : option char) (s s0 : str)
  (g : list (nat * str)) (m : Match) :
  groupless rest = true ->
  run (Seq (Grp 1 amount_re) rest) prev s g
      (fun _ s' g' => Some {| m_groups := g'; m_text := consumed s0 s' |})
  = Some m ->
  exists body sep d1 d2,
    amount_shape body sep d1 d2 /\ group m 1 = body ++ [sep; d1; d2].
Proof.
  intros Hr H0.
  change (run (Grp 1 amount_re) prev s g
            (fun prev' s' g' =>
               run rest prev' s' g'
                 (fun _ s'' g'' =>
                    Some {| m_groups := g''; m_text := consumed s0 s'' |}))
          = Some m) in H0.
  apply amount_group in H0.
  destruct H0 as (body & sep & d1 & d2 & p1 & s1 & Hshape & H0).
  apply (run_groupless _ Hr) in H0. destruct H0 as (p2 & s2 & H0).
  injection H0 as <-. exists body, sep, d1, d2. split; [exact Hshape|].
  reflexivity.
Qed.

Lemma montant_ttc_group (prev : option char) (s : str) (m : Match) :
  match_here MONTANT_TTC prev s = Some m ->
  exists body sep d1 d2,
    amount_shape body sep d1 d2 /\ group m 1 = body ++ [sep; d1; d2].
Proof.
  unfold MONTANT_TTC, match_here. cbn [seqs]. intro H0.
  apply run_seq_rest in H0. destruct H0 as (p1 & s1 & g1 & H0).
  apply run_seq_rest in H0. destruct H0 as (p2 & s2 & g2 & H0).
  apply run_seq_rest in H0. destruct H0 as (p3 & s3 & g3 & H0).
  apply run_seq_rest in H0. destruct H0 as (p4 & s4 & g4 & H0).
  apply amount_then in H0; [exact H0 | reflexivity].
Qed.

Lemma montant_fallback_group (prev : option char) (s : str) (m : Match) :
  match_here MONTANT_FALLBACK prev s = Some m ->
  exists body sep d1 d2,
    amount_shape body sep d1 d2 /\ group m 1 = body ++ [sep; d1; d2].
Proof.
  unfold MONTANT_FALLBACK, match_here. cbn [seqs]. intro H0.
  apply amount_then in H0; [exact H0 | reflexivity].
Qed.

(** Every amount the two patterns capture has the shape. *)
Lemma captured_shape (texte : str) (m : Match) :
  search MONTANT_TTC texte = Some m
  \/ In m (finditer MONTANT_FALLBACK texte) ->
  exists body sep d1 d2,
    amount_shape body sep d1 d2 /\ group m 1 = body ++ [sep; d1; d2].
Proof.
  intros [H0 | H0].
  - apply search_from_inv in H0. destruct H0 as (p & s & H0).
    exact (montant_ttc_group _ _ H0).
  - apply finditer_from_inv in H0. destruct H0 as (p & s & H0).
    exact (montant_fallback_group _ _ H0).
Qed.

(** [float()] on an amount of the shape is its reading by hand. *)
Lemma py_float_shape (body : str) (sep d1 d2 : char) :
  ascii_classes -> amount_shape body sep d1 d2 ->
  py_float (normalized (body ++ [sep; d1; d2])) = amount_reading body d1 d2.
Proof.
  intros Hu (_ & Hb & Hsep & H1 & H2).
  exact (@py_float_amount Hu body sep d1 d2 Hb Hsep H1 H2).
Qed.

(** C6, amended. The amount is the value that follows the first labeled
    total phrase of the text (the leftmost match of the labeled pattern,
    the only one [re.search] returns), read after its spaces are removed
    and its comma is turned into a period; only when there is no labeled
    match, or the first one does not parse, are the currency-marked
    amounts scanned, and then the last parseable one in the order of the
    document is the amount; with neither, the amount is absent.  What is
    captured is digits and white space, a comma or a period, and two
    digits; it is read as the float nearest to the number its digits
    write, in hundredths, when nothing but digits is left once its spaces
    are dropped and the white space [float()] passes over is taken from
    its front, and it does not parse otherwise. *)
Theorem extract_montant_ttc_amended (texte : str) :
  (forall m v,
     search MONTANT_TTC texte = Some m -> parsed_amount m = Some v ->
     extract_montant_ttc texte = Some v)
  /\ (labeled_amount texte = None ->
      (forall v,
         extract_montant_ttc texte = Some v <->
         exists before m after,
           finditer MONTANT_FALLBACK texte = before ++ m :: after
           /\ parsed_amount m = Some v
           /\ forall m', In m' after -> parsed_amount m' = None)
      /\ (extract_montant_ttc texte = None <->
          forall m, In m (finditer MONTANT_FALLBACK texte) ->
                    parsed_amount m = None))
  /\ (forall m,
        parsed_amount m = py_float (normalized (group m 1))
        /\ ~ In 32%N (normalized (group m 1))
        /\ ~ In 44%N (normalized (group m 1)))
  /\ (forall m,
        search MONTANT_TTC texte = Some m
        \/ In m (finditer MONTANT_FALLBACK texte) ->
        exists body sep d1 d2,
          amount_shape body sep d1 d2 /\ group m 1 = body ++ [sep; d1; d2])
  /\ (ascii_classes ->
      forall body sep d1 d2,
        amount_shape body sep d1 d2 ->
        py_float (normalized (body ++ [sep; d1; d2]))
        = amount_reading body d1 d2).
Proof.
  split; [|split; [|split; [|split]]].
  - intros m v Hs Hv. unfold extract_montant_ttc. rewrite Hs.
    unfold parsed_amount in Hv. rewrite Hv. reflexivity.
  - intro Hl.
    assert (E : extract_montant_ttc texte = montant_fallback texte).
    { unfold extract_montant_ttc. unfold labeled_amount in Hl.
      destruct (search MONTANT_TTC texte) as [m|]; [|reflexivity].
      unfold parsed_amount in Hl. rewrite Hl. reflexivity. }
    rewrite E. split.
    + intro v. apply montant_fallback_last.
    + apply montant_fallback_none.
  - intro m. unfold parsed_amount. rewrite normalize_amount_spec.
    split; [reflexivity|]. apply normalized_clean.
  - intros m Hm. exact (captured_shape texte Hm).
  - intros Hu body sep d1 d2 Hshape. exact (py_float_shape Hu Hshape).
Qed.

End WithUnicode.

(** The digits and the white space of Latin-1 are as the reading of
    amounts takes them. *)
Lemma latin1_ascii_classes : ascii_classes (U := Latin1).
Proof.
  unfold ascii_classes. cbn [u_decimal u_space Latin1].
  unfold latin1_decimal, latin1_space. split; [|split].
  - intros c v Hc E. destruct (in_range 48 57 c) eqn:R; [|discriminate].
    apply in_range_spec in R. injection E as <-. lia.
  - intros c Hc E. rewrite !orb_true_iff, !N.eqb_eq in E.
    rewrite orb_true_iff.
    destruct E as [[[E | E] | E] | E]; [left; exact E | right; exact E | lia ..].
  - intros c v E. destruct (in_range 48 57 c) eqn:R; [|discriminate].
    apply in_range_spec in R. injection E as <-. split; [lia|].
    rewrite !orb_false_iff. unfold in_range.
    rewrite !andb_false_iff, !N.leb_gt, !N.eqb_neq. lia.
Qed.

(** "1 234,56" after a label: the group has the shape, and its reading
    by hand is the float nearest to 1234.56; with a tabulation between
    two of its digits it does not parse. *)
Lemma extract_montant_ttc_amended_witness :
  amount_shape (U := Latin1) (utf8 "1 234") 44%N 53%N 54%N
  /\ py_float (U := Latin1) (normalized (utf8 "1 234,56"))
     = amount_reading (U := Latin1) (utf8 "1 234") 53%N 54%N
  /\ amount_reading (U := Latin1) (utf8 "1 234") 53%N 54%N
     = Some 1234.56%float
  /\ amount_reading (U := Latin1) (utf8 "1" ++ [9%N] ++ utf8 "2") 53%N 48%N
     = None.
Proof.
  assert (Hs : amount_shape (U := Latin1) (utf8 "1 234") 44%N 53%N 54%N).
  { unfold amount_shape. repeat split; try reflexivity;
      [discriminate | left; reflexivity]. }
  split; [exact Hs|]. split; [|split; vm_compute; reflexivity].
  exact (proj2 (proj2 (proj2 (proj2
           (@extract_montant_ttc_amended Latin1 [])))) latin1_ascii_classes
           (utf8 "1 234") 44%N 53%N 54%N Hs).
Defined.

Example extract_montant_ttc_labeled :
  extract_montant_ttc (U := Latin1)
    (utf8 "Acompte 10,00 eur - Total TTC : 1 234,56 € - frais 2,00 eur")
  = Some 1234.56%float.
Proof. vm_compute. reflexivity. Qed.

Example extract_montant_ttc_last_marked :
  extract_montant_ttc (U := Latin1)
    (utf8 "Acompte 10,00 eur puis solde 42,00 euros")
  = Some 42%float.
Proof. vm_compute. reflexivity. Qed.

Example extract_montant_ttc_absent :
  extract_montant_ttc (U := Latin1) (utf8 "Aucun montant ici") = None.
Proof. vm_compute. reflexivity. Qed.

(** A text with two labeled phrases: the number after the first one is
    broken by a tabulation and does not parse, the second one is followed
    by 20,00, which parses.  The labeled pattern matches both, yet the
    amount returned is 5.00, the currency-marked one: the later labeled
    match is never consulted. *)
Lemma extract_montant_ttc_later_label_ignored :
  let texte :=
    utf8 "TTC 1" ++ [9%N] ++ utf8 "2,50 puis TTC 20,00 ; acompte 5,00 eur" in
  map (parsed_amount (U := Latin1))
      (finditer (MONTANT_TTC (U := Latin1)) texte)
  = [None; Some 20%float]
  /\ map (parsed_amount (U := Latin1))
         (finditer (MONTANT_FALLBACK (U := Latin1)) texte)
     = [Some 5%float]
  /\ extract_montant_ttc (U := Latin1) texte = Some 5%float.
Proof. vm_compute. repeat split; reflexivity. Qed.

End AmountFacts.

(* ================================================================== *)
(** * Properties of classify.py                                         *)
(* ================================================================== *)

Module ClassifyFacts.
Import Py Models Classify Spec PyFacts.

Lemma percents_in (k : Z) : (0 <= k <= 100)%Z -> In k percents.
Proof.
  intro H. unfold percents. rewrite <- (Z2Nat.id k) by lia.
  apply in_map. apply in_seq. lia.
Qed.

(** On the hundredths from 0 to 100 the nearest floats keep the order and
    stay in [0, 1]. *)
Lemma hundredths_table :
  forallb
    (fun a =>
       (0 <=? PyFloat.hundredths a)%float
       && (PyFloat.hundredths a <=? 1)%float
       && forallb
            (fun b =>
               implb (a <=? b)%Z
                     (PyFloat.hundredths a <=? PyFloat.hundredths b)%float)
            percents)
    percents = true.
Proof. vm_compute. reflexivity. Qed.

Lemma hundredths_bounds (k : Z) :
  (0 <= k <= 100)%Z ->
  ((0 <=? PyFloat.hundredths k) && (PyFloat.hundredths k <=? 1))%float = true.
Proof.
  intro H. pose proof hundredths_table as T. rewrite forallb_forall in T.
  specialize (T k (percents_in H)). apply andb_true_iff in T. tauto.
Qed.

Lemma hundredths_mono (a b : Z) :
  (0 <= a <= b)%Z -> (b <= 100)%Z ->
  (PyFloat.hundredths a <=? PyFloat.hundredths b)%float = true.
Proof.
  intros Ha Hb. pose proof hundredths_table as T. rewrite forallb_forall in T.
  assert (Ia : In a percents) by (apply percents_in; lia).
  assert (Ib : In b percents) by (apply percents_in; lia).
  specialize (T a Ia). apply andb_true_iff in T. destruct T as [_ T].
  rewrite forallb_forall in T. specialize (T b Ib).
  destruct (Z.leb_spec a b); [exact T | lia].
Qed.

Lemma weights_range (e : ExtractedData) : (0 <= weights e <= 100)%Z.
Proof.
  unfold weights, supplier_weight.
  repeat match goal with |- context [if ?b then _ else _] => destruct b end;
    lia.
Qed.

Lemma weights_mono (e e' : ExtractedData) :
  more_signals e e' -> (weights e <= weights e')%Z.
Proof.
  unfold more_signals, weights, supplier_weight.
  intros (H1 & H2 & H3 & H4 & H5 & H6).
  destruct (opt_truthy (fournisseur e)), (opt_truthy (fournisseur e')),
    (opt_truthy (fournisseur_raw e)), (opt_truthy (fournisseur_raw e')),
    (is_some (date_doc e)), (is_some (date_doc e')),
    (type_recognized e), (type_recognized e'),
    (opt_truthy (numero_facture e)), (opt_truthy (numero_facture e')),
    (is_some (montant_ttc e)), (is_some (montant_ttc e'));
    try lia;
    try (specialize (H1 eq_refl); discriminate);
    try (specialize (H3 eq_refl); discriminate);
    try (specialize (H4 eq_refl); discriminate);
    try (specialize (H5 eq_refl); discriminate);
    try (specialize (H6 eq_refl); discriminate);
    try (destruct (H2 eq_refl); discriminate).
Qed.

(** The float sum of the weights, rounded and capped, is the float
    nearest to the exact sum of the weights capped at 1. *)
Lemma compute_confidence_exact (e : ExtractedData) :
  compute_confidence e = PyFloat.hundredths (Z.min 100 (weights e)).
Proof.
  unfold compute_confidence, weights, supplier_weight.
  destruct (opt_truthy (fournisseur e)), (opt_truthy (fournisseur_raw e)),
    (is_some (date_doc e)), (type_recognized e),
    (opt_truthy (numero_facture e)), (is_some (montant_ttc e));
    vm_compute; reflexivity.
Qed.

(** C3. The confidence is the sum of the weights of the signals present
    -- 0.35 for a resolved supplier, else 0.10 for a raw supplier text,
    0.25 for a date, 0.20 for a recognized type, 0.10 for an invoice
    number, 0.10 for an amount -- capped at 1.0 and rounded to two
    decimals; it lies in [0, 1] and does not decrease when more signals
    are present. *)
Theorem compute_confidence_weights (e : ExtractedData) :
  compute_confidence e = PyFloat.hundredths (Z.min 100 (weights e))
  /\ ((0 <=? compute_confidence e)
      && (compute_confidence e <=? 1))%float = true
  /\ (forall e', more_signals e e' ->
        (compute_confidence e <=? compute_confidence e')%float = true).
Proof.
  pose proof (weights_range e) as R.
  split; [apply compute_confidence_exact|split].
  - rewrite compute_confidence_exact. apply hundredths_bounds. lia.
  - intros e' M. rewrite !compute_confidence_exact.
    pose proof (weights_range e'). pose proof (weights_mono M).
    apply hundredths_mono; lia.
Qed.

Example compute_confidence_all_signals :
  compute_confidence sample_extracted = 1%float.
Proof. vm_compute. reflexivity. Qed.

Example compute_confidence_raw_supplier_only :
  compute_confidence
    {| type_document := utf8 "inconnu"; date_doc := None; montant_ttc := None;
       numero_facture := None; fournisseur := None;
       fournisseur_raw := Some (utf8 "EDF SA"); texte_complet := [];
       confidence := 0%float; type_doc_slug := None |}
  = 0.1%float.
Proof. vm_compute. reflexivity. Qed.

End ClassifyFacts.

(* ================================================================== *)
(** * Properties of suppliers.py                                        *)
(* ================================================================== *)

Module SuppliersFacts.
Import Py Models Suppliers Spec PyFacts.

Lemma Qltb_lt (a b : Q) : Qltb a b = true <-> (a < b)%Q.
Proof.
  unfold Qltb. rewrite negb_true_iff. split.
  - intro H. apply Qnot_le_lt. intro Hle. apply Qle_bool_iff in Hle. congruence.
  - intro H. destruct (Qle_bool b a) eqn:E; [|reflexivity].
    apply Qle_bool_iff in E. exfalso. exact (Qlt_not_le _ _ H E).
Qed.

Lemma keep_better_taken (cutoff : Z) (r : Q) (v : str) (best : Q * option str) :
  (inject_Z cutoff <= r)%Q -> (fst best < r)%Q ->
  keep_better cutoff r v best = (r, Some v).
Proof.
  intros H1 H2. unfold keep_better.
  apply Qle_bool_iff in H1. apply Qltb_lt in H2. rewrite H1, H2. reflexivity.
Qed.

Lemma keep_better_left (cutoff : Z) (r : Q) (v : str) (best : Q * option str) :
  ~ (inject_Z cutoff <= r /\ fst best < r)%Q ->
  keep_better cutoff r v best = best.
Proof.
  intro H. unfold keep_better.
  destruct (Qle_bool (inject_Z cutoff) r) eqn:E1; [|reflexivity].
  destruct (Qltb (fst best) r) eqn:E2; [|reflexivity].
  exfalso. apply H. split; [apply Qle_bool_iff | apply Qltb_lt]; assumption.
Qed.

Section WithUnicode.
Context {U : Unicode}.

Lemma score_loop_scored (fz : Fuzz) (cutoff : Z) (raw : str)
  (mapping : list (str * str)) (init : Q * option str) :
  fold_left (score_step fz cutoff raw) mapping init
  = fold_left (keep cutoff) (scored fz raw mapping) init.
Proof.
  revert init. induction mapping as [|[alias name] mapping IH]; intro init;
    [reflexivity|].
  cbn [fold_left scored flat_map app]. rewrite IH. reflexivity.
Qed.

End WithUnicode.

Lemma keep_below (cutoff : Z) (r : Q) (l : list (Q * str))
  (init : Q * option str) :
  (fst init < r)%Q ->
  (forall r' v', In (r', v') l -> (r' < r)%Q) ->
  (fst (fold_left (keep cutoff) l init) < r)%Q.
Proof.
  revert init. induction l as [|[r0 v0] l IH]; intros init Hi Hl; [exact Hi|].
  cbn [fold_left]. apply IH.
  - unfold keep, keep_better. cbn [fst snd].
    destruct (_ && _); [|exact Hi]. cbn [fst].
    apply (Hl r0 v0). left. reflexivity.
  - intros r' v' H. apply (Hl r' v'). right. exact H.
Qed.

Lemma keep_unchanged (cutoff : Z) (l : list (Q * str))
  (best : Q * option str) :
  (forall r' v', In (r', v') l -> (r' <= fst best)%Q) ->
  fold_left (keep cutoff) l best = best.
Proof.
  induction l as [|[r0 v0] l IH]; intro Hl; [reflexivity|].
  cbn [fold_left]. unfold keep at 2. cbn [fst snd].
  rewrite keep_better_left.
  - apply IH. intros r' v' H. apply (Hl r' v'). right. exact H.
  - intros [_ H]. apply (Qlt_not_le _ _ H). apply (Hl r0 v0). left.
    reflexivity.
Qed.

Lemma keep_none (cutoff : Z) (l : list (Q * str)) :
  (forall r v, In (r, v) l -> ~ qualifies cutoff r) ->
  fold_left (keep cutoff) l (inject_Z 0, None) = (inject_Z 0, None).
Proof.
  induction l as [|[r0 v0] l IH]; intro Hl; [reflexivity|].
  cbn [fold_left]. unfold keep at 2. cbn [fst snd].
  rewrite keep_better_left.
  - apply IH. intros r v H. apply (Hl r v). right. exact H.
  - intro H. apply (Hl r0 v0); [left; reflexivity|]. exact H.
Qed.

(** The loop keeps the first of the greatest qualifying scores. *)
Lemma keep_first_max (cutoff : Z) (before after : list (Q * str))
  (r : Q) (v : str) :
  qualifies cutoff r ->
  (forall r' v', In (r', v') before -> (r' < r)%Q) ->
  (forall r' v', In (r', v') after -> (r' <= r)%Q) ->
  fold_left (keep cutoff) (before ++ (r, v) :: after) (inject_Z 0, None)
  = (r, Some v).
Proof.
  intros [Hc Hp] Hb Ha. rewrite fold_left_app. cbn [fold_left].
  assert (Hlt : (fst (fold_left (keep cutoff) before (inject_Z 0, None)) < r)%Q)
    by (apply keep_below; assumption).
  unfold keep at 2. cbn [fst snd]. rewrite keep_better_taken by assumption.
  apply keep_unchanged. exact Ha.
Qed.

Section Resolution.
Context {U : Unicode}.

Lemma containment_loop_first (raw : str) (before after : list (str * str))
  (k v : str) (e : ExtractedData) :
  contains (u_lower raw) (u_lower k) = true ->
  (forall k' v', In (k', v') before ->
                 contains (u_lower raw) (u_lower k') = false) ->
  containment_loop raw (before ++ (k, v) :: after) e = set_fournisseur e v.
Proof.
  intros Hk. induction before as [|[k0 v0] before IH]; intro Hb.
  - cbn [app containment_loop]. rewrite Hk. reflexivity.
  - cbn [app containment_loop]. rewrite (Hb k0 v0 (or_introl eq_refl)).
    apply IH. intros k' v' H. apply (Hb k' v'). right. exact H.
Qed.

Lemma containment_loop_none (raw : str) (items : list (str * str))
  (e : ExtractedData) :
  (forall k v, In (k, v) items -> contains (u_lower raw) (u_lower k) = false) ->
  containment_loop raw items e = e.
Proof.
  induction items as [|[k0 v0] items IH]; intro H; [reflexivity|].
  cbn [containment_loop]. rewrite (H k0 v0 (or_introl eq_refl)).
  apply IH. intros k v Hin. apply (H k v). right. exact Hin.
Qed.

(** What [resolve_fournisseur] does, case by case.  With the scorers the
    name retained is that of the first alias whose score is the greatest
    among those that qualify, and [if best_value:] decides whether it is
    assigned. *)
Lemma resolve_fournisseur_by_case (e : ExtractedData)
  (mapping : list (str * str)) (cutoff : Z) :
  (forall fuzz_mod,
     fournisseur_raw e = None \/ fournisseur_raw e = Some [] \/ mapping = [] ->
     resolve_fournisseur fuzz_mod e mapping cutoff = e)
  /\ (forall raw,
        fournisseur_raw e = Some raw -> raw <> [] -> mapping <> [] ->
        (forall fz,
           (forall before r v after,
              scored fz raw mapping = before ++ (r, v) :: after ->
              qualifies cutoff r ->
              (forall r' v', In (r', v') before -> (r' < r)%Q) ->
              (forall r' v', In (r', v') after -> (r' <= r)%Q) ->
              resolve_fournisseur (Some fz) e mapping cutoff
              = if truthy v then set_fournisseur e v else e)
           /\ ((forall r v, In (r, v) (scored fz raw mapping) ->
                            ~ qualifies cutoff r) ->
               resolve_fournisseur (Some fz) e mapping cutoff = e))
        /\ (forall before k v after,
              mapping = before ++ (k, v) :: after ->
              contains (u_lower raw) (u_lower k) = true ->
              (forall k' v', In (k', v') before ->
                             contains (u_lower raw) (u_lower k') = false) ->
              resolve_fournisseur None e mapping cutoff = set_fournisseur e v)
        /\ ((forall k v, In (k, v) mapping ->
                         contains (u_lower raw) (u_lower k) = false) ->
            resolve_fournisseur None e mapping cutoff = e)).
Proof.
  split.
  - intros fuzz_mod H. unfold resolve_fournisseur.
    destruct H as [-> | [-> | ->]]; [reflexivity | reflexivity |].
    destruct (fournisseur_raw e) as [raw|]; [|reflexivity].
    destruct (negb (truthy raw)); reflexivity.
  - intros raw Hraw Hne Hm.
    assert (E : forall fuzz_mod,
              resolve_fournisseur fuzz_mod e mapping cutoff =
              match fuzz_mod with
              | None => containment_loop raw mapping e
              | Some fz =>
                match snd (fold_left (keep cutoff) (scored fz raw mapping)
                                     (inject_Z 0, None)) with
                | Some best_value =>
                  if truthy best_value then set_fournisseur e best_value else e
                | None => e
                end
              end).
    { intro fuzz_mod. unfold resolve_fournisseur. rewrite Hraw.
      destruct raw as [|c raw]; [congruence|]. cbn [truthy negb].
      destruct mapping as [|m0 mapping]; [congruence|].
      destruct fuzz_mod as [fz|]; [|reflexivity].
      rewrite score_loop_scored. reflexivity. }
    split; [|split].
    + intro fz. split.
      * intros before r v after Hs Hq Hb Ha. rewrite E, Hs.
        rewrite keep_first_max; [reflexivity | assumption ..].
      * intro Hn. rewrite E, keep_none; [reflexivity | assumption].
    + intros before k v after -> Hk Hb. rewrite E.
      apply containment_loop_first; assumption.
    + intro Hn. rewrite E. apply containment_loop_none. exact Hn.
Qed.

(** Supplier resolution.  Without a raw supplier text or without aliases
    nothing changes.  With the scorers, the canonical name assigned is
    that of the first alias, in the order of the mapping and of the two
    scores of each alias, whose score is the greatest among those that
    meet the cutoff (a score of zero never qualifies), when that name is
    not empty; when no score qualifies the data is unchanged.  Without
    the scorers the canonical name of the first alias contained in the
    raw text, case apart, is assigned, and the data is unchanged when no
    alias is contained. *)
Theorem resolve_fournisseur_best (e : ExtractedData)
  (mapping : list (str * str)) (cutoff : Z) :
  (forall fuzz_mod,
     fournisseur_raw e = None \/ fournisseur_raw e = Some [] \/ mapping = [] ->
     resolve_fournisseur fuzz_mod e mapping cutoff = e)
  /\ (forall raw,
        fournisseur_raw e = Some raw -> raw <> [] -> mapping <> [] ->
        (forall fz,
           (forall before r v after,
              scored fz raw mapping = before ++ (r, v) :: after ->
              qualifies cutoff r ->
              (forall r' v', In (r', v') before -> (r' < r)%Q) ->
              (forall r' v', In (r', v') after -> (r' <= r)%Q) ->
              v <> [] ->
              resolve_fournisseur (Some fz) e mapping cutoff
              = set_fournisseur e v)
           /\ ((forall r v, In (r, v) (scored fz raw mapping) ->
                            ~ qualifies cutoff r) ->
               resolve_fournisseur (Some fz) e mapping cutoff = e))
        /\ (forall before k v after,
              mapping = before ++ (k, v) :: after ->
              contains (u_lower raw) (u_lower k) = true ->
              (forall k' v', In (k', v') before ->
                             contains (u_lower raw) (u_lower k') = false) ->
              resolve_fournisseur None e mapping cutoff = set_fournisseur e v)
        /\ ((forall k v, In (k, v) mapping ->
                         contains (u_lower raw) (u_lower k) = false) ->
            resolve_fournisseur None e mapping cutoff = e)).
Proof.
  destruct (resolve_fournisseur_by_case e mapping cutoff) as [H1 H2].
  split; [exact H1|].
  intros raw Hraw Hne Hm. destruct (H2 raw Hraw Hne Hm) as (Hs & Hc & Hn).
  split; [|split; [exact Hc | exact Hn]].
  intro fz. destruct (Hs fz) as [Ha Hb]. split; [|exact Hb].
  intros before r v after E Hq Hbef Haft Hv.
  rewrite (Ha before r v after E Hq Hbef Haft).
  destruct v; [congruence | reflexivity].
Qed.

End Resolution.

(** The alias "EDF SA" scores 100 against the raw text "EDF SA" and is
    resolved to "EDF". *)
Lemma resolve_fournisseur_best_witness :
  resolve_fournisseur (U := Latin1) (Some exact_fuzz) edf_raw
    [(utf8 "Engie", utf8 "ENGIE"); (utf8 "EDF SA", utf8 "EDF")] 70
  = set_fournisseur edf_raw (utf8 "EDF").
Proof.
  apply (proj1 (proj1 (proj2 (resolve_fournisseur_best (U := Latin1) edf_raw
            [(utf8 "Engie", utf8 "ENGIE"); (utf8 "EDF SA", utf8 "EDF")] 70)
          (utf8 "EDF SA") eq_refl ltac:(discriminate) ltac:(discriminate))
          exact_fuzz)
        [(inject_Z 0, utf8 "ENGIE"); (inject_Z 0, utf8 "ENGIE")]
        (inject_Z 100) (utf8 "EDF") [(inject_Z 100, utf8 "EDF")]).
  - vm_compute. reflexivity.
  - split; [apply Qle_bool_iff | apply Qltb_lt]; reflexivity.
  - intros r' v' [H | [H | []]]; inversion H; subst; apply Qltb_lt;
      reflexivity.
  - intros r' v' [H | []]; inversion H; subst; apply Qle_bool_iff;
      reflexivity.
  - discriminate.
Defined.

(** C8. The raw text "EDF SA" and the mapping of the alias "EDF SA" to
    an empty canonical name.  With the scorers the alias scores 100 twice
    and meets the cutoff, yet nothing is assigned: the field stays unset.
    The loop without scorers assigns the canonical name of the same
    alias, empty as it is. *)
Lemma resolve_fournisseur_empty_name :
  scored (U := Latin1) exact_fuzz (utf8 "EDF SA") [(utf8 "EDF SA", [])]
  = [(inject_Z 100, []); (inject_Z 100, [])]
  /\ fournisseur
       (resolve_fournisseur (U := Latin1) (Some exact_fuzz) edf_raw
          [(utf8 "EDF SA", [])] 70) = None
  /\ fournisseur
       (resolve_fournisseur (U := Latin1) None edf_raw
          [(utf8 "EDF SA", [])] 70) = Some [].
Proof. vm_compute. repeat split; reflexivity. Qed.

End SuppliersFacts.

(* ================================================================== *)
(** * Properties of the regular expressions of rules.py                 *)
(* ================================================================== *)

Module ReFacts.
Import Py Re Spec PyFacts MatchFacts.

Lemma match_here_chr (p : char -> bool) (prev : option char) (c : char)
  (s : str) :
  match_here (Chr p) prev (c :: s) =
  if p c then Some {| m_groups := []; m_text := [c] |} else None.
Proof.
  unfold match_here. cbn [run]. destruct (p c); [|reflexivity].
  pose proof (consumed_suffix [c] s) as H. cbn [app] in H. rewrite H.
  reflexivity.
Qed.

(** Substituting a class of characters replaces each of them. *)
Lemma sub_chr (p : char -> bool) (repl s : str) :
  sub (Chr p) repl s = flat_map (fun c => if p c then repl else [c]) s.
Proof.
  unfold sub. generalize (@None char) as prev.
  induction s as [|c s IH]; intro prev; [reflexivity|].
  cbn [sub_from flat_map]. rewrite match_here_chr.
  destruct (p c); cbn [m_text List.length]; rewrite IH; reflexivity.
Qed.

Lemma run_of_split (p : char -> bool) (s : str) :
  s = run_of p s ++ lstrip_by p s.
Proof.
  induction s as [|c s IH]; [reflexivity|]. cbn [run_of lstrip_by].
  destruct (p c); [|reflexivity]. cbn [app]. congruence.
Qed.

Lemma last_cons_default (A : Type) (x d : A) (l : list A) :
  last (x :: l) d = last l x.
Proof.
  revert x d. induction l as [|y l IH]; intros x d; [reflexivity|].
  change (last (x :: y :: l) d) with (last (y :: l) d).
  rewrite (IH y d), (IH y x). reflexivity.
Qed.

(** A greedy repetition without upper bound, before a continuation that
    accepts every position, takes the whole run of the class. *)
Lemma rep_greedy (A : Type) (p : char -> bool) (k : cont A) (lo : nat)
  (prev : option char) (s : str) (g : list (nat * str)) :
  (forall q s' g', k q s' g' <> None) ->
  rep p lo None prev s g k =
  if lo <=? List.length (run_of p s)
  then k (last (map Some (run_of p s)) prev) (lstrip_by p s) g
  else None.
Proof.
  intro Hk. revert lo prev. induction s as [|c s IH]; intros lo prev.
  - cbn [rep run_of lstrip_by List.length map last].
    destruct lo; reflexivity.
  - cbn [rep run_of lstrip_by]. destruct (p c) eqn:E.
    + cbn [hi_open andb dec_hi]. rewrite IH. cbn [List.length map].
      assert (L : last (Some c :: map Some (run_of p s)) prev
                  = last (map Some (run_of p s)) (Some c))
        by apply last_cons_default.
      rewrite L. destruct lo as [|lo]; cbn [Nat.pred Nat.leb].
      * destruct (k _ _ _) eqn:Ek; [reflexivity|]. exfalso. exact (Hk _ _ _ Ek).
      * destruct (lo <=? List.length (run_of p s)); [|reflexivity].
        destruct (k _ _ _) eqn:Ek; [reflexivity|]. exfalso. exact (Hk _ _ _ Ek).
    + cbn [andb List.length]. destruct lo; reflexivity.
Qed.

Lemma match_here_plus (p : char -> bool) (prev : option char) (c : char)
  (s : str) :
  match_here (Rep p 1 None) prev (c :: s) =
  if p c then Some {| m_groups := []; m_text := c :: run_of p s |}
  else None.
Proof.
  unfold match_here. cbn [run]. rewrite rep_greedy by discriminate.
  cbn [run_of lstrip_by]. destruct (p c); [|reflexivity].
  cbn [List.length Nat.leb].
  pose proof (consumed_suffix (c :: run_of p s) (lstrip_by p s)) as H.
  cbn [app] in H. rewrite <- run_of_split in H. rewrite H. reflexivity.
Qed.

(** Substituting the runs of a class leaves a string without the class
    alone, and produces only the replacement and characters outside the
    class. *)
Lemma sub_plus_none (p : char -> bool) (repl s : str) :
  forallb (fun c => negb (p c)) s = true ->
  sub (Rep p 1 None) repl s = s.
Proof.
  unfold sub. generalize (@None char) as prev.
  induction s as [|c s IH]; intros prev H; [reflexivity|].
  cbn [forallb] in H. apply andb_true_iff in H. destruct H as [Hc Hs].
  cbn [sub_from]. rewrite match_here_plus.
  apply negb_true_iff in Hc. rewrite Hc, IH by exact Hs. reflexivity.
Qed.

Lemma sub_plus_chars (p : char -> bool) (repl s : str) (x : char) :
  In x (sub (Rep p 1 None) repl s) ->
  In x repl \/ (In x s /\ p x = false).
Proof.
  unfold sub. intro H0.
  enough (G : forall skip prev,
            In x (sub_from (Rep p 1 None) repl prev skip s) ->
            In x repl \/ (In x s /\ p x = false)) by (eapply G; exact H0).
  clear H0. induction s as [|c s IH]; intros skip prev H; [contradiction|].
  cbn [sub_from] in H. destruct skip as [|skip].
  - rewrite match_here_plus in H. destruct (p c) eqn:E.
    + cbn [m_text] in H. apply in_app_or in H. destruct H as [H|H];
        [left; exact H|].
      apply IH in H. destruct H as [H|[H1 H2]]; [left; exact H|].
      right. split; [right; exact H1 | exact H2].
    + destruct H as [<-|H]; [right; split; [left; reflexivity | exact E]|].
      apply IH in H. destruct H as [H|[H1 H2]]; [left; exact H|].
      right. split; [right; exact H1 | exact H2].
  - apply IH in H. destruct H as [H|[H1 H2]]; [left; exact H|].
    right. split; [right; exact H1 | exact H2].
Qed.

End ReFacts.

(* ================================================================== *)
(** * Properties of slugify                                             *)
(* ================================================================== *)

Module SlugFacts.
Import Py Re Models Rules Spec PyFacts ReFacts.

Lemma lstrip_by_in (p : char -> bool) (s : str) (x : char) :
  In x (lstrip_by p s) -> In x s.
Proof.
  induction s as [|c s IH]; [intros []|]. cbn [lstrip_by].
  destruct (p c); [|exact (fun H => H)]. intro H. right. apply IH. exact H.
Qed.

Lemma lstrip_by_idem (p : char -> bool) (s : str) :
  lstrip_by p (lstrip_by p s) = lstrip_by p s.
Proof.
  induction s as [|c s IH]; [reflexivity|]. cbn [lstrip_by].
  destruct (p c) eqn:E; [exact IH|]. cbn [lstrip_by]. rewrite E. reflexivity.
Qed.

Lemma lstrip_by_app (p : char -> bool) (a b : str) :
  a <> [] -> lstrip_by p a = a -> lstrip_by p (a ++ b) = a ++ b.
Proof.
  destruct a as [|c a]; [congruence|]. intros _. cbn [lstrip_by app].
  destruct (p c); [|reflexivity].
  intro H. exfalso.
  assert (L : forall s, List.length (lstrip_by p s) <= List.length s).
  { induction s as [|x s IH]; [apply le_n|]. cbn [lstrip_by].
    destruct (p x); cbn [List.length]; [apply le_S; exact IH | apply le_n]. }
  specialize (L a). rewrite H in L. cbn [List.length] in L. lia.
Qed.

Lemma lstrip_by_suffix (p : char -> bool) (s : str) :
  exists a, s = a ++ lstrip_by p s.
Proof. exists (run_of p s). apply run_of_split. Qed.

Lemma strip_by_stripped (p : char -> bool) (s : str) :
  stripped p (strip_by p s).
Proof.
  unfold stripped, strip_by, rstrip_by.
  set (a := lstrip_by p s). set (b := lstrip_by p (rev a)). split.
  - destruct (lstrip_by_suffix p (rev a)) as [x Hx]. fold b in Hx.
    assert (Ha : a = rev b ++ rev x).
    { rewrite <- (rev_involutive a), Hx, rev_app_distr. reflexivity. }
    destruct b as [|c b'] eqn:Eb; [reflexivity|].
    assert (Hne : rev (c :: b') <> []).
    { intro H. apply (f_equal (@rev char)) in H. rewrite rev_involutive in H.
      discriminate. }
    assert (Hl : lstrip_by p a = a) by apply lstrip_by_idem.
    rewrite Ha in Hl.
    destruct (rev (c :: b')) as [|y r] eqn:Er; [congruence|].
    cbn [app lstrip_by] in Hl |- *. destruct (p y); [|reflexivity].
    exfalso.
    assert (L : forall s, List.length (lstrip_by p s) <= List.length s).
    { induction s0 as [|z s0 IH]; [apply le_n|]. cbn [lstrip_by].
      destruct (p z); cbn [List.length]; [apply le_S; exact IH | apply le_n]. }
    specialize (L (r ++ rev x)). rewrite Hl in L. cbn [List.length] in L. lia.
  - rewrite rev_involutive. apply lstrip_by_idem.
Qed.

Lemma strip_by_fixed (p : char -> bool) (s : str) :
  stripped p s -> strip_by p s = s.
Proof.
  intros [H1 H2]. unfold strip_by, rstrip_by. rewrite H1, H2.
  apply rev_involutive.
Qed.

Lemma strip_by_in (p : char -> bool) (s : str) (x : char) :
  In x (strip_by p s) -> In x s.
Proof.
  unfold strip_by, rstrip_by. intro H. apply in_rev in H.
  apply lstrip_by_in in H. apply in_rev in H. apply lstrip_by_in in H.
  exact H.
Qed.

Lemma lstrip_by_firstn (p : char -> bool) (s : str) (n : nat) :
  lstrip_by p s = s -> lstrip_by p (firstn n s) = firstn n s.
Proof.
  destruct s as [|c s]; [rewrite firstn_nil; reflexivity|].
  destruct n as [|n]; [reflexivity|]. cbn [firstn lstrip_by].
  destruct (p c); [|reflexivity]. intro H. exfalso.
  assert (L : forall s, List.length (lstrip_by p s) <= List.length s).
  { induction s0 as [|z s0 IH]; [apply le_n|]. cbn [lstrip_by].
    destruct (p z); cbn [List.length]; [apply le_S; exact IH | apply le_n]. }
  specialize (L s). rewrite H in L. cbn [List.length] in L. lia.
Qed.

Lemma firstn_Forall (A : Type) (P : A -> Prop) (n : nat) (l : list A) :
  Forall P l -> Forall P (firstn n l).
Proof.
  intro H. revert n. induction H as [|x l Hx Hl IH]; intro n.
  - rewrite firstn_nil. constructor.
  - destruct n; [constructor|]. cbn [firstn]. constructor; [exact Hx|apply IH].
Qed.

Section WithUnicode.
Context {U : Unicode} {L : UnicodeLaws U}.

Lemma underscore_slug_char : slug_char 95%N.
Proof.
  unfold slug_char, is_word. rewrite underscore_space, underscore_Mn,
    underscore_decomp, underscore_ccc. rewrite orb_true_r. repeat split.
Qed.

Lemma is_word_starter (c : char) : is_word c = true -> u_ccc c = 0.
Proof.
  unfold is_word. rewrite orb_true_iff, char_eqb_eq. intros [H | ->].
  - apply alnum_starter. exact H.
  - apply underscore_ccc.
Qed.

Lemma reorder_insert_in (c x : char) (acc : str) :
  In x (reorder_insert c acc) -> x = c \/ In x acc.
Proof.
  induction acc as [|a acc IH]; cbn [reorder_insert].
  - intros [<- | []]. left. reflexivity.
  - destruct (_ && _).
    + intros [<- | H]; [right; left; reflexivity|].
      destruct (IH H) as [-> | H']; [left; reflexivity | right; right; exact H'].
    + intros [<- | H]; [left; reflexivity | right; exact H].
Qed.

Lemma canonical_order_in (s : str) (x : char) :
  In x (canonical_order s) -> In x s.
Proof.
  unfold canonical_order. intro H. apply in_rev in H.
  enough (G : forall acc, In x (fold_left (fun acc c => reorder_insert c acc) s acc)
                          -> In x s \/ In x acc).
  { destruct (G [] H) as [G1 | []]. exact G1. }
  clear H. induction s as [|c s IH]; intros acc H; [right; exact H|].
  cbn [fold_left] in H. destruct (IH _ H) as [H1 | H1]; [left; right; exact H1|].
  destruct (reorder_insert_in _ _ _ H1) as [-> | H2];
    [left; left; reflexivity | right; exact H2].
Qed.

Lemma canonical_order_starters (s : str) :
  Forall (fun c => u_ccc c = 0) s -> canonical_order s = s.
Proof.
  unfold canonical_order. intro H.
  enough (G : forall acc, fold_left (fun acc c => reorder_insert c acc) s acc
                          = rev s ++ acc).
  { rewrite G, app_nil_r. apply rev_involutive. }
  induction H as [|c s Hc Hs IH]; intro acc; [reflexivity|].
  cbn [fold_left rev]. rewrite IH, <- app_assoc. cbn [app]. f_equal.
  destruct acc as [|a acc]; cbn [reorder_insert]; [reflexivity|].
  rewrite Hc. reflexivity.
Qed.

Lemma nfd_stable_chars (s : str) (x : char) :
  In x (nfd s) -> u_decomp x = [x].
Proof.
  unfold nfd. intro H. apply canonical_order_in in H.
  apply in_flat_map in H. destruct H as [c [_ H]].
  exact (decomp_stable c x H).
Qed.

Lemma nfd_fixed (s : str) : Forall slug_char s -> nfd s = s.
Proof.
  intro H. unfold nfd.
  assert (E : flat_map u_decomp s = s).
  { induction H as [|c s Hc Hs IH]; [reflexivity|].
    cbn [flat_map]. destruct Hc as (_ & _ & _ & _ & -> & _).
    cbn [app]. congruence. }
  rewrite E. apply canonical_order_starters.
  apply Forall_impl with (2 := H). intros c Hc. apply Hc.
Qed.

Lemma slugify_body (value : str) (max_length : Z) :
  slugify value max_length =
  if negb (truthy value) then []
  else if (max_length =? 0)%Z then slug_body value
       else slice_to (slug_body value) max_length.
Proof. reflexivity. Qed.

Lemma slug_body_chars (value : str) : Forall slug_char (slug_body value).
Proof.
  apply Forall_forall. intros x Hx. unfold slug_body, strip_chars in Hx.
  apply strip_by_in in Hx. unfold dashes_spaces_re in Hx.
  apply sub_plus_chars in Hx. destruct Hx as [Hx | [Hx Hp]].
  - destruct Hx as [<- | []]. apply underscore_slug_char.
  - unfold special_re in Hx. rewrite sub_chr in Hx.
    apply in_flat_map in Hx. destruct Hx as [c [Hc Hx]].
    apply filter_In in Hc. destruct Hc as [Hc HMn].
    apply nfd_stable_chars in Hc. apply negb_true_iff in HMn.
    apply orb_false_iff in Hp. destruct Hp as [Hd Hs].
    destruct (negb (is_word c || space c || is_char 45%N c)) eqn:E.
    + destruct Hx as [<- | []]. unfold space in Hs.
      rewrite space_is_space in Hs. discriminate.
    + destruct Hx as [<- | []]. apply negb_false_iff in E.
      unfold space, is_char in *.
      rewrite Hs, orb_false_r in E.
      assert (Hd' : char_eqb 45%N c = false).
      { destruct (char_eqb 45%N c) eqn:E'; [|reflexivity].
        apply char_eqb_eq in E'. subst c. rewrite char_eqb_refl in Hd.
        discriminate. }
      rewrite Hd, orb_false_r in E.
      repeat split; auto. apply is_word_starter. exact E.
Qed.

Lemma slug_body_stripped (value : str) :
  stripped (fun c => existsb (char_eqb c) (utf8 "_")) (slug_body value).
Proof. unfold slug_body, strip_chars. apply strip_by_stripped. Qed.

(** A non-empty string of slug characters without an underscore at either
    end goes through the body of [slugify] unchanged. *)
Lemma slug_body_fixed (t : str) :
  Forall slug_char t ->
  stripped (fun c => existsb (char_eqb c) (utf8 "_")) t ->
  slug_body t = t.
Proof.
  intros Hc Hs. unfold slug_body. rewrite (nfd_fixed Hc).
  assert (E1 : filter (fun c => negb (u_Mn c)) t = t).
  { apply forallb_filter_id. apply forallb_forall. intros x Hx.
    rewrite Forall_forall in Hc. destruct (Hc x Hx) as (_ & _ & _ & -> & _).
    reflexivity. }
  rewrite E1.
  assert (E2 : sub special_re (utf8 " ") t = t).
  { unfold special_re. rewrite sub_chr.
    clear Hs E1. induction Hc as [|c t Hc Ht IH]; [reflexivity|].
    cbn [flat_map]. destruct Hc as (-> & _). cbn [orb negb app]. congruence. }
  rewrite E2.
  assert (E3 : sub dashes_spaces_re (utf8 "_") t = t).
  { unfold dashes_spaces_re. apply sub_plus_none. apply forallb_forall.
    intros x Hx. rewrite Forall_forall in Hc.
    destruct (Hc x Hx) as (_ & H1 & H2 & _).
    unfold is_char, space. rewrite H1, orb_false_r.
    destruct (char_eqb x 45%N) eqn:E; [|reflexivity].
    apply char_eqb_eq in E. subst x. rewrite char_eqb_refl in H2.
    discriminate. }
  rewrite E3. apply strip_by_fixed. exact Hs.
Qed.

Lemma endswith_underscore (t : str) :
  endswith t (utf8 "_") = false ->
  lstrip_by (fun c => existsb (char_eqb c) (utf8 "_")) (rev t) = rev t.
Proof.
  unfold endswith. change (rev (utf8 "_")) with [95%N].
  destruct (rev t) as [|c r]; [reflexivity|].
  cbn [startswith lstrip_by]. change (utf8 "_") with [95%N].
  cbn [existsb]. rewrite startswith_nil, andb_true_r, orb_false_r.
  intro H. destruct (char_eqb c 95%N) eqn:E; [|reflexivity].
  apply char_eqb_eq in E. subst c. rewrite char_eqb_refl in H. discriminate.
Qed.

(** C7, amended. For a non-negative maximum length, slugifying a slug
    that does not end with an underscore gives the same slug: applying
    [slugify] twice yields the same result as once, unless the
    truncation of the first application cut the slug just after an
    underscore. *)
Theorem slugify_idempotent_amended (value : str) (max_length : Z) :
  (0 <= max_length)%Z ->
  endswith (slugify value max_length) (utf8 "_") = false ->
  slugify (slugify value max_length) max_length = slugify value max_length.
Proof.
  intros Hn. rewrite (slugify_body value).
  destruct (negb (truthy value)); [reflexivity|].
  destruct (Z.eqb_spec max_length 0) as [Hz|Hz].
  - intro He. rewrite slugify_body.
    destruct (negb (truthy (slug_body value))) eqn:Eb.
    + destruct (slug_body value); [reflexivity | discriminate].
    + subst max_length. cbn [Z.eqb]. apply slug_body_fixed.
      * apply slug_body_chars.
      * split; [apply slug_body_stripped | apply endswith_underscore; exact He].
  - unfold slice_to. destruct (Z.leb_spec 0 max_length) as [_|]; [|lia].
    set (t := firstn (Z.to_nat max_length) (slug_body value)). intro He.
    rewrite slugify_body. destruct (negb (truthy t)) eqn:Eb.
    + destruct t; [reflexivity | discriminate].
    + destruct (Z.eqb_spec max_length 0); [contradiction|].
      rewrite slug_body_fixed.
      * unfold slice_to. destruct (Z.leb_spec 0 max_length) as [_|]; [|lia].
        unfold t. rewrite firstn_firstn, Nat.min_id. reflexivity.
      * unfold t. apply firstn_Forall. apply slug_body_chars.
      * split; [|apply endswith_underscore; exact He].
        unfold t. apply lstrip_by_firstn. apply slug_body_stripped.
Qed.

End WithUnicode.

(** The theorem on the Latin-1 instance. *)
Lemma slugify_idempotent_amended_witness :
  slugify (U := Latin1)
    (slugify (U := Latin1) (utf8 "Électricité de France") 80) 80
  = slugify (U := Latin1) (utf8 "Électricité de France") 80.
Proof.
  apply (@slugify_idempotent_amended Latin1 Latin1_laws
           (utf8 "Électricité de France") 80).
  - lia.
  - vm_compute. reflexivity.
Defined.

(** Truncated to three characters, the slug of "ab cd" is "ab_", and the
    slug of "ab_" is "ab": the second application changes the result. *)
Lemma slugify_not_idempotent :
  slugify (U := Latin1) (utf8 "ab cd") 3 = utf8 "ab_"
  /\ slugify (U := Latin1) (slugify (U := Latin1) (utf8 "ab cd") 3) 3
     = utf8 "ab"
  /\ slugify (U := Latin1) (slugify (U := Latin1) (utf8 "ab cd") 3) 3
     <> slugify (U := Latin1) (utf8 "ab cd") 3.
Proof. vm_compute. repeat split. discriminate. Qed.

Example slugify_accents :
  slugify (U := Latin1) (utf8 "Électricité de France") 80
  = utf8 "Electricite_de_France".
Proof. vm_compute. reflexivity. Qed.

Example slugify_dashes_spaces :
  slugify (U := Latin1) (utf8 "a--b  c") 80 = utf8 "a_b_c".
Proof. vm_compute. reflexivity. Qed.

End SlugFacts.

(* ================================================================== *)
(** * Properties of watcher.py                                          *)
(* ================================================================== *)

Module PathFacts.
Import Py Pathlib PyFacts.

Lemma parts_eqb_eq (a b : list str) : parts_eqb a b = true <-> a = b.
Proof.
  revert b. induction a as [|x a IH]; intros [|y b]; cbn [parts_eqb]; split;
    intro H; try reflexivity; try discriminate.
  - apply andb_true_iff in H. destruct H as [H1 H2].
    apply str_eqb_eq in H1. apply IH in H2. congruence.
  - inversion H; subst. rewrite str_eqb_refl. apply IH. reflexivity.
Qed.

Lemma path_eqb_eq (p q : Path) : path_eqb p q = true <-> p = q.
Proof.
  unfold path_eqb. rewrite andb_true_iff, Bool.eqb_true_iff, parts_eqb_eq.
  destruct p, q; cbn [absolute parts]. split.
  - intros [-> ->]. reflexivity.
  - intros [= -> ->]. split; reflexivity.
Qed.

Lemma path_eqb_refl (p : Path) : path_eqb p p = true.
Proof. apply path_eqb_eq. reflexivity. Qed.

Lemma path_eqb_neq (p q : Path) : path_eqb p q = false <-> p <> q.
Proof.
  split.
  - intros H E. apply path_eqb_eq in E. congruence.
  - intro H. destruct (path_eqb p q) eqn:E; [|reflexivity].
    apply path_eqb_eq in E. contradiction.
Qed.

Lemma path_eq_dec (p q : Path) : {p = q} + {p <> q}.
Proof.
  destruct (path_eqb p q) eqn:E.
  - left. apply path_eqb_eq. exact E.
  - right. apply path_eqb_neq. exact E.
Qed.

End PathFacts.

Module WatcherFacts.
Import Py Pathlib Watcher Spec PyFacts PathFacts.

Lemma pending_get_set_same d p v : pending_get (pending_set d p v) p = Some v.
Proof.
  induction d as [|[q w] d IH]; cbn [pending_set pending_get].
  - rewrite path_eqb_refl. reflexivity.
  - destruct (path_eqb q p) eqn:E; cbn [pending_get]; rewrite E;
      [reflexivity | exact IH].
Qed.

Lemma pending_get_set_other d p q v :
  q <> p -> pending_get (pending_set d q v) p = pending_get d p.
Proof.
  intro H. induction d as [|[r w] d IH]; cbn [pending_set pending_get].
  - apply path_eqb_neq in H. rewrite H. reflexivity.
  - destruct (path_eqb r q) eqn:E; cbn [pending_get].
    + apply path_eqb_eq in E. subst r. apply path_eqb_neq in H. rewrite H.
      reflexivity.
    + rewrite IH. reflexivity.
Qed.

Lemma tracked_set d p v :
  In p (tracked d) -> tracked (pending_set d p v) = tracked d.
Proof.
  unfold tracked. induction d as [|[q w] d IH]; [intros []|].
  cbn [pending_set map fst]. destruct (path_eqb q p) eqn:E.
  - reflexivity.
  - intros [H | H]; [subst q; rewrite path_eqb_refl in E; discriminate|].
    cbn [map fst]. rewrite IH by exact H. reflexivity.
Qed.

Lemma pending_get_pop d p q :
  pending_get (pending_pop d q) p =
  if path_eqb q p then None else pending_get d p.
Proof.
  induction d as [|[r w] d IH]; cbn [pending_pop filter pending_get fst].
  - destruct (path_eqb q p); reflexivity.
  - fold (pending_pop d q). destruct (path_eqb r q) eqn:E; cbn [negb].
    + rewrite IH. apply path_eqb_eq in E. subst r.
      destruct (path_eqb q p); reflexivity.
    + cbn [pending_get]. rewrite IH. destruct (path_eqb r p) eqn:E2;
        [|reflexivity].
      apply path_eqb_eq in E2. subst r.
      assert (E3 : path_eqb q p = false).
      { apply path_eqb_neq. apply path_eqb_neq in E. congruence. }
      rewrite E3. reflexivity.
Qed.

Lemma pending_get_pops (rm : list Path) d p :
  pending_get (fold_left pending_pop rm d) p =
  if existsb (fun q => path_eqb q p) rm then None else pending_get d p.
Proof.
  revert d. induction rm as [|q rm IH]; intro d; [reflexivity|].
  cbn [fold_left existsb]. rewrite IH, pending_get_pop.
  destruct (path_eqb q p); [|reflexivity].
  destruct (existsb _ rm); reflexivity.
Qed.

Lemma tracked_pop d q :
  tracked (pending_pop d q) = filter (fun r => negb (path_eqb r q)) (tracked d).
Proof.
  unfold tracked, pending_pop. induction d as [|[r w] d IH]; [reflexivity|].
  cbn [filter map fst]. destruct (negb (path_eqb r q)); cbn [map fst];
    rewrite IH; reflexivity.
Qed.

Lemma tracked_pops (rm : list Path) d :
  NoDup (tracked d) -> NoDup (tracked (fold_left pending_pop rm d)).
Proof.
  revert d. induction rm as [|q rm IH]; intros d H; [exact H|].
  cbn [fold_left]. apply IH. rewrite tracked_pop. apply NoDup_filter. exact H.
Qed.

Lemma pending_get_tracked d p e :
  pending_get d p = Some e -> In p (tracked d).
Proof.
  unfold tracked. induction d as [|[q w] d IH]; [discriminate|].
  cbn [pending_get map fst]. destruct (path_eqb q p) eqn:E.
  - intros _. left. apply path_eqb_eq. exact E.
  - intro H. right. apply IH. exact H.
Qed.

Lemma pending_get_untracked d p :
  ~ In p (tracked d) -> pending_get d p = None.
Proof.
  intro H. destruct (pending_get d p) eqn:E; [|reflexivity].
  apply pending_get_tracked in E. contradiction.
Qed.

Ltac scan_cases :=
  repeat match goal with
  | H : _ \/ _ |- _ => destruct H
  | H : exists _, _ |- _ => destruct H
  | H : _ /\ _ |- _ => destruct H
  | H : In _ (_ ++ _) |- _ => apply in_app_or in H
  | H : In _ [_] |- _ => destruct H as [H | []]
  | H : Some _ = Some _ |- _ => inversion H; subst; clear H
  end.

Ltac scan_close J :=
  try congruence;
  solve [ left; assumption
        | left; apply in_or_app; left; assumption
        | left; apply in_or_app; right; left; reflexivity
        | right; eexists; split;
          [reflexivity | first [exact J | left; exact J | right; exact J]] ].

Section WithUnicode.
Context {U : Unicode}.
Variable fnmatch : str -> str -> bool.

(** The body of the scan, by the verdict on the item. *)
Lemma scan_item_judge (h : StableFileHandler) (t : Tick) (st : Scan)
  (p : Path) (e : Z * float) :
  scan_item h t st (p, e) =
  match judge h t p e with
  | Drop =>
    {| pending := pending st; to_remove := to_remove st ++ [p];
       to_process := to_process st |}
  | Reset size =>
    {| pending := pending_set (pending st) p (size, now t);
       to_remove := to_remove st; to_process := to_process st |}
  | Fire =>
    {| pending := pending st; to_remove := to_remove st ++ [p];
       to_process := to_process st ++ [p] |}
  | Keep => st
  end.
Proof.
  unfold scan_item, judge. destruct e as [last_size last_check].
  cbn [fst snd]. destruct (scan t p); try reflexivity.
  destruct (negb (st_size =? last_size)%Z); [reflexivity|].
  destruct (stability_seconds h <=? now t - last_check)%float; reflexivity.
Qed.

(** The state of the scan after a list of items without repeated path. *)
Lemma scan_fold (h : StableFileHandler) (t : Tick)
  (items : list (Path * (Z * float))) (st : Scan) (p : Path) :
  NoDup (tracked items) ->
  let st' := fold_left (scan_item h t) items st in
  pending_get (pending st') p =
    match pending_get items p with
    | Some e =>
      match judge h t p e with
      | Reset size => Some (size, now t)
      | _ => pending_get (pending st) p
      end
    | None => pending_get (pending st) p
    end
  /\ (In p (to_remove st') <->
      In p (to_remove st)
      \/ exists e, pending_get items p = Some e
                   /\ (judge h t p e = Drop \/ judge h t p e = Fire))
  /\ (In p (to_process st') <->
      In p (to_process st)
      \/ exists e, pending_get items p = Some e /\ judge h t p e = Fire).
Proof.
  revert st. induction items as [|[q e0] items IH]; intros st Hnd.
  - cbn [fold_left pending_get]. repeat split; auto.
    + intros [H | [e [H _]]]; [exact H | discriminate].
    + intros [H | [e [H _]]]; [exact H | discriminate].
  - cbn [tracked map fst] in Hnd. apply NoDup_cons_iff in Hnd.
    destruct Hnd as [Hq Hnd]. cbn [fold_left].
    specialize (IH (scan_item h t st (q, e0)) Hnd). cbn zeta in IH |- *.
    destruct IH as (IH1 & IH2 & IH3).
    rewrite IH1, IH2, IH3. clear IH1 IH2 IH3.
    cbn [pending_get]. destruct (path_eqb q p) eqn:E.
    + apply path_eqb_eq in E. subst q.
      rewrite (pending_get_untracked _ _ Hq).
      rewrite scan_item_judge.
      destruct (judge h t p e0) eqn:J; cbn [pending to_remove to_process];
        (split; [reflexivity || apply pending_get_set_same|]);
        split; split; intro H; scan_cases; scan_close J.
    + assert (Hne : q <> p) by (apply path_eqb_neq; exact E).
      assert (Hin : forall l, In p (l ++ [q]) <-> In p l).
      { intro l. rewrite in_app_iff. cbn [In]. intuition congruence. }
      rewrite scan_item_judge.
      destruct (judge h t q e0); cbn [pending to_remove to_process];
        rewrite ?Hin, ?(pending_get_set_other _ _ Hne); repeat split; auto.
Qed.


Lemma tracked_scan_fold (h : StableFileHandler) (t : Tick)
  (items : list (Path * (Z * float))) (st : Scan) :
  (forall q, In q (tracked items) -> In q (tracked (pending st))) ->
  tracked (pending (fold_left (scan_item h t) items st)) = tracked (pending st).
Proof.
  revert st. induction items as [|[q e0] items IH]; intros st H; [reflexivity|].
  cbn [fold_left].
  assert (E : tracked (pending (scan_item h t st (q, e0))) = tracked (pending st)).
  { rewrite scan_item_judge. destruct (judge h t q e0); cbn [pending];
      try reflexivity.
    apply tracked_set. apply H. left. reflexivity. }
  rewrite IH; [exact E|]. intros r Hr. rewrite E. apply H. right. exact Hr.
Qed.

Lemma existsb_path_in (l : list Path) (p : Path) :
  existsb (fun q => path_eqb q p) l = true <-> In p l.
Proof.
  rewrite existsb_exists. split.
  - intros [q [H E]]. apply path_eqb_eq in E. subst q. exact H.
  - intro H. exists p. split; [exact H | apply path_eqb_refl].
Qed.

(** What a check leaves of the entry of a path. *)
Lemma check_pending_entry (h : StableFileHandler) (t : Tick) (p : Path) :
  NoDup (tracked (_pending h)) ->
  pending_get (_pending (fst (_check_pending fnmatch h t))) p =
  match pending_get (_pending h) p with
  | None => None
  | Some e =>
    match judge h t p e with
    | Drop => None
    | Fire => None
    | Reset size => Some (size, now t)
    | Keep => Some e
    end
  end.
Proof.
  intro Hnd. unfold _check_pending. cbn [fst with_pending _pending].
  rewrite pending_get_pops.
  destruct (scan_fold h t (_pending h)
              {| pending := _pending h; to_remove := []; to_process := [] |}
              p Hnd) as (F1 & F2 & _).
  cbn zeta in F1, F2. cbn [pending to_remove] in F1, F2. rewrite F1.
  set (rm := to_remove _) in *.
  destruct (existsb (fun q => path_eqb q p) rm) eqn:E.
  - apply existsb_path_in in E. apply F2 in E.
    destruct E as [[] | [e [He [J | J]]]]; rewrite He, J; reflexivity.
  - destruct (pending_get (_pending h) p) as [e|] eqn:He; [|reflexivity].
    destruct (judge h t p e) eqn:J; try reflexivity.
    + exfalso. assert (In p rm) by (apply F2; right; eauto).
      apply existsb_path_in in H. congruence.
    + exfalso. assert (In p rm) by (apply F2; right; eauto).
      apply existsb_path_in in H. congruence.
Qed.

(** The files a check hands over. *)
Lemma check_pending_called (h : StableFileHandler) (t : Tick) (p : Path) :
  NoDup (tracked (_pending h)) ->
  In p (snd (_check_pending fnmatch h t)) <->
  exists e, pending_get (_pending h) p = Some e /\ judge h t p e = Fire
            /\ at_dispatch t p <> Missing
            /\ _should_ignore fnmatch h (at_dispatch t) p = false.
Proof.
  intro Hnd. unfold _check_pending. cbn [snd]. unfold dispatched_of.
  rewrite filter_In.
  destruct (scan_fold h t (_pending h)
              {| pending := _pending h; to_remove := []; to_process := [] |}
              p Hnd) as (_ & _ & F3).
  cbn zeta in F3. cbn [to_process] in F3. rewrite F3. split.
  - intros [[[] | [e [He J]]] Hc]. exists e. repeat split; auto.
    + intro Hm. rewrite Hm in Hc. discriminate.
    + destruct (at_dispatch t p); [discriminate| |];
        apply negb_true_iff in Hc; exact Hc.
  - intros [e (He & J & Hm & Hi)]. split; [right; eauto|].
    destruct (at_dispatch t p) eqn:Ea; [congruence| |]; rewrite Hi;
      reflexivity.
Qed.

Lemma check_pending_nodup (h : StableFileHandler) (t : Tick) :
  NoDup (tracked (_pending h)) ->
  NoDup (tracked (_pending (fst (_check_pending fnmatch h t)))).
Proof.
  intro Hnd. unfold _check_pending. cbn [fst with_pending _pending].
  apply tracked_pops. rewrite tracked_scan_fold; [exact Hnd|].
  intros q Hq. exact Hq.
Qed.







End WithUnicode.


(** The file grows at time 2, is found unchanged at times 4 and 6, and is
    handed over at time 7.5, once 5 seconds have passed since time 2. *)
Example run_ticks_restarted_window :
  snd (run_ticks (U := Latin1) fnmatch_tmp sample_handler
         [tick_at 2 120; tick_at 4 120; tick_at 6 120; tick_at 7.5 120])
  = [[]; []; []; [inbox_file]].
Proof. vm_compute. reflexivity. Qed.

Example run_ticks_undisturbed :
  snd (run_ticks (U := Latin1) fnmatch_tmp sample_handler
         [tick_at 2 100; tick_at 5 100; tick_at 6 100])
  = [[]; [inbox_file]; []].
Proof. vm_compute. reflexivity. Qed.

End WatcherFacts.

(* ================================================================== *)
(** * Properties of mover.py                                            *)
(* ================================================================== *)

Module NameFacts.
Import Py Pathlib Spec PyFacts PathFacts.

Lemma N_of_ascii_inj (a b : ascii) : N_of_ascii a = N_of_ascii b -> a = b.
Proof.
  intro H. rewrite <- (ascii_N_embedding a), <- (ascii_N_embedding b), H.
  reflexivity.
Qed.

Lemma map_inj (A B : Type) (f : A -> B) :
  (forall x y, f x = f y -> x = y) ->
  forall l l', map f l = map f l' -> l = l'.
Proof.
  intros Hf l. induction l as [|x l IH]; intros [|y l'] H;
    try discriminate; [reflexivity|].
  cbn [map] in H. injection H as H1 H2. f_equal; auto.
Qed.

Lemma list_ascii_of_string_inj (s s' : string) :
  list_ascii_of_string s = list_ascii_of_string s' -> s = s'.
Proof.
  intro H. rewrite <- (string_of_list_ascii_of_string s),
    <- (string_of_list_ascii_of_string s'), H. reflexivity.
Qed.

Lemma to_uint_not_nil (n : nat) : Nat.to_uint n <> Decimal.Nil.
Proof.
  intro H. pose proof (Unsigned.of_to n) as E. rewrite H in E.
  cbn in E. subst n. discriminate.
Qed.

(** Two numbers with the same decimal writing are equal. *)
Lemma str_of_nat_inj (i j : nat) : str_of_nat i = str_of_nat j -> i = j.
Proof.
  unfold str_of_nat. intro H.
  apply (map_inj N_of_ascii N_of_ascii_inj) in H.
  apply list_ascii_of_string_inj in H.
  apply Unsigned.to_uint_inj.
  pose proof (NilZero.usu (Nat.to_uint i) (to_uint_not_nil i)) as Hi.
  pose proof (NilZero.usu (Nat.to_uint j) (to_uint_not_nil j)) as Hj.
  rewrite H in Hi. congruence.
Qed.

Lemma digits_no_slash (d : Decimal.uint) :
  ~ In 47%N (map N_of_ascii (list_ascii_of_string (NilEmpty.string_of_uint d))).
Proof.
  induction d; cbn [NilEmpty.string_of_uint list_ascii_of_string map In];
    try (intros [H | H]; [discriminate | contradiction]).
  intros [].
Qed.

Lemma str_of_nat_no_slash (n : nat) : ~ In 47%N (str_of_nat n).
Proof.
  unfold str_of_nat, NilZero.string_of_uint.
  destruct (Nat.to_uint n) eqn:E;
    [intros [H | []]; discriminate | rewrite <- E; apply digits_no_slash ..].
Qed.

(** Splitting at the slashes, piece by piece. *)
Lemma split_slash_head (cur s : str) :
  exists y post,
    split_slash [] s = y :: post /\ split_slash cur s = (rev cur ++ y) :: post.
Proof.
  revert cur. induction s as [|c s IH]; intro cur.
  - exists [], []. cbn [split_slash rev]. rewrite app_nil_r. split; reflexivity.
  - cbn [split_slash]. destruct (char_eqb c 47%N).
    + exists [], (split_slash [] s). cbn [rev]. rewrite app_nil_r.
      split; reflexivity.
    + destruct (IH [c]) as (y1 & post1 & E1 & E1').
      destruct (IH (c :: cur)) as (y2 & post2 & E2 & E2').
      rewrite E1 in E2. injection E2 as <- <-.
      exists ([c] ++ y1), post1. split; [exact E1'|].
      rewrite E2'. cbn [rev]. rewrite <- app_assoc. reflexivity.
Qed.


Lemma split_slash_prefix (a : str) :
  forall cur, exists pre cur',
    forall s, split_slash cur (a ++ s) = pre ++ split_slash cur' s.
Proof.
  induction a as [|c a IH]; intro cur.
  - exists [], cur. reflexivity.
  - cbn [app split_slash]. destruct (char_eqb c 47%N).
    + destruct (IH []) as (pre & cur' & E). exists (rev cur :: pre), cur'.
      intro s. rewrite E. reflexivity.
    + destruct (IH (c :: cur)) as (pre & cur' & E). exists pre, cur'. exact E.
Qed.

Lemma split_slash_free (m : str) :
  ~ In 47%N m ->
  forall cur s, split_slash cur (m ++ s) = split_slash (rev m ++ cur) s.
Proof.
  induction m as [|c m IH]; intros Hm cur s; [reflexivity|].
  cbn [app split_slash].
  destruct (char_eqb c 47%N) eqn:E.
  - apply char_eqb_eq in E. subst c. exfalso. apply Hm. left. reflexivity.
  - rewrite IH by (intro H; apply Hm; right; exact H).
    cbn [rev]. rewrite <- app_assoc. reflexivity.
Qed.

(** The components of a string around a piece without slash that has an
    underscore: the piece lies in one component, between fixed ones. *)
Lemma parse_parts_middle (a b : str) :
  exists A x y B,
    forall m : str, ~ In 47%N m -> In 95%N m ->
                    parse_parts (a ++ m ++ b) = A ++ [x ++ m ++ y] ++ B.
Proof.
  destruct (split_slash_prefix a []) as (pre & cur' & Ea).
  destruct (split_slash_head [] b) as (y & post & Eb & _).
  exists (filter (fun p => truthy p && negb (str_eqb p (utf8 "."))) pre),
         (rev cur'), y,
         (filter (fun p => truthy p && negb (str_eqb p (utf8 "."))) post).
  intros m Hm Hu. unfold parse_parts.
  rewrite Ea, (split_slash_free m Hm).
  destruct (split_slash_head (rev m ++ cur') b) as (y' & post' & Eb' & ->).
  rewrite Eb in Eb'. injection Eb' as <- <-.
  rewrite rev_app_distr, rev_involutive, <- app_assoc.
  rewrite filter_app. cbn [filter].
  assert (Hok : truthy (rev cur' ++ m ++ y)
                && negb (str_eqb (rev cur' ++ m ++ y) (utf8 ".")) = true).
  { assert (Hin : In 95%N (rev cur' ++ m ++ y)).
    { apply in_or_app. right. apply in_or_app. left. exact Hu. }
    apply andb_true_iff. split.
    - destruct (rev cur' ++ m ++ y); [contradiction | reflexivity].
    - apply negb_true_iff. destruct (str_eqb _ _) eqn:E; [|reflexivity].
      apply str_eqb_eq in E. rewrite E in Hin.
      destruct Hin as [H | []]. discriminate. }
  rewrite Hok. reflexivity.
Qed.

Lemma candidate_name_middle (stem suffix : str) (i : nat) :
  Mover.candidate_name stem suffix i
  = stem ++ numbered i ++ suffix.
Proof.
  unfold Mover.candidate_name, numbered. change (utf8 "_") with [95%N].
  cbn [app]. reflexivity.
Qed.

Lemma underscore_piece (i : nat) :
  ~ In 47%N (numbered i) /\ In 95%N (numbered i).
Proof.
  unfold numbered. split; [|left; reflexivity].
  intros [H | H]; [discriminate | exact (str_of_nat_no_slash _ H)].
Qed.

Lemma startswith_slash_candidate (stem suffix : str) (i j : nat) :
  startswith (Mover.candidate_name stem suffix i) (utf8 "/")
  = startswith (Mover.candidate_name stem suffix j) (utf8 "/").
Proof.
  rewrite !candidate_name_middle. change (utf8 "/") with [47%N].
  unfold numbered. destruct stem as [|c stem]; cbn [app startswith];
    rewrite ?startswith_nil; reflexivity.
Qed.

(** Two candidates of one directory, stem and suffix are one path only
    for one number; and a candidate is not the empty path. *)
Lemma candidate_path_inj (d : Path) (stem suffix : str) (i j : nat) :
  joinpath d (Mover.candidate_name stem suffix i)
  = joinpath d (Mover.candidate_name stem suffix j) ->
  i = j.
Proof.
  unfold joinpath. rewrite (startswith_slash_candidate stem suffix i j).
  rewrite !candidate_name_middle.
  destruct (parse_parts_middle stem suffix) as (A & x & y & B & E).
  destruct (underscore_piece i) as [Hi1 Hi2].
  destruct (underscore_piece j) as [Hj1 Hj2].
  rewrite (E _ Hi1 Hi2), (E _ Hj1 Hj2).
  intro H.
  assert (H' : A ++ [x ++ numbered i ++ y] ++ B
               = A ++ [x ++ numbered j ++ y] ++ B).
  { destruct (startswith _ _).
    - injection H as H. exact H.
    - injection H as H. apply app_inv_head in H. exact H. }
  apply app_inv_head in H'. cbn [app] in H'. injection H' as H'.
  apply app_inv_head in H'. unfold numbered in H'. cbn [app] in H'.
  injection H' as H'. apply app_inv_tail in H'.
  apply str_of_nat_inj. exact H'.
Qed.

Lemma candidate_path_parts (d : Path) (stem suffix : str) (i : nat) :
  parts (joinpath d (Mover.candidate_name stem suffix i)) <> [].
Proof.
  unfold joinpath. rewrite candidate_name_middle.
  destruct (parse_parts_middle stem suffix) as (A & x & y & B & E).
  destruct (underscore_piece i) as [Hi1 Hi2]. rewrite (E _ Hi1 Hi2).
  destruct (startswith _ _); cbn [parts]; intro H.
  - apply app_eq_nil in H. destruct H as [_ H]. discriminate.
  - apply app_eq_nil in H. destruct H as [_ H].
    apply app_eq_nil in H. destruct H as [_ H]. discriminate.
Qed.

End NameFacts.

Module MoverFacts.
Import Py Pathlib Os Models Mover Spec PyFacts PathFacts NameFacts.

Lemma exists_in (fs : FS) (p : Path) :
  exists_ fs p = true <-> parts p = [] \/ In p (map fst fs).
Proof.
  unfold exists_. destruct (parts p) as [|c l] eqn:E.
  - split; [left; reflexivity | reflexivity].
  - rewrite existsb_exists. split.
    + intros [[q k] [Hin Heq]]. cbn [fst] in Heq. apply path_eqb_eq in Heq.
      subst q. right. apply in_map_iff. exists (p, k). split; [reflexivity|exact Hin].
    + intros [H | H]; [discriminate|]. apply in_map_iff in H.
      destruct H as [[q k] [Hq Hin]]. cbn [fst] in Hq. subst q.
      exists (p, k). split; [exact Hin | apply path_eqb_refl].
Qed.

Lemma is_file_in (fs : FS) (p : Path) :
  is_file fs p = true <-> In (p, File) fs.
Proof.
  unfold is_file. rewrite existsb_exists. split.
  - intros [[q k] [Hin Heq]]. cbn [fst snd] in Heq.
    apply andb_true_iff in Heq. destruct Heq as [H1 H2].
    apply path_eqb_eq in H1. subst q. destruct k; [exact Hin | discriminate].
  - intro H. exists (p, File). split; [exact H|]. cbn [fst snd].
    rewrite path_eqb_refl. reflexivity.
Qed.

Lemma is_file_app (fs more : FS) (p : Path) :
  is_file fs p = true -> is_file (fs ++ more) p = true.
Proof.
  rewrite !is_file_in. intro H. apply in_or_app. left. exact H.
Qed.

Lemma is_dir_exists (fs : FS) (p : Path) :
  is_dir fs p = true -> exists_ fs p = true.
Proof.
  unfold is_dir, exists_. destruct (parts p); [reflexivity|].
  rewrite !existsb_exists. intros [e [Hin H]]. exists e. split; [exact Hin|].
  apply andb_true_iff in H. tauto.
Qed.

Lemma exists_app (fs more : FS) (q : Path) :
  exists_ fs q = true -> exists_ (fs ++ more) q = true.
Proof.
  rewrite !exists_in. intros [H | H]; [left; exact H | right].
  rewrite map_app. apply in_or_app. left. exact H.
Qed.

Lemma exc_str_nonempty (e : exc) : exc_str e <> [].
Proof.
  destruct e; unfold exc_str; intro H;
    apply (f_equal (@List.length char)) in H;
    rewrite !length_app in H; cbn in H; lia.
Qed.

Section WithFaults.
Variable os : Faults.

(** A query raises what [os.stat] raised, or answers from the
    filesystem, which it leaves as it is. *)
Lemma exists_query (A : Type) (p : Path) (k : bool -> M A) (fs : FS) :
  bind (Path_exists os p) k fs
  = match stat_raises os p with
    | Some e => Raised e fs
    | None => k (exists_ fs p) fs
    end.
Proof.
  unfold Path_exists, bind, get_fs, raise, ret.
  destruct (stat_raises os p); reflexivity.
Qed.

Lemma is_file_query (A : Type) (p : Path) (k : bool -> M A) (fs : FS) :
  bind (Path_is_file os p) k fs
  = match stat_raises os p with
    | Some e => Raised e fs
    | None => k (is_file fs p) fs
    end.
Proof.
  unfold Path_is_file, bind, get_fs, raise, ret.
  destruct (stat_raises os p); reflexivity.
Qed.

Section Candidates.
Variables (fs : FS) (d : Path) (stem suffix : str).

Let cand (i : nat) : Path := joinpath d (candidate_name stem suffix i).

(** Among one candidate more than the filesystem has entries, one is
    free. *)
Lemma free_candidate :
  exists j, 1 <= j <= S (List.length fs) /\ exists_ fs (cand j) = false.
Proof.
  set (l := seq 1 (S (List.length fs))).
  destruct (forallb (fun j => exists_ fs (cand j)) l) eqn:E.
  - exfalso. rewrite forallb_forall in E.
    assert (Hincl : incl (map cand l) (map fst fs)).
    { intros p Hp. apply in_map_iff in Hp. destruct Hp as [j [<- Hj]].
      specialize (E j Hj). apply exists_in in E. destruct E as [E | E];
        [|exact E].
      exfalso. exact (candidate_path_parts d stem suffix j E). }
    assert (Hnd : NoDup (map cand l)).
    { apply NoDup_map_NoDup_ForallPairs; [|apply seq_NoDup].
      intros i j _ _ H. apply (candidate_path_inj d stem suffix). exact H. }
    pose proof (NoDup_incl_length Hnd Hincl) as Hlen.
    rewrite !length_map in Hlen. unfold l in Hlen. rewrite length_seq in Hlen.
    lia.
  - assert (Hex : existsb (fun j => negb (exists_ fs (cand j))) l = true).
    { clear -E. induction l as [|j l IH]; [discriminate|].
      cbn [forallb existsb] in *. destruct (exists_ fs (cand j)); [|reflexivity].
      cbn [negb andb orb] in *. apply IH. exact E. }
    apply existsb_exists in Hex. destruct Hex as [j [Hj Hf]].
    apply in_seq in Hj. apply negb_true_iff in Hf. exists j. split; [lia|exact Hf].
Qed.

(** The loop stops at the first candidate that is free or whose query
    raises, when its bound reaches a free one: it returns the former and
    raises what the latter raised. *)
Lemma unique_loop_first (fuel i j : nat) :
  i <= j < i + fuel -> exists_ fs (cand j) = false ->
  exists k,
    i <= k <= j
    /\ (forall m, i <= m < k ->
          exists_ fs (cand m) = true /\ stat_raises os (cand m) = None)
    /\ ((stat_raises os (cand k) = None
         /\ exists_ fs (cand k) = false
         /\ unique_loop os fuel d stem suffix i fs = Ok (cand k) fs)
        \/ exists e,
             stat_raises os (cand k) = Some e
             /\ unique_loop os fuel d stem suffix i fs = Raised e fs).
Proof.
  revert i. induction fuel as [|fuel IH]; intros i Hj Hf; [lia|].
  cbn [unique_loop]. cbv zeta. rewrite exists_query. fold (cand i).
  destruct (stat_raises os (cand i)) as [e|] eqn:Er.
  { exists i. split; [lia|]. split; [intros m Hm; lia|].
    right. exists e. split; [exact Er | reflexivity]. }
  destruct (exists_ fs (cand i)) eqn:E; cbn [negb].
  - assert (Hne : i <> j) by (intro; subst; congruence).
    destruct (IH (S i)) as (k & Hk & Hmin & Hend); [lia | exact Hf |].
    exists k. split; [lia|]. split; [|exact Hend].
    intros m Hm. destruct (Nat.eq_dec m i) as [->|]; [split; assumption|].
    apply Hmin. lia.
  - exists i. split; [lia|]. split; [intros m Hm; lia|].
    left. split; [exact Er|]. split; [exact E | reflexivity].
Qed.

End Candidates.

(** What [_unique_path] does.  The search ends.  It raises what the
    query of the base path or of a numbered candidate raised, and
    otherwise returns a free path: the base path, or the first numbered
    candidate that is free, the ones before it being taken.  The
    filesystem is left as it was. *)
Lemma unique_path_cases (fs : FS) (d : Path) (base : str) :
  let dest := joinpath d base in
  let cand i := joinpath d (candidate_name (stem dest) (suffix dest) i) in
  (exists e p,
     _unique_path os d base fs = Raised e fs
     /\ stat_raises os p = Some e
     /\ (p = dest \/ exists i, 1 <= i /\ p = cand i))
  \/ (exists p,
        _unique_path os d base fs = Ok p fs
        /\ stat_raises os dest = None
        /\ exists_ fs p = false
        /\ (exists_ fs dest = false -> p = dest)
        /\ (exists_ fs dest = true ->
            exists i,
              1 <= i /\ p = cand i
              /\ forall j, 1 <= j < i ->
                   exists_ fs (cand j) = true
                   /\ stat_raises os (cand j) = None)).
Proof.
  intros dest cand. unfold _unique_path. fold dest. rewrite exists_query.
  destruct (stat_raises os dest) as [e|] eqn:Er.
  { left. exists e, dest. split; [reflexivity|]. split; [exact Er|].
    left. reflexivity. }
  destruct (exists_ fs dest) eqn:E; cbn [negb].
  - change (bind get_fs
              (fun fs0 => unique_loop os (S (List.length fs0)) d (stem dest)
                            (suffix dest) 1) fs)
      with (unique_loop os (S (List.length fs)) d (stem dest) (suffix dest) 1
              fs).
    destruct (free_candidate fs d (stem dest) (suffix dest)) as (j & Hj & Hf).
    destruct (@unique_loop_first fs d (stem dest) (suffix dest)
                (S (List.length fs)) 1 j) as (k & Hk & Hmin & Hend);
      [lia | exact Hf|].
    destruct Hend as [(Hq & Hfree & ->) | (e & He & ->)].
    + right. exists (cand k). split; [reflexivity|]. split; [reflexivity|].
      split; [exact Hfree|]. split; [discriminate|]. intros _. exists k.
      split; [lia|]. split; [reflexivity | exact Hmin].
    + left. exists e, (cand k). split; [reflexivity|]. split; [exact He|].
      right. exists k. split; [lia | reflexivity].
  - right. exists dest. split; [reflexivity|]. split; [reflexivity|].
    split; [exact E|]. split; [reflexivity | discriminate].
Qed.

(** What [_ensure_dir] does: it fails and leaves the filesystem as it
    was, or adds directories. *)
Lemma ensure_dir_cases (fs : FS) (p : Path) :
  (exists e, _ensure_dir os p fs = Raised e fs
             /\ (mkdir_fault os p = None ->
                 exists q, find (is_file fs) (ancestors_and_self p) = Some q))
  \/ (exists dirs, _ensure_dir os p fs = Ok tt (fs ++ dirs)
                   /\ mkdir_fault os p = None).
Proof.
  unfold _ensure_dir, try_except, mkdir_parents, bind, get_fs, raise, put_fs.
  destruct (mkdir_fault os p) as [[errno msg]|].
  - left. eexists. split; [reflexivity | discriminate].
  - destruct (find (is_file fs) (ancestors_and_self p)) as [q|].
    + left. eexists. split; [reflexivity|]. intros _. exists q. reflexivity.
    + right. eexists. split; reflexivity.
Qed.

(** What [shutil.move] does to a free destination: it fails and keeps
    every entry, or puts the file there in place of the source. *)
Lemma shutil_move_cases (fs : FS) (src dst : Path) :
  exists_ fs dst = false ->
  (exists e more, shutil_move os src dst fs = Raised e (fs ++ more))
  \/ (shutil_move os src dst fs
      = Ok tt (remove (remove fs src) dst ++ [(dst, File)])
      /\ move_fault os src dst = None /\ is_file fs src = true).
Proof.
  intro Hfree.
  unfold shutil_move, rename, bind, get_fs, raise, put_fs, ret.
  destruct (move_fault os src dst) as [[[errno msg] copy_left]|].
  - left. rewrite Hfree. cbn [negb andb].
    destruct copy_left; cbn [andb]; eexists; eexists;
      [reflexivity | rewrite app_nil_r; reflexivity].
  - destruct (is_file fs src) eqn:Es; cbn [negb].
    + destruct (is_dir fs dst) eqn:Ed.
      * apply is_dir_exists in Ed. congruence.
      * destruct (is_dir fs (parent dst)); cbn [negb].
        -- right. repeat split; reflexivity.
        -- left. eexists. exists []. rewrite app_nil_r. reflexivity.
    + left. eexists. exists []. rewrite app_nil_r. reflexivity.
Qed.

(** The end of the try block: the result as it is, or with the text of
    what the resolution of one of the two paths raised.  The filesystem
    is left as it is. *)
Lemma log_move_cases (src final : Path) (r : ProcessingResult) (fs : FS) :
  (log_move os src final r fs = Ok r fs
   /\ resolve_fault os final = None /\ resolve_fault os src = None)
  \/ exists e,
       log_move os src final r fs = Ok (with_error r (exc_str e)) fs
       /\ (resolve_fault os final = Some e \/ resolve_fault os src = Some e).
Proof.
  unfold log_move, try_except, bind, Path_resolve, raise, ret.
  destruct (resolve_fault os final) as [e|].
  - right. exists e. split; [reflexivity | left; reflexivity].
  - destruct (resolve_fault os src) as [e|].
    + right. exists e. split; [reflexivity | right; reflexivity].
    + left. repeat split; reflexivity.
Qed.

(** The three steps the moves share -- make the directory, find a free
    name, move the file -- either raise, and then nothing is lost, or
    put the file at the free path and go on from there. *)
Lemma relocation (A : Type) (k : Path -> M A) (fs : FS) (src d : Path)
  (base : str) :
  is_file fs src = true ->
  let c :=
    bind (_ensure_dir os d)
         (fun _ => bind (_unique_path os d base)
                        (fun final => bind (shutil_move os src final)
                                           (fun _ => k final))) in
  (exists e more,
     c fs = Raised e (fs ++ more)
     /\ (mkdir_fault os d <> None
         \/ (forall dst, move_fault os src dst <> None) ->
         True))
  \/ (exists dirs p,
        _unique_path os d base (fs ++ dirs) = Ok p (fs ++ dirs)
        /\ exists_ (fs ++ dirs) p = false
        /\ mkdir_fault os d = None /\ move_fault os src p = None
        /\ c fs = k p (remove (remove (fs ++ dirs) src) p ++ [(p, File)])).
Proof.
  intros Hs c. unfold c, bind.
  destruct (ensure_dir_cases fs d) as [(e & -> & _) | (dirs & -> & Hmk)].
  - left. exists e, []. rewrite app_nil_r. split; [reflexivity | trivial].
  - destruct (unique_path_cases (fs ++ dirs) d base)
      as [(e & p & -> & _) | (p & Hu & _ & Hfree & _)].
    + left. exists e, dirs. split; [reflexivity | trivial].
    + rewrite Hu.
      destruct (shutil_move_cases (fs ++ dirs) src p Hfree)
        as [(e & more & ->) | (-> & Hmv & _)].
      * left. exists e, (dirs ++ more). rewrite app_assoc.
        split; [reflexivity | trivial].
      * right. exists dirs, p. repeat split; assumption.
Qed.

Lemma free_before (fs dirs : FS) (p : Path) :
  exists_ (fs ++ dirs) p = false -> exists_ fs p = false.
Proof.
  intro H. destruct (exists_ fs p) eqn:E; [|reflexivity].
  apply (exists_app fs dirs) in E. congruence.
Qed.

Lemma is_file_exists (fs : FS) (p : Path) :
  is_file fs p = true -> exists_ fs p = true.
Proof.
  intro H. apply is_file_in in H. apply exists_in. right.
  apply in_map_iff. exists (p, File). split; [reflexivity | exact H].
Qed.

Lemma missing_source_text (p : Path) :
  utf8 "Fichier source introuvable: " ++ path_str p <> [].
Proof.
  intro H. apply (f_equal (@List.length char)) in H.
  rewrite length_app in H. cbn in H. lia.
Qed.


(** The outcomes of [move_to_destination].  The call raises exactly what
    the test of the source raised, and otherwise returns a result.
    When the result says [moved], the file is at a path that was free,
    under the name the result carries, and is no more at the source; an
    error beside [moved] is the text of what the resolution of the two
    paths for the log raised after the move, and there is none when
    nothing is raised there.  When the result does not say [moved] --
    the source is missing, the directory cannot be created, the search
    of a name or the renaming fails -- the error is a non-empty string
    and the source file is still there. *)
Theorem move_to_destination_cases (fs : FS) (source_path dest_dir : Path)
  (dest_filename : str) (extracted : ExtractedData) :
  (forall e,
     stat_raises os source_path = Some e ->
     move_to_destination os source_path dest_dir dest_filename extracted false
       fs = Raised e fs)
  /\ (stat_raises os source_path = None ->
      exists r fs',
        move_to_destination os source_path dest_dir dest_filename extracted
          false fs = Ok r fs'
        /\ (moved r = true ->
            is_file fs source_path = true
            /\ (exists final_path,
                  Mover.dest_filename r = name final_path
                  /\ exists_ fs final_path = false
                  /\ is_file fs' final_path = true
                  /\ final_path <> source_path
                  /\ (forall msg, error r = Some msg ->
                        exists e,
                          msg = exc_str e
                          /\ (resolve_fault os final_path = Some e
                              \/ resolve_fault os source_path = Some e)))
            /\ ((forall p, resolve_fault os p = None) -> error r = None))
        /\ (moved r = false ->
            (exists msg, error r = Some msg /\ msg <> [])
            /\ (is_file fs source_path = true ->
                is_file fs' source_path = true))
        /\ (is_file fs source_path = false -> moved r = false)
        /\ (mkdir_fault os dest_dir <> None -> moved r = false)
        /\ ((forall dst, move_fault os source_path dst <> None) ->
            moved r = false)).
Proof.
  split.
  { intros e He. unfold move_to_destination. rewrite is_file_query, He.
    reflexivity. }
  intro Hq. unfold move_to_destination. rewrite is_file_query, Hq.
  set (found := is_file fs source_path) at 1.
  assert (Esrc : is_file fs source_path = found) by reflexivity.
  clearbody found. destruct found; cbn [negb].
  - unfold try_except.
    match goal with
    | |- context [bind (_ensure_dir os ?d)
                    (fun _ => bind (_unique_path os ?d ?base)
                       (fun final => bind (shutil_move os ?src final)
                                          (fun _ => @?k final)))] =>
      destruct (@relocation ProcessingResult k fs src d base Esrc)
        as [(e & more & -> & _) | (dirs & p & _ & Hfree & Hmk & Hmv & ->)]
    end.
    + (* the directory, the name or the renaming failed *)
      eexists. eexists. split; [reflexivity|]. cbn [moved error with_error].
      split; [discriminate|]. split; [|repeat split; auto].
      intros _. split.
      * eexists. split; [reflexivity|]. apply exc_str_nonempty.
      * intros _. apply is_file_app. exact Esrc.
    + (* the file is moved *)
      cbv beta.
      set (r0 := with_moved _ (name p)).
      set (fs2 := remove (remove (fs ++ dirs) source_path) p ++ [(p, File)]).
      assert (Hne : p <> source_path).
      { intro E. subst p. pose proof (is_file_app fs dirs _ Esrc) as H.
        apply is_file_exists in H. congruence. }
      assert (Hat : is_file fs2 p = true).
      { apply is_file_in. apply in_or_app. right. left. reflexivity. }
      assert (Hfinal : forall r,
                moved r = true -> Mover.dest_filename r = name p ->
                (forall msg, error r = Some msg ->
                   exists e,
                     msg = exc_str e
                     /\ (resolve_fault os p = Some e
                         \/ resolve_fault os source_path = Some e)) ->
                ((forall q, resolve_fault os q = None) -> error r = None) ->
                (moved r = true ->
                 is_file fs source_path = true
                 /\ (exists final_path,
                       Mover.dest_filename r = name final_path
                       /\ exists_ fs final_path = false
                       /\ is_file fs2 final_path = true
                       /\ final_path <> source_path
                       /\ (forall msg, error r = Some msg ->
                             exists e,
                               msg = exc_str e
                               /\ (resolve_fault os final_path = Some e
                                   \/ resolve_fault os source_path = Some e)))
                 /\ ((forall q, resolve_fault os q = None) -> error r = None))
                /\ (moved r = false ->
                    (exists msg, error r = Some msg /\ msg <> [])
                    /\ (is_file fs source_path = true ->
                        is_file fs2 source_path = true))
                /\ (is_file fs source_path = false -> moved r = false)
                /\ (mkdir_fault os dest_dir <> None -> moved r = false)
                /\ ((forall dst, move_fault os source_path dst <> None) ->
                    moved r = false)).
      { intros r Hm Hn Herr Hnone. split; [|split; [|split; [|split]]].
        - intros _. split; [exact Esrc|]. split; [|exact Hnone].
          exists p. split; [exact Hn|].
          split; [exact (free_before fs dirs p Hfree)|].
          split; [exact Hat|]. split; [exact Hne | exact Herr].
        - intro H. congruence.
        - intro H. congruence.
        - intro H. congruence.
        - intro H. exfalso. exact (H p Hmv). }
      destruct (log_move_cases source_path p r0 fs2)
        as [(-> & _ & _) | (e & -> & He)].
      * eexists. eexists. split; [reflexivity|].
        apply Hfinal; try reflexivity.
        -- intros msg H. discriminate H.
      * eexists. eexists. split; [reflexivity|].
        apply Hfinal; try reflexivity.
        -- intros msg H. cbn [error with_error] in H. injection H as <-.
           exists e. split; [reflexivity | exact He].
        -- intro Hnone. destruct He as [He | He]; rewrite Hnone in He;
             discriminate He.
  - (* the source is missing *)
    eexists. eexists. split; [reflexivity|]. cbn [moved error with_error].
    split; [discriminate|]. split; [|repeat split; auto].
    intros _. split; [|intro H; congruence].
    eexists. split; [reflexivity | apply missing_source_text].
Qed.

End WithFaults.

(** C1.  The scanned file is a symbolic link that points to itself once
    it is moved: the move is made, [moved] is set, and the resolution of
    the new path for the log raises inside the try block, whose handler
    records the error.  The result says [moved] and carries an error,
    and the scanned file has left the inbox for /out/x.pdf. *)
Example move_to_destination_moved_with_error :
  match move_to_destination link_loop (abs_path ["inbox"; "a.pdf"]%string)
          (abs_path ["out"]%string) (utf8 "x.pdf") sample_extracted false
          link_fs with
  | Ok r fs' =>
    moved r = true
    /\ error r = Some (utf8 "Symlink loop from '/out/x.pdf'")
    /\ dest_filename r = utf8 "x.pdf"
    /\ exists_ fs' (abs_path ["out"; "x.pdf"]%string) = true
    /\ exists_ fs' (abs_path ["inbox"; "a.pdf"]%string) = false
  | _ => False
  end.
Proof. vm_compute. repeat split; reflexivity. Qed.

(** When the name of the source is too long for [os.stat], the test that
    stands before the try block raises, and so does the call. *)
Example move_to_destination_raises :
  move_to_destination name_too_long (abs_path ["inbox"; "a.pdf"]%string)
    (abs_path ["out"]%string) (utf8 "x.pdf") sample_extracted false link_fs
  = Raised (OSError 36 (utf8 "File name too long")
              (abs_path ["inbox"; "a.pdf"]%string)) link_fs.
Proof. vm_compute. reflexivity. Qed.

End MoverFacts.

Module MovesFacts.
Import Py Pathlib Os Models Mover Spec PyFacts PathFacts NameFacts MoverFacts.

Lemma split_slash_simple (x cur : str) :
  ~ In 47%N x -> split_slash cur x = [rev cur ++ x].
Proof.
  revert cur. induction x as [|c x IH]; intros cur H.
  - cbn [split_slash]. rewrite app_nil_r. reflexivity.
  - cbn [split_slash]. destruct (char_eqb c 47%N) eqn:E.
    + apply char_eqb_eq in E. subst c. exfalso. apply H. left. reflexivity.
    + rewrite IH by (intro Hx; apply H; right; exact Hx).
      cbn [rev]. rewrite <- app_assoc. reflexivity.
Qed.

Lemma joinpath_simple (d : Path) (x : str) :
  simple_name x ->
  joinpath d x = {| absolute := absolute d; parts := parts d ++ [x] |}.
Proof.
  intros (Hne & Hdot & Hslash). unfold joinpath, parse_parts.
  rewrite (split_slash_simple x [] Hslash). cbn [rev app filter].
  assert (E1 : startswith x (utf8 "/") = false).
  { destruct x as [|c x]; [congruence|]. change (utf8 "/") with [47%N].
    cbn [startswith]. destruct (char_eqb 47%N c) eqn:E; [|reflexivity].
    apply char_eqb_eq in E. subst c. exfalso. apply Hslash. left. reflexivity. }
  assert (E2 : truthy x && negb (str_eqb x (utf8 ".")) = true).
  { apply andb_true_iff. split; [destruct x; [congruence | reflexivity]|].
    apply negb_true_iff. destruct (str_eqb x (utf8 ".")) eqn:E; [|reflexivity].
    apply str_eqb_eq in E. contradiction. }
  rewrite E1, E2. reflexivity.
Qed.

Lemma name_joinpath_simple (d : Path) (x : str) :
  simple_name x -> name (joinpath d x) = x.
Proof.
  intro H. rewrite (joinpath_simple d H). unfold name. cbn [parts].
  apply last_last.
Qed.

Lemma stem_suffix_joinpath (d : Path) (x : str) :
  simple_name x ->
  stem (joinpath d x) = stem (name_path x)
  /\ suffix (joinpath d x) = suffix (name_path x).
Proof.
  intro H. unfold stem, suffix. rewrite (name_joinpath_simple d H).
  split; reflexivity.
Qed.

Lemma stem_suffix_split (x : str) :
  x = stem (name_path x) ++ suffix (name_path x).
Proof.
  unfold stem, suffix, name, name_path. cbn [parts last].
  symmetry. apply firstn_skipn.
Qed.

Lemma stem_suffix_chars (x : str) (c : char) :
  In c (stem (name_path x)) \/ In c (suffix (name_path x)) -> In c x.
Proof.
  intro H. rewrite (stem_suffix_split x). apply in_or_app. exact H.
Qed.

(** The names a simple base name lands on are simple and pairwise
    distinct. *)
Lemma landing_name_simple (base : str) (i : nat) :
  simple_name base -> simple_name (landing_name base i).
Proof.
  intro H. destruct i as [|i]; [exact H|].
  unfold landing_name. rewrite candidate_name_middle.
  destruct H as (_ & _ & Hslash).
  assert (Hin : In 95%N (stem (name_path base) ++ numbered (S i)
                         ++ suffix (name_path base))).
  { apply in_or_app. right. apply in_or_app. left. left. reflexivity. }
  repeat split.
  - intro E. rewrite E in Hin. contradiction.
  - intro E. rewrite E in Hin. destruct Hin as [Hin | []]. discriminate.
  - intro Hc. apply in_app_or in Hc. destruct Hc as [Hc | Hc].
    + apply Hslash. apply stem_suffix_chars. left. exact Hc.
    + apply in_app_or in Hc. destruct Hc as [Hc | Hc].
      * exact (proj1 (underscore_piece (S i)) Hc).
      * apply Hslash. apply stem_suffix_chars. right. exact Hc.
Qed.



Lemma landing_parts (d : Path) (base : str) (i : nat) :
  simple_name base -> parts (landing d base i) <> [].
Proof.
  intros Hs. unfold landing.
  rewrite joinpath_simple by (apply landing_name_simple; exact Hs).
  cbn [parts]. intro H. apply app_eq_nil in H. destruct H as [_ H].
  discriminate.
Qed.


Lemma landing_candidate (d : Path) (base : str) (i : nat) :
  simple_name base ->
  joinpath d (candidate_name (stem (joinpath d base))
                             (suffix (joinpath d base)) (S i))
  = landing d base (S i).
Proof.
  intro Hs. destruct (stem_suffix_joinpath d Hs) as [-> ->]. reflexivity.
Qed.


Lemma in_remove (fs : FS) (x q : Path) (k : kind) :
  In (q, k) (remove fs x) <-> In (q, k) fs /\ q <> x.
Proof.
  unfold remove. rewrite filter_In. cbn [fst].
  rewrite negb_true_iff, path_eqb_neq. reflexivity.
Qed.



Section WithFaults.
Variable os : Faults.








End WithFaults.

Lemma facture_simple : simple_name (utf8 "facture.pdf").
Proof.
  repeat split; try discriminate. vm_compute. intuition discriminate.
Qed.


Example sample_moves_names :
  match sample_moves with
  | Ok rs _ => map Mover.dest_filename rs
  | _ => []
  end
  = map utf8 ["facture_1.pdf"; "facture_2.pdf"; "facture_3.pdf"]%string.
Proof. vm_compute. reflexivity. Qed.

Example move_to_destination_denied :
  match move_to_destination mkdir_denied (abs_path ["inbox"; "a.pdf"]%string)
          (abs_path ["out"; "EDF"]%string) (utf8 "facture.pdf")
          sample_extracted false sample_fs with
  | Ok r fs' =>
    moved r = false
    /\ error r = Some (utf8 "[Errno 13] Permission denied: '/out/EDF'")
    /\ is_file fs' (abs_path ["inbox"; "a.pdf"]%string) = true
  | _ => False
  end.
Proof. vm_compute. repeat split; reflexivity. Qed.

Example move_to_destination_missing_source :
  match move_to_destination no_faults (abs_path ["inbox"; "z.pdf"]%string)
          (abs_path ["out"; "EDF"]%string) (utf8 "facture.pdf")
          sample_extracted false sample_fs with
  | Ok r _ =>
    moved r = false
    /\ error r = Some (utf8 "Fichier source introuvable: /inbox/z.pdf")
  | _ => False
  end.
Proof. vm_compute. repeat split; reflexivity. Qed.

End MovesFacts.

(* ================================================================== *)
(** * The invoice number                                                *)
(* ================================================================== *)

Module NumeroFacts.
Import Py Re Models Extract Spec PyFacts MatchFacts.

Section WithUnicode.
Context {U : Unicode}.

Lemma numero_group (a b : re) (lo : nat) (texte : str) (m : Match) :
  (forall c, num_char c = true -> u_space c = false) ->
  search (Seq a (Seq b (Grp 1 (Rep num_char lo None)))) texte = Some m ->
  lo <= List.length (strip (group m 1))
  /\ forallb num_char (strip (group m 1)) = true.
Proof.
  intros Hsp H. apply search_from_inv in H. destruct H as (prev & s & H).
  apply match_last_group in H. destruct H as [Hlo Hall].
  assert (E : strip (group m 1) = group m 1).
  { apply strip_by_none. apply forallb_forall. intros c Hc.
    rewrite forallb_forall in Hall. rewrite (Hsp c (Hall c Hc)). reflexivity. }
  rewrite E. split; assumption.
Qed.

(** An invoice number that is found is never empty and holds only
    characters of the class of the patterns -- letters from A to Z in
    either case, digits, dashes and slashes -- and no white space; one
    found by the second pattern only has four characters at least.
    Nothing is found exactly when neither pattern matches. *)
Theorem extract_numero_facture_shape (texte : str) :
  (forall c, num_char c = true -> u_space c = false) ->
  (forall n,
     extract_numero_facture texte = Some n ->
     n <> [] /\ forallb num_char n = true
     /\ forallb (fun c => negb (u_space c)) n = true
     /\ (search NUM_FACTURE texte = None -> 4 <= List.length n))
  /\ (extract_numero_facture texte = None <->
      search NUM_FACTURE texte = None /\ search NUM_FACTURE_ALT texte = None).
Proof.
  intro Hsp. split.
  - intros n H. unfold extract_numero_facture in H.
    assert (G : forall lo, 1 <= lo -> lo <= List.length n ->
                forallb num_char n = true ->
                n <> [] /\ forallb num_char n = true
                /\ forallb (fun c => negb (u_space c)) n = true).
    { intros lo H1 Hlo Hall. split; [|split; [exact Hall|]].
      - intro E. subst n. cbn [List.length] in Hlo. lia.
      - apply forallb_forall. intros c Hc. rewrite forallb_forall in Hall.
        rewrite (Hsp c (Hall c Hc)). reflexivity. }
    destruct (search NUM_FACTURE texte) as [m|] eqn:E1.
    + injection H as <-.
      destruct (@numero_group _ _ 1 texte m Hsp E1) as [Hlo Hall].
      destruct (G 1 (le_n 1) Hlo Hall) as (A & B & C).
      repeat split; auto. discriminate.
    + destruct (search NUM_FACTURE_ALT texte) as [m|] eqn:E2; [|discriminate].
      injection H as <-.
      destruct (@numero_group _ _ 4 texte m Hsp E2) as [Hlo Hall].
      assert (H4 : 1 <= 4) by lia.
      destruct (G 4 H4 Hlo Hall) as (A & B & C).
      repeat split; auto.
  - unfold extract_numero_facture.
    destruct (search NUM_FACTURE texte) as [m|];
      [split; [discriminate | intros [H _]; discriminate]|].
    destruct (search NUM_FACTURE_ALT texte) as [m|];
      [split; [discriminate | intros [_ H]; discriminate]|].
    split; auto.
Qed.

End WithUnicode.

Lemma num_char_spec (U : Unicode) (c : char) :
  num_char c = true <-> exists x, In x NUM_CHARS /\ u_fold c = u_fold x.
Proof.
  unfold num_char. rewrite existsb_exists.
  split; intros [x [Hx E]]; exists x; (split; [exact Hx|]);
    apply char_eqb_eq; exact E.
Qed.

Lemma latin1_lower_cases (c : char) :
  (latin1_lower_char c = (c + 32)%N
   /\ (65 <= c <= 90 \/ 192 <= c <= 222)%N)
  \/ latin1_lower_char c = c.
Proof.
  unfold latin1_lower_char. destruct (latin1_upper c) eqn:E; [left | right; auto].
  split; [reflexivity|]. unfold latin1_upper in E.
  rewrite orb_true_iff, andb_true_iff, !in_range_spec in E. lia.
Qed.

Lemma latin1_space_spec (c : char) :
  latin1_space c = true <->
  (9 <= c <= 13 \/ 28 <= c <= 32 \/ c = 133 \/ c = 160)%N.
Proof.
  unfold latin1_space. rewrite !orb_true_iff, !in_range_spec, !N.eqb_eq.
  tauto.
Qed.

Lemma latin1_num_chars_lower :
  forallb (fun x => let k := latin1_lower_char x in
                    in_range 48 57 k || in_range 97 122 k
                    || (k =? 45)%N || (k =? 47)%N) NUM_CHARS = true.
Proof. vm_compute. reflexivity. Qed.

(** In Latin-1 no character of the class is white space. *)
Lemma latin1_num_char_not_space (c : char) :
  num_char (U := Latin1) c = true -> u_space (Unicode := Latin1) c = false.
Proof.
  intro H. apply num_char_spec in H. destruct H as [x [Hx E]].
  cbn [u_fold Latin1] in E. cbn [u_space Latin1].
  pose proof latin1_num_chars_lower as T.
  rewrite forallb_forall in T. specialize (T x Hx). cbv zeta in T.
  rewrite !orb_true_iff, !in_range_spec, !N.eqb_eq in T.
  rewrite <- E in T. clear E Hx x.
  destruct (latin1_space c) eqn:Es; [|reflexivity].
  apply latin1_space_spec in Es.
  destruct (latin1_lower_cases c) as [(El & Hr) | El]; rewrite El in T; lia.
Qed.

(** The number of an invoice header. *)
Lemma extract_numero_facture_shape_witness :
  extract_numero_facture (U := Latin1)
    (utf8 "Facture N° : F-2024/001 du 15/03/2024")
  = Some (utf8 "F-2024/001")
  /\ utf8 "F-2024/001" <> []
  /\ forallb (num_char (U := Latin1)) (utf8 "F-2024/001") = true.
Proof.
  split; [vm_compute; reflexivity|].
  destruct (proj1 (extract_numero_facture_shape (U := Latin1)
                     (utf8 "Facture N° : F-2024/001 du 15/03/2024")
                     latin1_num_char_not_space)
              (utf8 "F-2024/001")) as (A & B & _).
  - vm_compute. reflexivity.
  - split; assumption.
Defined.

Example extract_numero_facture_second_pattern :
  extract_numero_facture (U := Latin1) (utf8 "Ref. no. 2024-0042 / client 17")
  = Some (utf8 "2024-0042").
Proof. vm_compute. reflexivity. Qed.

Example extract_numero_facture_short :
  extract_numero_facture (U := Latin1) (utf8 "Commande no 12") = None.
Proof. vm_compute. reflexivity. Qed.

End NumeroFacts.
(* ================================================================== *)
(** * The type of a document, its slug and its weight                   *)
(* ================================================================== *)

Module TypeFacts.
Import Py Models Extract Classify Spec PyFacts.

Lemma str_eqb_sym (a b : str) : str_eqb a b = str_eqb b a.
Proof.
  destruct (str_eqb a b) eqn:E1, (str_eqb b a) eqn:E2; try reflexivity.
  - apply str_eqb_eq in E1. subst b. rewrite str_eqb_refl in E2. discriminate.
  - apply str_eqb_eq in E2. subst b. rewrite str_eqb_refl in E1. discriminate.
Qed.

Lemma recognized_cases (t : str) :
  existsb (str_eqb t) RECOGNIZED_TYPES = true -> In t RECOGNIZED_TYPES.
Proof.
  intro H. apply existsb_exists in H. destruct H as [k [Hk E]].
  apply str_eqb_eq in E. subst k. exact Hk.
Qed.

(** The table of slugs, read for a type of the tuple of recognized types
    and for another one. *)
Lemma slug_of_type (t : str) :
  (In t RECOGNIZED_TYPES
   /\ In (dict_get slug_map t (utf8 "INCONNU")) SLUGS
   /\ dict_get slug_map t (utf8 "INCONNU") <> utf8 "INCONNU")
  \/ (~ In t RECOGNIZED_TYPES
      /\ dict_get slug_map t (utf8 "INCONNU") = utf8 "INCONNU").
Proof.
  destruct (existsb (str_eqb t) RECOGNIZED_TYPES) eqn:E.
  - left. apply recognized_cases in E. split; [exact E|].
    cbn [RECOGNIZED_TYPES map In] in E.
    repeat (destruct E as [<- | E];
            [split; [vm_compute; tauto | vm_compute; discriminate]|]).
    contradiction.
  - right.
    assert (N : forall k, In k RECOGNIZED_TYPES -> str_eqb k t = false).
    { intros k Hk. rewrite str_eqb_sym.
      destruct (str_eqb t k) eqn:E2; [|reflexivity].
      assert (X : existsb (str_eqb t) RECOGNIZED_TYPES = true)
        by (apply existsb_exists; exists k; split; assumption).
      congruence. }
    split.
    + intro Hin. specialize (N t Hin). rewrite str_eqb_refl in N.
      discriminate.
    + unfold slug_map. cbn [map dict_get fst snd].
      rewrite !N by (cbn [RECOGNIZED_TYPES map In]; tauto). reflexivity.
Qed.

(** The slug [ensure_type_doc] sets is one of the seven labels, and it is
    INCONNU exactly for the types that [compute_confidence] does not
    count as recognized: the table of slugs and the tuple of recognized
    types hold the same six types.  Setting the slug again changes
    nothing. *)
Theorem ensure_type_doc_slug (e : ExtractedData) :
  In (get_type_doc_slug (ensure_type_doc e)) SLUGS
  /\ (type_recognized e = true <->
      get_type_doc_slug (ensure_type_doc e) <> utf8 "INCONNU")
  /\ ensure_type_doc (ensure_type_doc e) = ensure_type_doc e.
Proof.
  assert (G : get_type_doc_slug (ensure_type_doc e)
              = dict_get slug_map (type_document e) (utf8 "INCONNU"))
    by reflexivity.
  rewrite G. split; [|split; [|reflexivity]].
  - destruct (slug_of_type (type_document e)) as [(_ & H & _) | (_ & ->)];
      [exact H | vm_compute; tauto].
  - unfold type_recognized.
    destruct (slug_of_type (type_document e)) as [(Hin & _ & Hne) | (Hn & ->)].
    + split; [intros _; exact Hne|]. intros _. apply existsb_exists.
      exists (type_document e). split; [exact Hin | apply str_eqb_refl].
    + split; [|intro H; contradiction H; reflexivity].
      intro H. apply recognized_cases in H. contradiction.
Qed.

Section WithUnicode.
Context {U : Unicode}.

(** What the extractor returns is one of seven type names. *)
Lemma extract_type_document_values (texte : str) :
  In (extract_type_document texte)
     (RECOGNIZED_TYPES ++ [utf8 "inconnu"]).
Proof.
  unfold extract_type_document.
  repeat match goal with
         | |- context [if ?b then _ else _] => destruct b
         end; vm_compute; tauto.
Qed.

(** From the text to the file name: a text in which one of the keywords
    occurs gets a type that has a slug of its own and counts for the
    confidence; a text without any keyword gets the type "inconnu", the
    slug INCONNU and no weight for its type. *)
Theorem extract_type_document_slug (texte : str) (e : ExtractedData) :
  type_document e = extract_type_document texte ->
  (extract_type_document texte = utf8 "inconnu" <->
   forall kws,
     In kws [ KEYWORDS_AVOIR; KEYWORDS_FACTURE; KEYWORDS_DEVIS;
              KEYWORDS_COURRIER; KEYWORDS_PLAN; KEYWORDS_IMPOTS ] ->
     any_in kws (u_lower texte) = false)
  /\ (extract_type_document texte = utf8 "inconnu" <->
      get_type_doc_slug (ensure_type_doc e) = utf8 "INCONNU")
  /\ (extract_type_document texte = utf8 "inconnu" <->
      type_recognized e = false).
Proof.
  intro Ht.
  assert (G : get_type_doc_slug (ensure_type_doc e)
              = dict_get slug_map (type_document e) (utf8 "INCONNU"))
    by reflexivity.
  rewrite G. unfold type_recognized. rewrite Ht. clear G Ht.
  split; [|split].
  - unfold extract_type_document. cbn [In].
    destruct (any_in KEYWORDS_AVOIR (u_lower texte)) eqn:E1;
      [split; [vm_compute; discriminate
              | intro H; rewrite (H _ (or_introl eq_refl)) in E1; discriminate]|].
    destruct (any_in KEYWORDS_FACTURE (u_lower texte)) eqn:E2;
      [split; [vm_compute; discriminate
              | intro H; rewrite (H _ (or_intror (or_introl eq_refl))) in E2;
                discriminate]|].
    destruct (any_in KEYWORDS_DEVIS (u_lower texte)) eqn:E3;
      [split; [vm_compute; discriminate
              | intro H;
                rewrite (H _ (or_intror (or_intror (or_introl eq_refl)))) in E3;
                discriminate]|].
    destruct (any_in KEYWORDS_COURRIER (u_lower texte)) eqn:E4;
      [split; [vm_compute; discriminate
              | intro H;
                rewrite (H _ (or_intror (or_intror (or_intror
                                (or_introl eq_refl))))) in E4;
                discriminate]|].
    destruct (any_in KEYWORDS_PLAN (u_lower texte)) eqn:E5;
      [split; [vm_compute; discriminate
              | intro H;
                rewrite (H _ (or_intror (or_intror (or_intror (or_intror
                                (or_introl eq_refl)))))) in E5;
                discriminate]|].
    destruct (any_in KEYWORDS_IMPOTS (u_lower texte)) eqn:E6;
      [split; [vm_compute; discriminate
              | intro H;
                rewrite (H _ (or_intror (or_intror (or_intror (or_intror
                                (or_intror (or_introl eq_refl))))))) in E6;
                discriminate]|].
    split; [|reflexivity]. intros _ kws H.
    repeat (destruct H as [<- | H]; [assumption|]). contradiction.
  - pose proof (extract_type_document_values texte) as V.
    apply in_app_or in V. destruct V as [V | [<- | []]].
    + cbn [RECOGNIZED_TYPES map In] in V.
      repeat (destruct V as [<- | V];
              [split; vm_compute; discriminate|]).
      contradiction.
    + split; intros _; vm_compute; reflexivity.
  - pose proof (extract_type_document_values texte) as V.
    apply in_app_or in V. destruct V as [V | [<- | []]].
    + cbn [RECOGNIZED_TYPES map In] in V.
      repeat (destruct V as [<- | V];
              [split; vm_compute; discriminate|]).
      contradiction.
    + split; intros _; vm_compute; reflexivity.
Qed.

End WithUnicode.

(** A text that mentions a credit note. *)
Lemma extract_type_document_slug_witness :
  get_type_doc_slug (ensure_type_doc avoir_extracted) = utf8 "AVR"
  /\ (extract_type_document (U := Latin1) (utf8 "AVOIR sur facture 12")
      = utf8 "inconnu" <->
      type_recognized avoir_extracted = false).
Proof.
  split; [vm_compute; reflexivity|].
  exact (proj2 (proj2 (@extract_type_document_slug Latin1
                         (utf8 "AVOIR sur facture 12") avoir_extracted
                         eq_refl))).
Defined.

(** The confidence is 1.0 only when the five signals are all there with a
    resolved supplier, and 0.0 only when none is; without a resolved
    supplier it does not exceed 0.75, which is what a document of a
    supplier outside the mapping can reach. *)
Theorem compute_confidence_extremes (e : ExtractedData) :
  ((compute_confidence e =? 1)%float = true <->
   opt_truthy (fournisseur e) = true /\ is_some (date_doc e) = true
   /\ type_recognized e = true /\ opt_truthy (numero_facture e) = true
   /\ is_some (montant_ttc e) = true)
  /\ ((compute_confidence e =? 0)%float = true <->
      opt_truthy (fournisseur e) = false
      /\ opt_truthy (fournisseur_raw e) = false
      /\ is_some (date_doc e) = false /\ type_recognized e = false
      /\ opt_truthy (numero_facture e) = false
      /\ is_some (montant_ttc e) = false)
  /\ ((0.75 <? compute_confidence e)%float = true ->
      opt_truthy (fournisseur e) = true).
Proof.
  unfold compute_confidence.
  destruct (opt_truthy (fournisseur e)), (opt_truthy (fournisseur_raw e)),
    (is_some (date_doc e)), (type_recognized e),
    (opt_truthy (numero_facture e)), (is_some (montant_ttc e));
    vm_compute; intuition discriminate.
Qed.

End TypeFacts.
(* ================================================================== *)
(** * The shape of a slug and of an amount                              *)
(* ================================================================== *)

Module SlugShapeFacts.
Import Py Re Models Rules Spec PyFacts ReFacts SlugFacts.

Lemma slug_body_nil (U : Unicode) : slug_body [] = [].
Proof. reflexivity. Qed.

Section WithUnicode.
Context {U : Unicode} {L : UnicodeLaws U}.

(** Whatever the value, the slug is the untruncated one cut by the
    slice. *)
Lemma slugify_slice (value : str) (max_length : Z) :
  slugify value max_length =
  if (max_length =? 0)%Z then slug_body value
  else slice_to (slug_body value) max_length.
Proof.
  rewrite slugify_body. destruct value as [|c value]; [|reflexivity].
  cbn [truthy negb]. rewrite slug_body_nil. unfold slice_to.
  destruct (max_length =? 0)%Z; [reflexivity|].
  destruct (0 <=? max_length)%Z; rewrite firstn_nil; reflexivity.
Qed.

Lemma firstn_prefix (A : Type) (n : nat) (l : list A) :
  exists rest, l = firstn n l ++ rest.
Proof. exists (skipn n l). symmetry. apply firstn_skipn. Qed.

Lemma slugify_prefix (value : str) (max_length : Z) :
  exists rest, slug_body value = slugify value max_length ++ rest.
Proof.
  rewrite slugify_slice. destruct (max_length =? 0)%Z.
  - exists []. rewrite app_nil_r. reflexivity.
  - unfold slice_to. destruct (0 <=? max_length)%Z; apply firstn_prefix.
Qed.

Lemma slugify_chars (value : str) (max_length : Z) :
  Forall slug_char (slugify value max_length).
Proof.
  destruct (slugify_prefix value max_length) as [rest Hrest].
  pose proof (slug_body_chars value) as Hc.
  rewrite Hrest in Hc. apply Forall_app in Hc. tauto.
Qed.

(** A slug holds word characters only -- letters, digits, underscores --
    and none that is white space, a dash or a combining mark; it does
    not begin with an underscore.  It is the beginning of the slug that
    no length limits: its first [max_length] characters for a positive
    [max_length], all of it for 0, and all but its last [-max_length]
    characters for a negative one. *)
Theorem slugify_shape (value : str) (max_length : Z) :
  Forall slug_char (slugify value max_length)
  /\ startswith (slugify value max_length) (utf8 "_") = false
  /\ (exists rest, slug_body value = slugify value max_length ++ rest)
  /\ ((0 < max_length)%Z ->
      List.length (slugify value max_length)
      = Nat.min (Z.to_nat max_length) (List.length (slug_body value)))
  /\ slugify value 0 = slug_body value
  /\ ((max_length < 0)%Z ->
      List.length (slugify value max_length)
      = List.length (slug_body value) - Z.to_nat (- max_length)).
Proof.
  destruct (slugify_prefix value max_length) as [rest Hrest].
  pose proof (slug_body_chars value) as Hc.
  pose proof (slug_body_stripped value) as [Hs _].
  split; [|split; [|split; [|split; [|split]]]].
  - apply slugify_chars.
  - rewrite Hrest in Hs. change (utf8 "_") with [95%N] in *.
    destruct (slugify value max_length) as [|c t]; [reflexivity|].
    cbn [app lstrip_by existsb] in Hs. cbn [startswith].
    rewrite startswith_nil, andb_true_r.
    destruct (char_eqb 95%N c) eqn:E; [|reflexivity].
    apply char_eqb_eq in E. subst c. rewrite char_eqb_refl in Hs.
    cbn [orb] in Hs. exfalso.
    assert (Hl : forall s, List.length (lstrip_by (fun c =>
                    existsb (char_eqb c) [95%N]) s) <= List.length s).
    { induction s as [|z s IH]; [apply le_n|]. cbn [lstrip_by].
      destruct (existsb (char_eqb z) [95%N]); cbn [List.length];
        [apply le_S; exact IH | apply le_n]. }
    specialize (Hl (t ++ rest)). cbn [existsb] in Hl. rewrite Hs in Hl.
    cbn [List.length] in Hl. lia.
  - exists rest. exact Hrest.
  - intro Hn. rewrite slugify_slice. destruct (Z.eqb_spec max_length 0); [lia|].
    unfold slice_to. destruct (Z.leb_spec 0 max_length); [|lia].
    apply length_firstn.
  - rewrite slugify_slice. reflexivity.
  - intro Hn. rewrite slugify_slice. destruct (Z.eqb_spec max_length 0); [lia|].
    unfold slice_to. destruct (Z.leb_spec 0 max_length); [lia|].
    rewrite length_firstn. lia.
Qed.

End WithUnicode.

(** The name of a supplier, cut to ten characters. *)
Lemma slugify_shape_witness :
  slugify (U := Latin1) (utf8 "Électricité de France") 10 = utf8 "Electricit"
  /\ Forall (slug_char (U := Latin1))
            (slugify (U := Latin1) (utf8 "Électricité de France") 10)
  /\ List.length (slugify (U := Latin1) (utf8 "Électricité de France") 10)
     = Nat.min 10 (List.length
                     (slug_body (U := Latin1) (utf8 "Électricité de France"))).
Proof.
  split; [vm_compute; reflexivity|].
  destruct (@slugify_shape Latin1 Latin1_laws
              (utf8 "Électricité de France") 10)
    as (A & _ & _ & B & _).
  split; [exact A | apply B; lia].
Defined.

Example slugify_no_limit :
  slugify (U := Latin1) (utf8 "Électricité de France") 0
  = utf8 "Electricite_de_France".
Proof. vm_compute. reflexivity. Qed.

Example slugify_negative_limit :
  slugify (U := Latin1) (utf8 "Électricité de France") (-7)
  = utf8 "Electricite_de".
Proof. vm_compute. reflexivity. Qed.

End SlugShapeFacts.

Module MontantFacts.
Import Py Models Rules Spec PyFacts AmountFacts.

Lemma uint_digits (d : Decimal.uint) :
  Forall (fun c => (48 <= c <= 57)%N)
         (map N_of_ascii (list_ascii_of_string (NilEmpty.string_of_uint d))).
Proof.
  induction d; cbn [NilEmpty.string_of_uint list_ascii_of_string map];
    constructor; try exact IHd; cbn; lia.
Qed.

(** The decimal writing of a number holds digits only. *)
Lemma str_of_nat_digits (n : nat) :
  Forall (fun c => (48 <= c <= 57)%N) (str_of_nat n).
Proof.
  unfold str_of_nat, NilZero.string_of_uint.
  destruct (Nat.to_uint n) eqn:E;
    [repeat constructor; cbn; lia | rewrite <- E; apply uint_digits ..].
Qed.

Lemma zero_pad_digits (w : nat) (n : Z) :
  Forall (fun c => (48 <= c <= 57)%N) (zero_pad w n).
Proof.
  unfold zero_pad. apply Forall_app. split; [|apply str_of_nat_digits].
  apply Forall_forall. intros x Hx. apply repeat_spec in Hx. subst x. lia.
Qed.

Lemma flat_map_keep (x : char) (new s : str) :
  Forall (fun c => c <> x) s ->
  flat_map (fun c => if char_eqb x c then new else [c]) s = s.
Proof.
  induction 1 as [|c s Hc Hs IH]; [reflexivity|]. cbn [flat_map].
  destruct (char_eqb x c) eqn:E.
  - apply char_eqb_eq in E. congruence.
  - rewrite IH. reflexivity.
Qed.

Lemma digits_not (x : char) (s : str) :
  ~ (48 <= x <= 57)%N ->
  Forall (fun c => (48 <= c <= 57)%N) s -> Forall (fun c => c <> x) s.
Proof.
  intros Hx H. apply Forall_impl with (2 := H). intros c Hc E. subst c.
  contradiction.
Qed.

Lemma str_of_N_digits (n : N) :
  Forall (fun c => (48 <= c <= 57)%N) (str_of_N n).
Proof.
  unfold str_of_N, NilZero.string_of_uint.
  destruct (N.to_uint n) eqn:E;
    [repeat constructor; cbn; lia | rewrite <- E; apply uint_digits ..].
Qed.

(** The two replacements on a number written with a period: the period
    ends as an underscore and the digits stay. *)
Lemma replace_period (sign whole cents : str) :
  Forall (fun c => c = 45%N) sign ->
  Forall (fun c => (48 <= c <= 57)%N) whole ->
  Forall (fun c => (48 <= c <= 57)%N) cents ->
  replace (replace (sign ++ whole ++ utf8 "." ++ cents) (utf8 ".") (utf8 ","))
          (utf8 ",") (utf8 "_")
  = sign ++ whole ++ utf8 "_" ++ cents.
Proof.
  intros Hs D1 D2.
  change (utf8 ".") with [46%N]. change (utf8 ",") with [44%N].
  change (utf8 "_") with [95%N].
  rewrite !replace_one_char, !flat_map_app. cbn [flat_map app].
  rewrite char_eqb_refl. cbn [app flat_map]. rewrite char_eqb_refl.
  assert (N46 : ~ (48 <= 46 <= 57)%N) by lia.
  assert (N44 : ~ (48 <= 44 <= 57)%N) by lia.
  assert (S46 : Forall (fun c => c <> 46%N) sign).
  { apply Forall_impl with (2 := Hs). intros c ->. discriminate. }
  assert (S44 : Forall (fun c => c <> 44%N) sign).
  { apply Forall_impl with (2 := Hs). intros c ->. discriminate. }
  rewrite (flat_map_keep [44%N] S46), (flat_map_keep [95%N] S44),
    (flat_map_keep [44%N] (digits_not N46 D1)),
    (flat_map_keep [44%N] (digits_not N46 D2)),
    (flat_map_keep [95%N] (digits_not N44 D1)),
    (flat_map_keep [95%N] (digits_not N44 D2)).
  reflexivity.
Qed.

Lemma sign_dashes (s : bool) :
  Forall (fun c => c = 45%N) (if s then utf8 "-" else []).
Proof. destruct s; repeat constructor. Qed.

(** The amount of a file name, float by float: the sign, the whole part
    of the value rounded to hundredths, an underscore and two decimals
    for a number; "inf" and "nan" for the floats that are no numbers. *)
Lemma format_montant_shape (x : float) :
  _format_montant (Some x)
  = match Prim2SF x with
    | S754_nan => utf8 "nan"
    | S754_infinity s => (if s then utf8 "-" else []) ++ utf8 "inf"
    | S754_zero s => (if s then utf8 "-" else []) ++ utf8 "0_00"
    | S754_finite s m e =>
      let k := PyFloat.magnitude_hundredths m e in
      (if s then utf8 "-" else [])
      ++ str_of_N (Z.to_N (k / 100)) ++ utf8 "_" ++ zero_pad 2 (k mod 100)
    end.
Proof.
  unfold _format_montant, format_2f.
  destruct (Prim2SF x) as [s | s | | s m e].
  - destruct s; vm_compute; reflexivity.
  - destruct s; vm_compute; reflexivity.
  - vm_compute. reflexivity.
  - cbv zeta. apply replace_period;
      [apply sign_dashes | apply str_of_N_digits | apply zero_pad_digits].
Qed.

(** The characters of the amount of a file name. *)
Lemma format_montant_chars (x : char) (montant : option float) :
  In x (_format_montant montant) ->
  x = 95%N \/ x = 45%N \/ (48 <= x <= 57)%N \/ In x (utf8 "inf")
  \/ In x (utf8 "nan").
Proof.
  destruct montant as [q|].
  2:{ intro H. change (_format_montant None) with [48%N] in H.
      destruct H as [<- | []]. right. right. left. lia. }
  rewrite format_montant_shape.
  assert (Hsign : forall s : bool, In x (if s then utf8 "-" else []) ->
                                   x = 45%N).
  { intros s H. pose proof (sign_dashes s) as D. rewrite Forall_forall in D.
    exact (D _ H). }
  destruct (Prim2SF q) as [s | s | | s m e]; intro H.
  - apply in_app_or in H. destruct H as [H | H]; [right; left; eauto|].
    vm_compute in H. destruct H as [<- | [<- | [<- | [<- | []]]]];
      [right; right; left; lia | left; reflexivity
      | right; right; left; lia | right; right; left; lia].
  - apply in_app_or in H. destruct H as [H | H]; [right; left; eauto|].
    right. right. right. left. exact H.
  - right. right. right. right. exact H.
  - cbv zeta in H.
    apply in_app_or in H. destruct H as [H | H]; [right; left; eauto|].
    apply in_app_or in H. destruct H as [H | H].
    { pose proof (str_of_N_digits
                    (Z.to_N (PyFloat.magnitude_hundredths m e / 100))) as D.
      rewrite Forall_forall in D. right. right. left. exact (D _ H). }
    apply in_app_or in H. destruct H as [H | H].
    { destruct H as [<- | []]. left. reflexivity. }
    pose proof (zero_pad_digits 2
                  (PyFloat.magnitude_hundredths m e mod 100)) as D.
    rewrite Forall_forall in D. right. right. left. exact (D _ H).
Qed.

(** The amounts of [cents_bound] hundredths at most come back from the
    float that holds them: checked amount by amount. *)
Lemma small_amounts_exact :
  all_from exact_hundredths (Z.to_nat cents_bound) 0 = true.
Proof. vm_compute. reflexivity. Qed.

Lemma all_from_spec (P : Z -> bool) (n : nat) :
  forall k, all_from P n k = true ->
  forall j, (k <= j < k + Z.of_nat n)%Z -> P j = true.
Proof.
  induction n as [|n IH]; intros k H j Hj; [lia|].
  cbn [all_from] in H. apply andb_true_iff in H. destruct H as [H1 H2].
  destruct (Z.eq_dec j k) as [-> | Hne]; [exact H1|].
  apply (IH (k + 1)%Z H2). lia.
Qed.

(** The amount of a file name.  An amount read with two decimals,
    below 1000 euros, is written back with its own digits: its whole
    part, an underscore and its two decimals, through the float that
    holds it.  Whatever the float, neither a period nor a comma is left
    in the name.  Without an amount the name carries "0". *)
Theorem format_montant_hundredths (k : Z) :
  (0 <= k < cents_bound)%Z ->
  _format_montant (Some (PyFloat.of_decimal k 2))
  = str_of_N (Z.to_N (k / 100)) ++ utf8 "_" ++ zero_pad 2 (k mod 100)
  /\ (forall x : float,
        ~ In 46%N (_format_montant (Some x))
        /\ ~ In 44%N (_format_montant (Some x)))
  /\ _format_montant None = utf8 "0".
Proof.
  intro Hk. split; [|split; [|reflexivity]].
  - pose proof (@all_from_spec exact_hundredths _ _ small_amounts_exact k) as E.
    assert (Hr : (0 <= k < 0 + Z.of_nat (Z.to_nat cents_bound))%Z).
    { rewrite Z2Nat.id; [lia | unfold cents_bound; lia]. }
    specialize (E Hr). unfold exact_hundredths in E.
    rewrite format_montant_shape.
    destruct (Prim2SF (PyFloat.of_decimal k 2)) as [s | s | | s m e].
    + destruct s; [discriminate|]. apply Z.eqb_eq in E. subst k.
      vm_compute. reflexivity.
    + discriminate.
    + discriminate.
    + destruct s; [discriminate|]. apply Z.eqb_eq in E. cbv zeta.
      rewrite E. reflexivity.
  - intro x. split; intro H; apply format_montant_chars in H;
      destruct H as [H | [H | [H | [H | H]]]]; try lia;
      vm_compute in H; intuition discriminate.
Qed.

(** 1 234,56 euros are above the bound; 234,56 euros. *)
Lemma format_montant_hundredths_witness :
  _format_montant (Some (PyFloat.of_decimal 23456 2)) = utf8 "234_56".
Proof.
  assert (H : (0 <= 23456 < cents_bound)%Z) by (unfold cents_bound; lia).
  rewrite (proj1 (format_montant_hundredths H)). vm_compute. reflexivity.
Defined.

Example format_montant_small :
  _format_montant (Some 0.05%float) = utf8 "0_05".
Proof. vm_compute. reflexivity. Qed.

(** Beyond 2^53 hundredths the float is not the number that was read:
    90071992547409,93 is held as the float next to it and written with
    94 hundredths. *)
Example format_montant_rounded :
  _format_montant (Some (PyFloat.of_decimal 9007199254740993 2))
  = utf8 "90071992547409_94".
Proof. vm_compute. reflexivity. Qed.

(** An amount of four hundred digits is read as the infinite float. *)
Example format_montant_infinite :
  _format_montant (Some (PyFloat.of_decimal (10 ^ 400) 2)) = utf8 "inf".
Proof. vm_compute. reflexivity. Qed.

End MontantFacts.
(* ================================================================== *)
(** * The rule of a type and the destination directory                  *)
(* ================================================================== *)

Module RoutingFacts.
Import Py Re Models Rules Pathlib Routing Spec PyFacts AmountFacts NameFacts
       MovesFacts.

Section WithUnicode.
Context {U : Unicode}.

Lemma rule_of_type_first (type_document : str) (before after : list Regle)
  (r : Regle) :
  regle_key r = u_lower type_document ->
  (forall r', In r' before -> regle_key r' <> u_lower type_document) ->
  rule_of_type type_document (before ++ r :: after) = Some (regle_models r).
Proof.
  intros Hr. induction before as [|r0 before IH]; intro Hb; cbn [app rule_of_type].
  - rewrite Hr, str_eqb_refl. reflexivity.
  - destruct (str_eqb (regle_key r0) (u_lower type_document)) eqn:E.
    + apply str_eqb_eq in E. exfalso. exact (Hb r0 (or_introl eq_refl) E).
    + apply IH. intros r' H. apply Hb. right. exact H.
Qed.

Lemma rule_of_type_none (type_document : str) (regles : list Regle) :
  (forall r, In r regles -> regle_key r <> u_lower type_document) ->
  rule_of_type type_document regles = None.
Proof.
  induction regles as [|r0 regles IH]; intro H; [reflexivity|].
  cbn [rule_of_type].
  destruct (str_eqb (regle_key r0) (u_lower type_document)) eqn:E.
  - apply str_eqb_eq in E. exfalso. exact (H r0 (or_introl eq_refl) E).
  - apply IH. intros r' Hr. apply H. right. exact Hr.
Qed.

Lemma default_key_test (t : str) :
  str_eqb t (utf8 "défaut") || str_eqb t (utf8 "defaut")
  || str_eqb t (utf8 "default") = true <-> default_key t.
Proof.
  unfold default_key. rewrite !orb_true_iff, !str_eqb_eq. tauto.
Qed.

Lemma rule_by_default_first (before after : list Regle) (r : Regle) :
  default_key (regle_key r) ->
  (forall r', In r' before -> ~ default_key (regle_key r')) ->
  rule_by_default (before ++ r :: after) = Some (regle_models r).
Proof.
  intros Hr. induction before as [|r0 before IH]; intro Hb;
    cbn [app rule_by_default].
  - apply default_key_test in Hr. rewrite Hr. reflexivity.
  - destruct (str_eqb (regle_key r0) (utf8 "défaut")
              || str_eqb (regle_key r0) (utf8 "defaut")
              || str_eqb (regle_key r0) (utf8 "default")) eqn:E.
    + apply default_key_test in E. exfalso.
      exact (Hb r0 (or_introl eq_refl) E).
    + apply IH. intros r' H. apply Hb. right. exact H.
Qed.

Lemma rule_by_default_none (regles : list Regle) :
  (forall r, In r regles -> ~ default_key (regle_key r)) ->
  rule_by_default regles = None.
Proof.
  induction regles as [|r0 regles IH]; intro H; [reflexivity|].
  cbn [rule_by_default].
  destruct (str_eqb (regle_key r0) (utf8 "défaut")
            || str_eqb (regle_key r0) (utf8 "defaut")
            || str_eqb (regle_key r0) (utf8 "default")) eqn:E.
  - apply default_key_test in E. exfalso. exact (H r0 (or_introl eq_refl) E).
  - apply IH. intros r' Hr. apply H. right. exact Hr.
Qed.

(** The rule of a document: the first rule whose type, stripped and in
    lower case, is the type of the document in lower case, wherever the
    default rules stand; without such a rule, the first rule of type
    "défaut", "defaut" or "default"; without any, and without rules,
    none. *)
Theorem get_rule_for_type_priority (type_document : str)
  (regles : list Regle) :
  (forall before r after,
     regles = before ++ r :: after ->
     regle_key r = u_lower type_document ->
     (forall r', In r' before -> regle_key r' <> u_lower type_document) ->
     get_rule_for_type type_document (Some regles) = Some (regle_models r))
  /\ ((forall r, In r regles -> regle_key r <> u_lower type_document) ->
      (forall before r after,
         regles = before ++ r :: after ->
         default_key (regle_key r) ->
         (forall r', In r' before -> ~ default_key (regle_key r')) ->
         get_rule_for_type type_document (Some regles)
         = Some (regle_models r))
      /\ ((forall r, In r regles -> ~ default_key (regle_key r)) ->
          get_rule_for_type type_document (Some regles) = None))
  /\ get_rule_for_type type_document (Some []) = None
  /\ get_rule_for_type type_document None = None.
Proof.
  split; [|split; [|split; reflexivity]].
  - intros before r after E Hr Hb. subst regles. unfold get_rule_for_type.
    rewrite (@rule_of_type_first type_document before after r Hr Hb).
    destruct before; reflexivity.
  - intro Hn. split.
    + intros before r after E Hr Hb. unfold get_rule_for_type.
      rewrite (@rule_of_type_none type_document regles Hn). subst regles.
      rewrite (@rule_by_default_first before after r Hr Hb).
      destruct before; reflexivity.
    + intro Hd. unfold get_rule_for_type.
      rewrite (@rule_of_type_none type_document regles Hn), (@rule_by_default_none regles Hd).
      destruct regles; reflexivity.
Qed.

(** ** The destination directory *)

Lemma split_slash_no_slash (s : str) :
  forall cur, ~ In 47%N cur ->
  Forall (fun c => ~ In 47%N c) (split_slash cur s).
Proof.
  induction s as [|c s IH]; intros cur Hc; cbn [split_slash].
  - constructor; [|constructor]. intro H. apply in_rev in H. exact (Hc H).
  - destruct (char_eqb c 47%N) eqn:E.
    + constructor; [intro H; apply in_rev in H; exact (Hc H)|].
      apply IH. intros [].
    + apply IH. intros [H | H]; [|exact (Hc H)].
      subst c. rewrite char_eqb_refl in E. discriminate.
Qed.

Lemma split_slash_chars (x : char) (s : str) :
  forall cur c, In c (split_slash cur s) -> In x c -> In x cur \/ In x s.
Proof.
  induction s as [|a s IH]; intros cur c Hc Hx; cbn [split_slash] in Hc.
  - destruct Hc as [<- | []]. left. apply in_rev. exact Hx.
  - destruct (char_eqb a 47%N).
    + destruct Hc as [<- | Hc]; [left; apply in_rev; exact Hx|].
      destruct (IH [] c Hc Hx) as [[] | H]. right. right. exact H.
    + destruct (IH (a :: cur) c Hc Hx) as [[H | H] | H].
      * right. left. exact H.
      * left. exact H.
      * right. right. exact H.
Qed.

(** A path joined with "." is the path; joined with another component,
    the path with one part more. *)
Lemma joinpath_component (d : Path) (c : str) :
  c <> [] -> ~ In 47%N c ->
  joinpath d c
  = {| absolute := absolute d;
       parts := parts d ++ (if str_eqb c (utf8 ".") then [] else [c]) |}.
Proof.
  intros Hne Hs. destruct (str_eqb c (utf8 ".")) eqn:E.
  - apply str_eqb_eq in E. subst c. reflexivity.
  - apply joinpath_simple. repeat split; auto.
    intro H. subst c. rewrite str_eqb_refl in E. discriminate.
Qed.

Lemma joinpath_all_components (l : list str) :
  Forall (fun c => c <> [] /\ ~ In 47%N c) l ->
  forall root,
    joinpath_all root l
    = {| absolute := absolute root;
         parts := parts root
                  ++ filter (fun c => negb (str_eqb c (utf8 "."))) l |}.
Proof.
  induction 1 as [|c l [Hne Hs] Hl IH]; intro root.
  - cbn [joinpath_all fold_left filter]. rewrite app_nil_r.
    destruct root. reflexivity.
  - unfold joinpath_all in *. cbn [fold_left filter]. rewrite IH.
    rewrite (@joinpath_component root c Hne Hs). cbn [absolute parts].
    destruct (str_eqb c (utf8 ".")); cbn [negb];
      rewrite <- app_assoc; reflexivity.
Qed.

(** The parts of the destination directory: those of the root, then the
    components of the rendered model, whose characters are characters of
    the rendered model. *)
Lemma destination_components (racine_destination : Path)
  (modele_chemin : str) (extracted : ExtractedData) (config : option Config) :
  absolute (build_destination_path racine_destination modele_chemin
              extracted config)
  = absolute racine_destination
  /\ exists comps,
       parts (build_destination_path racine_destination modele_chemin
                extracted config)
       = parts racine_destination ++ comps
       /\ Forall component comps
       /\ forall c x, In c comps -> In x c ->
            In x (apply_template modele_chemin
                    (build_placeholders extracted config)).
Proof.
  unfold build_destination_path.
  set (path_part := apply_template modele_chemin
                      (build_placeholders extracted config)).
  clearbody path_part.
  set (l := filter truthy (split_slash [] (replace path_part [92%N] (utf8 "/")))).
  assert (Hrep : forall x, In x (replace path_part [92%N] (utf8 "/")) ->
                           x <> 92%N /\ (x = 47%N \/ In x path_part)).
  { intros x Hx. rewrite replace_one_char in Hx. apply in_flat_map in Hx.
    destruct Hx as [c [Hc Hx]]. destruct (char_eqb 92%N c) eqn:E.
    - destruct Hx as [<- | []]. split; [discriminate | left; reflexivity].
    - destruct Hx as [<- | []]. split; [|right; exact Hc].
      intro H. subst c. rewrite char_eqb_refl in E. discriminate. }
  assert (Hl : Forall (fun c => c <> [] /\ ~ In 47%N c) l).
  { apply Forall_forall. intros c Hc. apply filter_In in Hc.
    destruct Hc as [Hc Ht]. split; [destruct c; [discriminate | discriminate]|].
    pose proof (@split_slash_no_slash (replace path_part [92%N] (utf8 "/")) []
                  (fun H => H)) as F.
    rewrite Forall_forall in F. exact (F c Hc). }
  rewrite (@joinpath_all_components l Hl). cbn [absolute parts].
  split; [reflexivity|]. eexists. split; [reflexivity|]. split.
  - apply Forall_forall. intros c Hc. apply filter_In in Hc.
    destruct Hc as [Hc Hdot]. rewrite Forall_forall in Hl.
    destruct (Hl c Hc) as [Hne Hs].
    split; [exact Hne|]. split; [exact Hs|]. split.
    + intro H. apply filter_In in Hc. destruct Hc as [Hc _].
      destruct (@split_slash_chars 92%N _ _ _ Hc H) as [[] | H2].
      apply Hrep in H2. destruct H2 as [H2 _]. congruence.
    + intro H. subst c. rewrite str_eqb_refl in Hdot. discriminate Hdot.
  - intros c x Hc Hx. apply filter_In in Hc. destruct Hc as [Hc _].
    apply filter_In in Hc. destruct Hc as [Hc _].
    destruct (@split_slash_chars x _ _ _ Hc Hx) as [[] | H2].
    destruct (Hrep x H2) as [_ [H3 | H3]]; [|exact H3].
    subst x. exfalso.
    pose proof (@split_slash_no_slash (replace path_part [92%N] (utf8 "/")) []
                  (fun H => H)) as F.
    rewrite Forall_forall in F. exact (F c Hc Hx).
Qed.

(** The destination directory is the root followed by the components of
    the rendered model, cut at its slashes and backslashes: the root is
    never replaced, and every further part is a name that is not empty,
    holds no separator, and is not ".". *)
Theorem build_destination_path_below_root (racine_destination : Path)
  (modele_chemin : str) (extracted : ExtractedData) (config : option Config) :
  let dest :=
    build_destination_path racine_destination modele_chemin extracted config in
  absolute dest = absolute racine_destination
  /\ exists comps,
       parts dest = parts racine_destination ++ comps
       /\ Forall component comps.
Proof.
  cbv zeta.
  destruct (destination_components racine_destination modele_chemin
              extracted config) as (Ha & comps & Hp & Hc & _).
  split; [exact Ha|]. exists comps. split; assumption.
Qed.

End WithUnicode.

Example get_rule_for_type_specific :
  get_rule_for_type (U := Latin1) (utf8 "avoir") (Some sample_regles)
  = Some (utf8 "Avoirs/{fournisseur}/{YYYY}", utf8 "{YYYY}-{MM}-{DD}_{numero}").
Proof. vm_compute. reflexivity. Qed.

Example get_rule_for_type_default :
  get_rule_for_type (U := Latin1) (utf8 "devis") (Some sample_regles)
  = Some (utf8 "Divers/{YYYY}", []).
Proof. vm_compute. reflexivity. Qed.

Example build_destination_path_rendered :
  build_destination_path (U := Latin1) (abs_path ["srv"; "docs"]%string)
    (utf8 "Factures\{fournisseur}//{YYYY}/./{MM}/") sample_extracted None
  = abs_path ["srv"; "docs"; "Factures"; "EDF"; "2024"; "03"]%string.
Proof. vm_compute. reflexivity. Qed.

End RoutingFacts.
(* ================================================================== *)
(** * Templates: no placeholder is left                                 *)
(* ================================================================== *)

Module TemplateFacts.
Import Py Re Models Rules Spec PyFacts MatchFacts ReFacts SlugFacts AmountFacts.

(** A greedy repetition before a continuation that fails on every
    character of the class: giving characters back never helps, so the
    continuation is tried once, after the longest run. *)
Lemma rep_then (A : Type) (p : char -> bool) (k : cont A) (s : str)
  (g : list (nat * str)) :
  (forall q c s' g', p c = true -> k q (c :: s') g' = None) ->
  forall (lo : nat) (prev : option char),
    rep p lo None prev s g k =
    if lo <=? List.length (run_of p s)
    then k (last (map Some (run_of p s)) prev) (lstrip_by p s) g
    else None.
Proof.
  intro Hk. induction s as [|c s IH]; intros lo prev.
  - cbn [rep run_of lstrip_by List.length map last]. destruct lo; reflexivity.
  - cbn [rep run_of lstrip_by]. destruct (p c) eqn:E.
    + cbn [hi_open andb dec_hi List.length map]. rewrite IH.
      rewrite last_cons_default.
      destruct lo as [|lo]; cbn [Nat.pred Nat.leb].
      * rewrite (Hk prev c s g E).
        destruct (k (last (map Some (run_of p s)) (Some c)) (lstrip_by p s) g);
          reflexivity.
      * destruct (lo <=? List.length (run_of p s)); [|reflexivity].
        destruct (k (last (map Some (run_of p s)) (Some c)) (lstrip_by p s) g);
          reflexivity.
    + cbn [andb List.length map last]. destruct lo; reflexivity.
Qed.

Lemma lstrip_inner (s : str) :
  lstrip_by inner s = [] \/ exists r, lstrip_by inner s = 125%N :: r.
Proof.
  induction s as [|c s IH]; [left; reflexivity|]. cbn [lstrip_by].
  destruct (inner c) eqn:E; [exact IH|]. right. exists s.
  unfold inner, is_char in E. apply negb_false_iff in E.
  apply char_eqb_eq in E. subst c. reflexivity.
Qed.

Lemma run_of_inner (s : str) : ~ In 125%N (run_of inner s).
Proof.
  induction s as [|c s IH]; [intros []|]. cbn [run_of].
  destruct (inner c) eqn:E; [|intros []]. intros [H | H]; [|exact (IH H)].
  subst c. discriminate.
Qed.

(** Where the pattern of the unresolved placeholders matches. *)
Lemma unresolved_match (prev : option char) (s : str) :
  match_here unresolved_re prev s =
  match s with
  | c :: s' =>
    if char_eqb c 123%N && truthy (run_of inner s')
       && startswith (lstrip_by inner s') [125%N]
    then Some {| m_groups := []; m_text := c :: run_of inner s' ++ [125%N] |}
    else None
  | [] => None
  end.
Proof.
  unfold match_here, unresolved_re. cbn [seqs run].
  destruct s as [|c s']; [reflexivity|]. unfold is_char at 1.
  destruct (char_eqb c 123%N); [|reflexivity]. cbn [andb].
  change (fun c0 : char => negb (is_char 125%N c0)) with inner.
  rewrite rep_then.
  2:{ intros q x t g' Hx. unfold inner in Hx. apply negb_true_iff in Hx.
      rewrite Hx. reflexivity. }
  destruct (run_of inner s') as [|b body] eqn:Eb; [reflexivity|].
  cbn [List.length Nat.leb truthy andb].
  destruct (lstrip_inner s') as [El | [r El]]; rewrite El; [reflexivity|].
  cbn [startswith]. unfold is_char. rewrite !char_eqb_refl, startswith_nil.
  cbn [andb]. f_equal. f_equal.
  pose proof (run_of_split inner s') as Hs. rewrite Eb, El in Hs.
  pose proof (consumed_suffix (c :: (b :: body) ++ [125%N]) r) as Hc.
  cbn [app] in Hc. rewrite <- app_assoc in Hc. cbn [app] in Hc.
  rewrite Hs. cbn [app]. exact Hc.
Qed.

Lemma placeholder_at_test (c : char) (s : str) :
  char_eqb c 123%N && truthy (run_of inner s)
  && startswith (lstrip_by inner s) [125%N] = true
  <-> placeholder_at (c :: s).
Proof.
  split.
  - intro H. apply andb_true_iff in H. destruct H as [H H3].
    apply andb_true_iff in H. destruct H as [H1 H2].
    apply char_eqb_eq in H1. subst c.
    destruct (lstrip_inner s) as [El | [r El]]; rewrite El in H3;
      [discriminate|].
    exists (run_of inner s), r. split; [|split].
    + f_equal. rewrite <- El. apply run_of_split.
    + destruct (run_of inner s); [discriminate | discriminate].
    + apply run_of_inner.
  - intros (body & rest & E & Hne & Hin). injection E as -> ->.
    rewrite char_eqb_refl. cbn [andb].
    assert (R : run_of inner (body ++ 125%N :: rest) = body
                /\ lstrip_by inner (body ++ 125%N :: rest) = 125%N :: rest).
    { clear Hne. induction body as [|b body IH]; [split; reflexivity|].
      cbn [app run_of lstrip_by].
      assert (Hb : inner b = true).
      { unfold inner, is_char. apply negb_true_iff.
        destruct (char_eqb b 125%N) eqn:E; [|reflexivity].
        apply char_eqb_eq in E. subst b. exfalso. apply Hin. left.
        reflexivity. }
      rewrite Hb. destruct IH as [IH1 IH2];
        [intro H; apply Hin; right; exact H|].
      rewrite IH1, IH2. split; reflexivity. }
    destruct R as [-> ->]. cbn [startswith]. rewrite char_eqb_refl.
    destruct body; [congruence|]. cbn [truthy andb]. apply startswith_nil.
Qed.

Lemma has_placeholder_cons (c : char) (s : str) :
  has_placeholder (c :: s) <-> placeholder_at (c :: s) \/ has_placeholder s.
Proof.
  split.
  - intros (a & t & E & H). destruct a as [|x a].
    + cbn [app] in E. subst t. left. exact H.
    + injection E as -> ->. right. exists a, t. split; [reflexivity | exact H].
  - intros [H | (a & t & E & H)].
    + exists [], (c :: s). split; [reflexivity | exact H].
    + exists (c :: a), t. subst s. split; [reflexivity | exact H].
Qed.

Lemma has_placeholder_nil : ~ has_placeholder [].
Proof.
  intros (a & t & E & (body & rest & Et & _)). subst t.
  destruct a; discriminate.
Qed.

(** The search finds nothing exactly in the strings without
    placeholder. *)
Lemma unresolved_search_none (s : str) :
  forall prev, search_from unresolved_re prev s = None <-> ~ has_placeholder s.
Proof.
  induction s as [|c s IH]; intro prev; cbn [search_from];
    rewrite unresolved_match.
  - split; [intros _; exact has_placeholder_nil | reflexivity].
  - rewrite has_placeholder_cons.
    destruct (char_eqb c 123%N && truthy (run_of inner s)
              && startswith (lstrip_by inner s) [125%N]) eqn:E.
    + apply placeholder_at_test in E. split; [discriminate | tauto].
    + rewrite IH. split.
      * intros H [H1 | H1]; [|exact (H H1)].
        apply placeholder_at_test in H1. congruence.
      * tauto.
Qed.

(** What a substitution by the empty string leaves comes from the
    string. *)
Lemma sub_from_chars (r : re) (x : char) (s : str) :
  forall prev skip, In x (sub_from r [] prev skip s) -> In x s.
Proof.
  induction s as [|c s IH]; intros prev skip H; [exact H|].
  cbn [sub_from] in H. destruct skip as [|n].
  - destruct (match_here r prev (c :: s)) as [m|].
    + destruct (m_text m) as [|y t].
      * destruct H as [H | H]; [left; exact H | right; exact (IH _ _ H)].
      * cbn [app] in H. right. exact (IH _ _ H).
    + destruct H as [H | H]; [left; exact H | right; exact (IH _ _ H)].
  - right. exact (IH _ _ H).
Qed.

(** Passing the characters of a match. *)
Lemma sub_from_skip (r : re) (repl : str) (a s : str) :
  forall prev, exists prev',
    sub_from r repl prev (List.length a) (a ++ s) = sub_from r repl prev' 0 s.
Proof.
  induction a as [|c a IH]; intro prev.
  - exists prev. destruct s; reflexivity.
  - cbn [List.length app sub_from]. apply IH.
Qed.

(** After the substitution no placeholder is left. *)
Lemma sub_unresolved (n : nat) :
  forall s, List.length s <= n ->
  forall prev, ~ has_placeholder (sub_from unresolved_re [] prev 0 s).
Proof.
  induction n as [|n IH]; intros s Hn prev.
  - destruct s; [exact has_placeholder_nil | cbn [List.length] in Hn; lia].
  - destruct s as [|c s]; [exact has_placeholder_nil|].
    cbn [List.length] in Hn. cbn [sub_from]. rewrite unresolved_match.
    destruct (char_eqb c 123%N && truthy (run_of inner s)
              && startswith (lstrip_by inner s) [125%N]) eqn:E.
    + cbn [m_text app]. apply placeholder_at_test in E.
      destruct E as (body & rest & E & _ & Hb). injection E as _ ->.
      assert (R : run_of inner (body ++ 125%N :: rest) = body).
      { clear - Hb. induction body as [|b body IHb]; [reflexivity|].
        cbn [app run_of].
        assert (Hx : inner b = true).
        { unfold inner, is_char. apply negb_true_iff.
          destruct (char_eqb b 125%N) eqn:E; [|reflexivity].
          apply char_eqb_eq in E. subst b. exfalso. apply Hb. left.
          reflexivity. }
        rewrite Hx, IHb; [reflexivity|]. intro H. apply Hb. right. exact H. }
      rewrite R.
      replace (body ++ 125%N :: rest) with ((body ++ [125%N]) ++ rest)
        by (rewrite <- app_assoc; reflexivity).
      destruct (sub_from_skip unresolved_re [] (body ++ [125%N]) rest (Some c))
        as [prev' E].
      match goal with
      | |- ~ has_placeholder ?X =>
        assert (EX : X = sub_from unresolved_re [] prev' 0 rest) by exact E;
        rewrite EX
      end.
      apply IH. rewrite !length_app in Hn. cbn [List.length] in Hn.
      unfold str, char in *. lia.
    + rewrite has_placeholder_cons. intros [H | H].
      * (* the brace kept would open a placeholder *)
        destruct H as (body & rest & Er & Hne & Hb). injection Er as -> Er.
        rewrite char_eqb_refl in E. cbn [andb] in E.
        destruct (lstrip_inner s) as [El | [r El]].
        -- (* no closing brace follows *)
           assert (Hin : In 125%N (body ++ 125%N :: rest))
             by (apply in_or_app; right; left; reflexivity).
           rewrite <- Er in Hin. apply sub_from_chars in Hin.
           pose proof (run_of_split inner s) as Hs. rewrite El, app_nil_r in Hs.
           rewrite Hs in Hin. exact (run_of_inner s Hin).
        -- (* a closing brace follows at once *)
           rewrite El in E. cbn [startswith] in E.
           rewrite char_eqb_refl, startswith_nil, andb_true_r in E.
           destruct (run_of inner s) as [|b0 run] eqn:Erun; [|discriminate].
           pose proof (run_of_split inner s) as Hs. rewrite Erun, El in Hs.
           cbn [app] in Hs. subst s. cbn [sub_from] in Er.
           rewrite unresolved_match in Er. cbn [char_eqb N.eqb andb] in Er.
           destruct body as [|b body]; [congruence|].
           cbn [app] in Er. injection Er as <- _. apply Hb. left. reflexivity.
      * exact (IH s (le_S_n _ _ Hn) (Some c) H).
Qed.

Lemma has_placeholder_inside (a t b : str) :
  has_placeholder t -> has_placeholder (a ++ t ++ b).
Proof.
  intros (x & u & E & (body & rest & Eu & Hne & Hb)). subst t u.
  exists (a ++ x), (123%N :: body ++ 125%N :: rest ++ b). split.
  - rewrite <- !app_assoc. cbn [app]. rewrite <- app_assoc. reflexivity.
  - exists body, (rest ++ b). repeat split; auto.
Qed.

Lemma strip_by_inside (p : char -> bool) (s : str) :
  exists a b, s = a ++ strip_by p s ++ b.
Proof.
  unfold strip_by, rstrip_by.
  destruct (lstrip_by_suffix p s) as [a Ha].
  destruct (lstrip_by_suffix p (rev (lstrip_by p s))) as [b Hb].
  exists a, (rev b). rewrite <- rev_app_distr, <- Hb, rev_involutive.
  exact Ha.
Qed.

Section WithUnicode.
Context {U : Unicode}.

(** A rendered template holds no placeholder: whatever the template and
    the values, no opening brace of the result is followed by characters
    other than closing braces and then by a closing brace, and the
    pattern of the unresolved placeholders finds nothing in it. *)
Theorem apply_template_resolved (template : str)
  (placeholders : list (str * str)) :
  ~ has_placeholder (apply_template template placeholders)
  /\ search unresolved_re (apply_template template placeholders) = None.
Proof.
  assert (H : ~ has_placeholder (apply_template template placeholders)).
  { unfold apply_template, strip, strip_chars.
    match goal with
    | |- context [sub unresolved_re [] ?r] =>
      assert (Ht : ~ has_placeholder (sub unresolved_re [] r))
        by (apply (@sub_unresolved (List.length r) r (le_n _)));
      set (t := sub unresolved_re [] r) in *
    end.
    set (p1 := fun c : char => existsb (char_eqb c) (utf8 "/")).
    set (p2 := fun c : char => existsb (char_eqb c) [92%N]).
    destruct (strip_by_inside p1 t) as (a1 & b1 & E1).
    destruct (strip_by_inside p2 (strip_by p1 t)) as (a2 & b2 & E2).
    destruct (strip_by_inside u_space (strip_by p2 (strip_by p1 t)))
      as (a3 & b3 & E3).
    intro H. apply Ht. rewrite E1. apply has_placeholder_inside.
    rewrite E2. apply has_placeholder_inside.
    rewrite E3. apply has_placeholder_inside. exact H. }
  split; [exact H|]. apply unresolved_search_none. exact H.
Qed.

End WithUnicode.

Example apply_template_unknown_key :
  apply_template (U := Latin1) (utf8 "{YYYY}/{inconnue}/{MM}")
    (build_placeholders (U := Latin1) sample_extracted None)
  = utf8 "2024//03".
Proof. vm_compute. reflexivity. Qed.

Example apply_template_braces_kept :
  apply_template (U := Latin1) (utf8 "a{}b{c")
    (build_placeholders (U := Latin1) sample_extracted None)
  = utf8 "a{}b{c".
Proof. vm_compute. reflexivity. Qed.

End TemplateFacts.
(* ================================================================== *)
(** * What a document can put into a path                               *)
(* ================================================================== *)

Module ConfinedFacts.
Import Py Re Models Rules Pathlib Classify Routing Spec PyFacts AmountFacts
       SlugFacts TypeFacts SlugShapeFacts MontantFacts TemplateFacts
       RoutingFacts.

Lemma replace_from_chars (old new : str) (x : char) (s : str) :
  forall skip, In x (replace_from old new skip s) -> In x s \/ In x new.
Proof.
  induction s as [|c s IH]; intros skip H; [contradiction|].
  cbn [replace_from] in H. destruct skip as [|n].
  - destruct (startswith (c :: s) old).
    + apply in_app_or in H. destruct H as [H | H]; [right; exact H|].
      destruct (IH _ H) as [H1 | H1]; [left; right; exact H1 | right; exact H1].
    + destruct H as [H | H]; [left; left; exact H|].
      destruct (IH _ H) as [H1 | H1]; [left; right; exact H1 | right; exact H1].
  - destruct (IH _ H) as [H1 | H1]; [left; right; exact H1 | right; exact H1].
Qed.

(** A replacement brings in characters of the new string only. *)
Lemma replace_chars (s old new : str) (x : char) :
  In x (replace s old new) -> In x s \/ In x new.
Proof.
  unfold replace. destruct old; [left; assumption|]. apply replace_from_chars.
Qed.

Lemma replace_char_gone (s new : str) (x : char) :
  ~ In x new -> ~ In x (replace s [x] new).
Proof.
  intros Hn H. rewrite replace_one_char in H. apply in_flat_map in H.
  destruct H as [c [_ H]]. destruct (char_eqb x c) eqn:E; [exact (Hn H)|].
  destruct H as [<- | []]. rewrite char_eqb_refl in E. discriminate.
Qed.

Section WithUnicode.
Context {U : Unicode} {L : UnicodeLaws U}.

(** The characters of a rendered template are characters of the
    template or of a value. *)
Lemma apply_template_chars (x : char) (placeholders : list (str * str)) :
  forall template,
    In x (apply_template template placeholders) ->
    In x template \/ exists kv, In kv placeholders /\ In x (snd kv).
Proof.
  intros template H. unfold apply_template, strip, strip_chars in H.
  do 3 apply strip_by_in in H. apply sub_from_chars in H.
  revert template H.
  induction placeholders as [|kv placeholders IH]; intros template H;
    [left; exact H|].
  cbn [fold_left] in H. apply IH in H. destruct H as [H | (kv' & Hk & H)].
  - apply replace_chars in H. destruct H as [H | H]; [left; exact H|].
    right. exists kv. split; [left; reflexivity | exact H].
  - right. exists kv'. split; [right; exact Hk | exact H].
Qed.

Lemma dict_set_values (P : str -> Prop) (k v : str) (d : list (str * str)) :
  P v -> Forall (fun kv => P (snd kv)) d ->
  Forall (fun kv => P (snd kv)) (dict_set d k v).
Proof.
  intros Hv. induction 1 as [|[k' v'] d Hk Hd IH]; cbn [dict_set].
  - constructor; [exact Hv | constructor].
  - destruct (str_eqb k' k); constructor; auto.
Qed.

Lemma add_cle_values (x : char) (item : CleItem) (out : list (str * str)) :
  cle_free x item ->
  Forall (fun kv => ~ In x (snd kv)) out ->
  Forall (fun kv => ~ In x (snd kv)) (add_cle out item).
Proof.
  intros Hi Ho.
  assert (G : forall c v : str,
            ~ In x c -> ~ In x v ->
            Forall (fun kv => ~ In x (snd kv))
              (if truthy (strip c)
               then dict_set out (strip c)
                      (if truthy (strip v) then strip v else strip c)
               else out)).
  { intros c v Hc Hv. destruct (truthy (strip c)); [|exact Ho].
    apply (@dict_set_values (fun w => ~ In x w)); [|exact Ho].
    destruct (truthy (strip v)); intro H; apply strip_by_in in H; auto. }
  destruct item as [cle valeur | items |]; cbn [add_cle]; [| |exact Ho].
  - destruct Hi as [H1 H2]. apply G; assumption.
  - destruct items as [|c [|v items]]; [exact Ho | exact Ho|].
    destruct Hi as [H1 H2]. apply G; assumption.
Qed.

Lemma fold_add_cle_values (x : char) (l : list CleItem) :
  Forall (cle_free x) l ->
  forall out,
    Forall (fun kv => ~ In x (snd kv)) out ->
    Forall (fun kv => ~ In x (snd kv)) (fold_left add_cle l out).
Proof.
  induction 1 as [|item l Hi Hl IH]; intros out Hout; [exact Hout|].
  cbn [fold_left]. apply IH. apply add_cle_values; assumption.
Qed.

Lemma slug_avoids (x : char) (value : str) (max_length : Z) :
  foreign x -> ~ In x (slugify value max_length).
Proof.
  intros (Ha & H95 & _) H.
  pose proof (@slugify_chars U L value max_length) as Hc.
  rewrite Forall_forall in Hc. destruct (Hc _ H) as (Hw & _).
  unfold is_word in Hw. rewrite Ha in Hw. cbn [orb] in Hw.
  apply char_eqb_eq in Hw. congruence.
Qed.

Lemma flat_map_char (x : char) (f : char -> str) (s : str) :
  In x (flat_map f s) -> exists c, In c s /\ In x (f c).
Proof. intro H. apply in_flat_map in H. exact H. Qed.

Lemma slugs_capitals :
  forallb (forallb (in_range 65 90)) SLUGS = true.
Proof. vm_compute. reflexivity. Qed.

Lemma slug_label_avoids (x : char) (e : ExtractedData) :
  foreign x -> ~ In x (get_type_doc_slug (ensure_type_doc e)).
Proof.
  intros (_ & _ & _ & _ & Hcap & _) H.
  assert (Hs : In (get_type_doc_slug (ensure_type_doc e)) SLUGS).
  { change (get_type_doc_slug (ensure_type_doc e))
      with (dict_get slug_map (type_document e) (utf8 "INCONNU")).
    destruct (slug_of_type (type_document e))
      as [(_ & H1 & _) | (_ & ->)]; [exact H1 | vm_compute; tauto]. }
  pose proof slugs_capitals as T. rewrite forallb_forall in T.
  specialize (T _ Hs). rewrite forallb_forall in T. specialize (T _ H).
  apply in_range_spec in T. exact (Hcap T).
Qed.

(** No value of the placeholders holds a character that is foreign to
    them, when the label of the type and the keys of the user do not. *)
Lemma placeholders_avoid (x : char) (extracted : ExtractedData)
  (config : option Config) :
  foreign x ->
  ~ In x (get_type_doc_slug extracted) ->
  (forall cfg, config = Some cfg ->
               Forall (cle_free x) (cles_personnalisees cfg)) ->
  Forall (fun kv => ~ In x (snd kv)) (build_placeholders extracted config).
Proof.
  intros Hx Hslug Hcfg. unfold build_placeholders.
  assert (Hd : forall w n, ~ In x (zero_pad w n)).
  { intros w n H. pose proof (zero_pad_digits w n) as D.
    rewrite Forall_forall in D. specialize (D _ H).
    destruct Hx as (_ & _ & _ & Hdig & _). exact (Hdig D). }
  assert (Hz : forall s : str, Forall (fun c => c = 48%N) s -> ~ In x s).
  { intros s Hs H. rewrite Forall_forall in Hs. specialize (Hs _ H).
    destruct Hx as (_ & _ & _ & Hdig & _). apply Hdig. lia. }
  match goal with
  | |- Forall _ (match config with
                 | Some cfg => fold_left add_cle _ ?out
                 | None => _
                 end) =>
    assert (Hout : Forall (fun kv => ~ In x (snd kv)) out)
  end.
  { repeat constructor; cbn [snd].
    - apply slug_avoids. exact Hx.
    - apply slug_avoids. exact Hx.
    - destruct (str_eqb (get_type_doc_slug extracted) (utf8 "IMPOTS"));
        apply slug_avoids; exact Hx.
    - destruct (date_doc extracted) as [d|]; [apply Hd|].
      apply Hz. repeat constructor.
    - destruct (date_doc extracted) as [d|]; [apply Hd|].
      apply Hz. repeat constructor.
    - destruct (date_doc extracted) as [d|]; [apply Hd|].
      apply Hz. repeat constructor.
    - apply slug_avoids. exact Hx.
    - intro H. apply format_montant_chars in H.
      destruct Hx as (_ & H95 & H45 & Hdig & _ & Hlow).
      destruct H as [H | [H | [H | [H | H]]]];
        [exact (H95 H) | exact (H45 H) | exact (Hdig H) | ..];
        apply Hlow; vm_compute in H; intuition (subst x; lia).
    - exact Hslug. }
  destruct config as [cfg|]; [|exact Hout].
  apply fold_add_cle_values; [exact (Hcfg cfg eq_refl) | exact Hout].
Qed.

Lemma foreign_period : u_alnum 46%N = false -> foreign 46%N.
Proof. intro H. unfold foreign. repeat split; [exact H | lia ..]. Qed.

Lemma foreign_slash : u_alnum 47%N = false -> foreign 47%N.
Proof. intro H. unfold foreign. repeat split; [exact H | lia ..]. Qed.

(** What a document holds cannot steer its file out of the destination:
    with a model of path without period, and keys of the user without
    period, the destination directory is the root followed by components
    that hold neither a separator nor a period -- none of them is ".."
    -- whatever the supplier, the number, the date and the amount read
    from the document.  The period must not count as a letter or digit,
    which holds for Unicode. *)
Theorem build_destination_path_confined (racine_destination : Path)
  (modele_chemin : str) (extracted : ExtractedData) (config : option Config) :
  u_alnum 46%N = false ->
  ~ In 46%N modele_chemin ->
  (forall cfg, config = Some cfg ->
               Forall (cle_free 46%N) (cles_personnalisees cfg)) ->
  exists comps,
    parts (build_destination_path racine_destination modele_chemin
             (ensure_type_doc extracted) config)
    = parts racine_destination ++ comps
    /\ Forall (fun c => component c /\ ~ In 46%N c) comps
    /\ ~ In (utf8 "..") comps.
Proof.
  intros Ha Hm Hcfg.
  destruct (destination_components racine_destination modele_chemin
              (ensure_type_doc extracted) config)
    as (_ & comps & Hp & Hc & Hx).
  pose proof (@placeholders_avoid 46%N (ensure_type_doc extracted) config
                (foreign_period Ha)
                (slug_label_avoids extracted (foreign_period Ha)) Hcfg) as Hv.
  assert (Hall : Forall (fun c => component c /\ ~ In 46%N c) comps).
  { apply Forall_forall. intros c Hin. rewrite Forall_forall in Hc.
    split; [exact (Hc c Hin)|]. intro H46.
    specialize (Hx c 46%N Hin H46). apply apply_template_chars in Hx.
    destruct Hx as [Hx | (kv & Hk & Hx)]; [exact (Hm Hx)|].
    rewrite Forall_forall in Hv. exact (Hv kv Hk Hx). }
  exists comps. split; [exact Hp|]. split; [exact Hall|].
  intro H. rewrite Forall_forall in Hall. destruct (Hall _ H) as [_ H2].
  apply H2. left. reflexivity.
Qed.

(** With a model of file name without slash, and keys of the user
    without slash, the file name is a plain name: not empty, not ".",
    without separator, whatever was read from the document; so the file
    lands in the destination directory itself.  The slash must not count
    as a letter or digit and the lower case of "." must be ".", which
    holds for Unicode. *)
Theorem build_destination_filename_plain (modele_nom_fichier : str)
  (extracted : ExtractedData) (config : option Config) :
  u_alnum 47%N = false ->
  u_lower (utf8 ".") = utf8 "." ->
  ~ In 47%N modele_nom_fichier ->
  (forall cfg, config = Some cfg ->
               Forall (cle_free 47%N) (cles_personnalisees cfg)) ->
  simple_name (build_destination_filename modele_nom_fichier
                 (ensure_type_doc extracted) config).
Proof.
  intros Ha Hdot Hm Hcfg.
  pose proof (@placeholders_avoid 47%N (ensure_type_doc extracted) config
                (foreign_slash Ha)
                (slug_label_avoids extracted (foreign_slash Ha)) Hcfg) as Hv.
  assert (Hn : ~ In 47%N (apply_template modele_nom_fichier
                            (build_placeholders (ensure_type_doc extracted)
                               config))).
  { intro H. apply apply_template_chars in H.
    destruct H as [H | (kv & Hk & H)]; [exact (Hm H)|].
    rewrite Forall_forall in Hv. exact (Hv kv Hk H). }
  unfold build_destination_filename.
  set (name := apply_template modele_nom_fichier
                 (build_placeholders (ensure_type_doc extracted) config)) in *.
  clearbody name.
  destruct (endswith (u_lower name) (utf8 ".pdf")) eqn:E; cbn [negb].
  - split; [|split; [|exact Hn]].
    + intro H. subst name. rewrite lower_nil in E. discriminate E.
    + intro H. subst name. rewrite Hdot in E. discriminate E.
  - split; [|split].
    + intro H. apply (f_equal (@List.length char)) in H.
      rewrite length_app in H. cbn in H. lia.
    + intro H. apply (f_equal (@List.length char)) in H.
      rewrite length_app in H. cbn in H. lia.
    + intro H. apply in_app_or in H. destruct H as [H | H]; [exact (Hn H)|].
      vm_compute in H. intuition discriminate.
Qed.

End WithUnicode.

(** A supplier name and an invoice number written to climb out of the
    root end as plain names under it. *)
Lemma build_destination_path_confined_witness :
  build_destination_path (U := Latin1) (abs_path ["srv"; "docs"]%string)
    (utf8 "Factures/{fournisseur}/{YYYY}/{numero}")
    (ensure_type_doc climbing_extracted) None
  = abs_path ["srv"; "docs"; "Factures"; "etc_cron_d"; "2024"; "A_1"]%string
  /\ exists comps,
       parts (build_destination_path (U := Latin1)
                (abs_path ["srv"; "docs"]%string)
                (utf8 "Factures/{fournisseur}/{YYYY}/{numero}")
                (ensure_type_doc climbing_extracted) None)
       = parts (abs_path ["srv"; "docs"]%string) ++ comps
       /\ ~ In (utf8 "..") comps.
Proof.
  split; [vm_compute; reflexivity|].
  destruct (@build_destination_path_confined Latin1 Latin1_laws
              (abs_path ["srv"; "docs"]%string)
              (utf8 "Factures/{fournisseur}/{YYYY}/{numero}")
              climbing_extracted None)
    as (comps & Hp & _ & Hn).
  - reflexivity.
  - vm_compute. intuition discriminate.
  - intros cfg H. discriminate.
  - exists comps. split; assumption.
Defined.

(** The same document under the usual model of file name. *)
Lemma build_destination_filename_plain_witness :
  build_destination_filename (U := Latin1)
    (utf8 "{YYYY}-{MM}-{DD}_{type_doc}_{fournisseur}_{numero}_{montant}.pdf")
    (ensure_type_doc climbing_extracted) None
  = utf8 "2024-03-15_FACT_etc_cron_d_A_1_10_50.pdf"
  /\ simple_name
       (build_destination_filename (U := Latin1)
          (utf8 "{YYYY}-{MM}-{DD}_{type_doc}_{fournisseur}_{numero}_{montant}.pdf")
          (ensure_type_doc climbing_extracted) None).
Proof.
  split; [vm_compute; reflexivity|].
  apply (@build_destination_filename_plain Latin1 Latin1_laws).
  - reflexivity.
  - reflexivity.
  - vm_compute. intuition discriminate.
  - intros cfg H. discriminate.
Defined.

End ConfinedFacts.
(* ================================================================== *)
(** * The three moves of mover.py                                       *)
(* ================================================================== *)

Module RelocationFacts.
Import Py Pathlib Os Models Mover Spec PyFacts PathFacts NameFacts MoverFacts
       MovesFacts.

Lemma kept_but_refl (src : Path) (fs : FS) : kept_but src fs fs.
Proof. intros q k H _. exact H. Qed.

Lemma kept_but_app (src : Path) (fs fs' more : FS) :
  kept_but src fs fs' -> kept_but src fs (fs' ++ more).
Proof. intros H q k Hin Hq. apply in_or_app. left. exact (H q k Hin Hq). Qed.

(** The filesystem after a file has gone from [src] to a free path [p]:
    the file is at [p], no more at [src], and every other entry is
    there. *)
Lemma moved_state (fs : FS) (src p : Path) :
  exists_ fs p = false -> is_file fs src = true ->
  let fs' := remove (remove fs src) p ++ [(p, File)] in
  is_file fs' p = true /\ is_file fs' src = false /\ kept_but src fs fs'.
Proof.
  intros Hp Hs fs'.
  assert (Hne : src <> p).
  { intro E. subst p. apply is_file_exists in Hs. congruence. }
  split; [|split].
  - apply is_file_in. apply in_or_app. right. left. reflexivity.
  - destruct (is_file fs' src) eqn:E; [|reflexivity]. exfalso.
    apply is_file_in in E. apply in_app_or in E. destruct E as [E | [E | []]].
    + apply in_remove in E. destruct E as [E _]. apply in_remove in E.
      destruct E as [_ E]. apply E. reflexivity.
    + injection E as E. congruence.
  - intros q k Hin Hq. apply in_or_app. left. apply in_remove. split.
    + apply in_remove. split; assumption.
    + intro E. subst q.
      assert (X : exists_ fs p = true).
      { apply exists_in. right. apply in_map_iff. exists (p, k).
        split; [reflexivity | exact Hin]. }
      congruence.
Qed.

Section WithFaults.
Variable os : Faults.

(** ** [move_to_destination] *)

(** What a move to a destination does to the filesystem.  Whatever
    happens, no entry but that of the source is lost, and the result
    names the source, the directory and the data it was called with.
    When the result says [moved], the source was a file and is one no
    more; for a file name without separator, [dest_path()] of the result
    is then the path of the file, and nothing existed there before.  A
    dry run changes nothing and reports nothing. *)
Theorem move_to_destination_effect (fs fs' : FS) (source_path dest_dir : Path)
  (dest_filename : str) (extracted : ExtractedData) (r : ProcessingResult) :
  move_to_destination os source_path dest_dir dest_filename extracted false fs
  = Ok r fs' ->
  kept_but source_path fs fs'
  /\ Mover.source_path r = source_path /\ Mover.dest_dir r = dest_dir
  /\ Mover.extracted r = extracted
  /\ (moved r = true ->
      is_file fs source_path = true /\ is_file fs' source_path = false)
  /\ (moved r = true -> simple_name dest_filename ->
      is_file fs' (dest_path r) = true /\ exists_ fs (dest_path r) = false)
  /\ move_to_destination os source_path dest_dir dest_filename extracted true fs
     = Ok {| Mover.source_path := source_path; Mover.dest_dir := dest_dir;
             Mover.dest_filename := dest_filename;
             Mover.extracted := extracted;
             moved := false; error := None |} fs.
Proof.
  unfold move_to_destination. rewrite is_file_query.
  destruct (stat_raises os source_path); [discriminate|].
  set (found := is_file fs source_path) at 1.
  assert (Esrc : is_file fs source_path = found) by reflexivity.
  clearbody found. destruct found; cbn [negb].
  2:{ unfold ret. intros [= <- <-]. cbn [moved with_error Mover.source_path
        Mover.dest_dir Mover.extracted].
      repeat split; try discriminate; try reflexivity. apply kept_but_refl. }
  unfold try_except.
  match goal with
  | |- context [bind (_ensure_dir os ?d)
                  (fun _ => bind (_unique_path os ?d ?base)
                     (fun final => bind (shutil_move os ?src final)
                                        (fun _ => @?k final)))] =>
    destruct (@relocation os ProcessingResult k fs src d base Esrc)
      as [(e & more & -> & _) | (dirs & p & Hu & Hfree & _ & _ & ->)]
  end.
  - unfold ret. intros [= <- <-]. cbn [moved with_error Mover.source_path
      Mover.dest_dir Mover.extracted].
    repeat split; try discriminate; try reflexivity.
    apply kept_but_app. apply kept_but_refl.
  - cbv beta.
    set (r0 := with_moved _ (name p)).
    set (fs2 := remove (remove (fs ++ dirs) source_path) p ++ [(p, File)]).
    destruct (@moved_state (fs ++ dirs) source_path p Hfree
                (is_file_app fs dirs source_path Esrc)) as (Hp & Hs & Hk).
    fold fs2 in Hp, Hs, Hk.
    assert (Ep : simple_name dest_filename ->
                 joinpath dest_dir (name p) = p).
    { intro Hsimple.
      destruct (unique_path_cases os (fs ++ dirs) dest_dir dest_filename)
        as [(x & q & Hr & _) | (p' & Hu' & _ & _ & H0 & H1)].
      { rewrite Hu in Hr. discriminate Hr. }
      rewrite Hu in Hu'. injection Hu' as <-.
      destruct (exists_ (fs ++ dirs) (joinpath dest_dir dest_filename)) eqn:Ed.
      - destruct (H1 eq_refl) as (i & Hi & Hpi & _).
        destruct i as [|i]; [lia|].
        rewrite (@landing_candidate dest_dir dest_filename i Hsimple) in Hpi.
        subst p. unfold landing.
        rewrite name_joinpath_simple
          by (apply landing_name_simple; exact Hsimple).
        reflexivity.
      - rewrite (H0 eq_refl).
        rewrite (@name_joinpath_simple dest_dir dest_filename Hsimple).
        reflexivity. }
    assert (Hall : forall r1,
              Mover.source_path r1 = source_path ->
              Mover.dest_dir r1 = dest_dir ->
              Mover.dest_filename r1 = name p ->
              Mover.extracted r1 = extracted ->
              kept_but source_path fs fs2
              /\ Mover.source_path r1 = source_path
              /\ Mover.dest_dir r1 = dest_dir
              /\ Mover.extracted r1 = extracted
              /\ (moved r1 = true ->
                  is_file fs source_path = true
                  /\ is_file fs2 source_path = false)
              /\ (moved r1 = true -> simple_name dest_filename ->
                  is_file fs2 (dest_path r1) = true
                  /\ exists_ fs (dest_path r1) = false)).
    { intros r1 H1 H2 H3 H4.
      split; [|split; [exact H1|split; [exact H2|split; [exact H4|]]]].
      - intros q k Hin Hq.
        apply Hk; [apply in_or_app; left; exact Hin | exact Hq].
      - split; [intros _; split; [exact Esrc | exact Hs]|].
        intros _ Hsimple. unfold dest_path. rewrite H2, H3, (Ep Hsimple).
        split; [exact Hp | exact (free_before fs dirs p Hfree)]. }
    destruct (log_move_cases os source_path p r0 fs2)
      as [(-> & _) | (e & -> & _)]; unfold ret; intros [= <- <-];
      [ destruct (Hall r0 eq_refl eq_refl eq_refl eq_refl)
          as (K1 & K2 & K3 & K4 & K5 & K6)
      | destruct (Hall (with_error r0 (exc_str e)) eq_refl eq_refl eq_refl
                    eq_refl) as (K1 & K2 & K3 & K4 & K5 & K6) ];
      exact (conj K1 (conj K2 (conj K3 (conj K4 (conj K5 (conj K6 eq_refl)))))).
Qed.

(** ** [move_to_failed] *)

(** A move to the quarantine raises exactly what the test of its source
    raised, and otherwise returns.  When it answers a path, the source
    was a file and is one no more, the file is at that path, where
    nothing existed, and the path is the directory joined with the name
    of the source marked _FAILED before its extension, or with that name
    numbered.  When it answers nothing, a source that was there is still
    there, unless the file was moved and the resolution of a path for
    the log raised: the file is then at such a path of the quarantine,
    where nothing existed.  No other entry is ever lost, and a dry run
    only announces a path. *)
Theorem move_to_failed_outcome (fs : FS) (source_path dossier_failed : Path)
  (error_message : str) :
  let base := stem source_path ++ utf8 "_FAILED" ++ suffix source_path in
  let dest := joinpath dossier_failed base in
  let placed p :=
    p = dest
    \/ exists i,
         1 <= i
         /\ p = joinpath dossier_failed
                  (candidate_name (stem dest) (suffix dest) i) in
  (forall e,
     stat_raises os source_path = Some e ->
     move_to_failed os source_path dossier_failed error_message false fs
     = Raised e fs)
  /\ (stat_raises os source_path = None ->
      exists o fs',
        move_to_failed os source_path dossier_failed error_message false fs
        = Ok o fs'
        /\ kept_but source_path fs fs'
        /\ (forall p, o = Some p ->
              is_file fs source_path = true /\ is_file fs' source_path = false
              /\ exists_ fs p = false /\ is_file fs' p = true /\ placed p)
        /\ (o = None -> is_file fs source_path = true ->
            is_file fs' source_path = true
            \/ (is_file fs' source_path = false
                /\ exists p,
                     exists_ fs p = false /\ is_file fs' p = true /\ placed p
                     /\ (resolve_fault os p <> None
                         \/ resolve_fault os source_path <> None))))
  /\ move_to_failed os source_path dossier_failed error_message true fs
     = Ok (Some (joinpath dossier_failed
                   (name source_path ++ utf8 "_FAILED"))) fs.
Proof.
  intros base dest placed. split; [|split; [|reflexivity]].
  { intros e He. unfold move_to_failed. rewrite is_file_query, He.
    reflexivity. }
  intro Hq. unfold move_to_failed. rewrite is_file_query, Hq.
  set (found := is_file fs source_path) at 1.
  assert (Esrc : is_file fs source_path = found) by reflexivity.
  clearbody found. destruct found; cbn [negb].
  2:{ exists None, fs. split; [reflexivity|]. split; [apply kept_but_refl|].
      split; [discriminate|]. intros _ H. congruence. }
  unfold try_except. cbv zeta. fold base.
  destruct (@relocation os (option Path)
              (fun final_path =>
                 bind (Path_resolve os final_path)
                      (fun _ => bind (Path_resolve os source_path)
                                     (fun _ => ret (Some final_path))))
              fs source_path dossier_failed base Esrc)
    as [(e & more & -> & _) | (dirs & p & Hu & Hfree & _ & _ & ->)].
  - exists None, (fs ++ more). split; [reflexivity|].
    split; [apply kept_but_app; apply kept_but_refl|].
    split; [discriminate|].
    intros _ _. left. apply is_file_app. exact Esrc.
  - destruct (@moved_state (fs ++ dirs) source_path p Hfree
                (is_file_app fs dirs source_path Esrc)) as (Hp & Hs & Hk).
    set (fs2 := remove (remove (fs ++ dirs) source_path) p ++ [(p, File)]) in *.
    assert (Hkept : kept_but source_path fs fs2).
    { intros q k Hin Hq'.
      apply Hk; [apply in_or_app; left; exact Hin | exact Hq']. }
    assert (Hplaced : placed p).
    { destruct (unique_path_cases os (fs ++ dirs) dossier_failed base)
        as [(x & q & Hr & _) | (p' & Hu' & _ & _ & H0 & H1)].
      { rewrite Hu in Hr. discriminate Hr. }
      rewrite Hu in Hu'. injection Hu' as <-.
      destruct (exists_ (fs ++ dirs) (joinpath dossier_failed base)) eqn:Ed.
      - right. destruct (H1 eq_refl) as (i & Hi & Hpi & _). exists i.
        split; assumption.
      - left. exact (H0 eq_refl). }
    unfold bind, Path_resolve, raise, ret.
    destruct (resolve_fault os p) as [e1|] eqn:E1.
    { exists None, fs2. split; [reflexivity|]. split; [exact Hkept|].
      split; [discriminate|]. intros _ _. right. split; [exact Hs|].
      exists p. split; [exact (free_before fs dirs p Hfree)|].
      split; [exact Hp|]. split; [exact Hplaced|]. left. congruence. }
    destruct (resolve_fault os source_path) as [e2|] eqn:E2.
    { exists None, fs2. split; [reflexivity|]. split; [exact Hkept|].
      split; [discriminate|]. intros _ _. right. split; [exact Hs|].
      exists p. split; [exact (free_before fs dirs p Hfree)|].
      split; [exact Hp|]. split; [exact Hplaced|]. right. congruence. }
    exists (Some p), fs2. split; [reflexivity|]. split; [exact Hkept|].
    split; [|discriminate].
    intros p' [= <-]. split; [exact Esrc|]. split; [exact Hs|].
    split; [exact (free_before fs dirs p Hfree)|]. split; [exact Hp|].
    exact Hplaced.
Qed.

(** ** [move_to_a_classer] *)

Variable write_fault : Path -> list (str * Serialize.value) -> option (str * bool).
Variable value_error_text : Path -> str -> str.

(** Writing the metadata never raises out of the block: it answers, and
    only adds to the filesystem; when it answers no exception, the file
    of the metadata exists. *)
Lemma dump_metadata_cases (final_path : Path) (extracted : ExtractedData)
  (fs : FS) :
  exists o more,
    dump_metadata write_fault value_error_text final_path extracted fs
    = Ok o (fs ++ more)
    /\ (o = None ->
        exists meta_path,
          with_suffix final_path (suffix final_path ++ utf8 ".json")
          = Some meta_path
          /\ is_file (fs ++ more) meta_path = true).
Proof.
  unfold dump_metadata.
  destruct (with_suffix final_path (suffix final_path ++ utf8 ".json"))
    as [meta_path|].
  2:{ eexists. exists []. rewrite app_nil_r. split; [reflexivity | discriminate]. }
  unfold bind, get_fs, put_fs, ret.
  destruct (write_fault meta_path (Serialize.to_dict extracted))
    as [[text created]|].
  - destruct (created && negb (exists_ fs meta_path)).
    + eexists. eexists. split; [reflexivity | discriminate].
    + eexists. exists []. rewrite app_nil_r. split; [reflexivity | discriminate].
  - destruct (is_dir fs meta_path);
      [eexists; exists []; rewrite app_nil_r; split;
       [reflexivity | discriminate]|].
    destruct (negb (is_dir fs (parent meta_path)));
      [eexists; exists []; rewrite app_nil_r; split;
       [reflexivity | discriminate]|].
    destruct (is_file fs meta_path) eqn:Ef.
    + exists None, []. rewrite app_nil_r. split; [reflexivity|].
      intros _. exists meta_path. split; [reflexivity | exact Ef].
    + exists None, [(meta_path, File)]. split; [reflexivity|].
      intros _. exists meta_path. split; [reflexivity|].
      apply is_file_in. apply in_or_app. right. left. reflexivity.
Qed.

(** A move to the directory of the documents to sort raises exactly what
    the test of its source raised, and otherwise returns; it loses no
    entry but that of the source.  When the result does not say
    [moved], it carries a non-empty error and a source that was there is
    still there.  When it says [moved], the source was a file, and the
    file is at a path where nothing existed, under the name the result
    carries; an error beside [moved] then means that the metadata were
    asked for and could not be written, or that the resolution of a path
    for the log raised; without error, the file of the metadata, when
    asked for, exists beside the moved file. *)
Theorem move_to_a_classer_outcome (fs : FS) (timestamp : str)
  (source_path dossier_a_classer : Path) (extracted : ExtractedData)
  (write_metadata : bool) :
  (forall e,
     stat_raises os source_path = Some e ->
     move_to_a_classer os write_fault value_error_text timestamp source_path
       dossier_a_classer extracted false write_metadata fs = Raised e fs)
  /\ (stat_raises os source_path = None ->
      exists r fs',
        move_to_a_classer os write_fault value_error_text timestamp
          source_path dossier_a_classer extracted false write_metadata fs
        = Ok r fs'
        /\ kept_but source_path fs fs'
        /\ (moved r = false ->
            (exists msg, error r = Some msg /\ msg <> [])
            /\ (is_file fs source_path = true ->
                is_file fs' source_path = true))
        /\ (moved r = true ->
            is_file fs source_path = true
            /\ exists final_path,
                 Mover.dest_filename r = name final_path
                 /\ exists_ fs final_path = false
                 /\ is_file fs' final_path = true
                 /\ (error r <> None ->
                     write_metadata = true
                     \/ resolve_fault os final_path <> None
                     \/ resolve_fault os source_path <> None)
                 /\ (error r = None -> write_metadata = true ->
                     exists meta_path,
                       with_suffix final_path
                         (suffix final_path ++ utf8 ".json")
                       = Some meta_path
                       /\ is_file fs' meta_path = true))).
Proof.
  split.
  { intros e He. unfold move_to_a_classer. rewrite is_file_query, He.
    reflexivity. }
  intro Hq. unfold move_to_a_classer. rewrite is_file_query, Hq.
  set (found := is_file fs source_path) at 1.
  assert (Esrc : is_file fs source_path = found) by reflexivity.
  clearbody found. destruct found; cbn [negb].
  2:{ eexists. eexists. split; [reflexivity|]. cbn [moved error with_error].
      split; [apply kept_but_refl|]. split; [|discriminate].
      intros _. split; [|intro H; congruence]. eexists.
      split; [reflexivity | apply missing_source_text]. }
  unfold try_except.
  match goal with
  | |- context [bind (_ensure_dir os ?d)
                  (fun _ => bind (_unique_path os ?d ?base)
                     (fun final => bind (shutil_move os ?src final)
                                        (fun _ => @?k final)))] =>
    destruct (@relocation os ProcessingResult k fs src d base Esrc)
      as [(e & more & -> & _) | (dirs & p & Hu & Hfree & _ & _ & ->)]
  end.
  - eexists. eexists. split; [reflexivity|]. cbn [moved error with_error].
    split; [apply kept_but_app; apply kept_but_refl|]. split; [|discriminate].
    intros _. split.
    + eexists. split; [reflexivity|]. apply exc_str_nonempty.
    + intros _. apply is_file_app. exact Esrc.
  - cbv beta zeta.
    destruct (@moved_state (fs ++ dirs) source_path p Hfree
                (is_file_app fs dirs source_path Esrc)) as (Hp & Hs & Hk).
    set (fs2 := remove (remove (fs ++ dirs) source_path) p ++ [(p, File)]) in *.
    set (r0 := with_moved _ (name p)).
    assert (Hk2 : forall more, kept_but source_path fs (fs2 ++ more)).
    { intros more q k Hin Hq'. apply in_or_app. left.
      apply Hk; [apply in_or_app; left; exact Hin | exact Hq']. }
    assert (Hfin : forall (r : ProcessingResult) (more : FS),
              moved r = true -> Mover.dest_filename r = name p ->
              (error r <> None ->
               write_metadata = true
               \/ resolve_fault os p <> None
               \/ resolve_fault os source_path <> None) ->
              (error r = None -> write_metadata = true ->
               exists meta_path,
                 with_suffix p (suffix p ++ utf8 ".json") = Some meta_path
                 /\ is_file (fs2 ++ more) meta_path = true) ->
              kept_but source_path fs (fs2 ++ more)
              /\ (moved r = false ->
                  (exists msg, error r = Some msg /\ msg <> [])
                  /\ (is_file fs source_path = true ->
                      is_file (fs2 ++ more) source_path = true))
              /\ (moved r = true ->
                  is_file fs source_path = true
                  /\ exists final_path,
                       Mover.dest_filename r = name final_path
                       /\ exists_ fs final_path = false
                       /\ is_file (fs2 ++ more) final_path = true
                       /\ (error r <> None ->
                           write_metadata = true
                           \/ resolve_fault os final_path <> None
                           \/ resolve_fault os source_path <> None)
                       /\ (error r = None -> write_metadata = true ->
                           exists meta_path,
                             with_suffix final_path
                               (suffix final_path ++ utf8 ".json")
                             = Some meta_path
                             /\ is_file (fs2 ++ more) meta_path = true))).
    { intros r more Hm Hn He Hmeta. split; [apply Hk2|].
      split; [intro H; congruence|]. intros _. split; [exact Esrc|].
      exists p. split; [exact Hn|].
      split; [exact (free_before fs dirs p Hfree)|].
      split; [apply is_file_app; exact Hp|]. split; [exact He | exact Hmeta]. }
    assert (Hlog : forall more,
              (forall meta_path,
                 write_metadata = true ->
                 with_suffix p (suffix p ++ utf8 ".json") = Some meta_path ->
                 is_file (fs2 ++ more) meta_path = true) ->
              (write_metadata = true ->
               exists meta_path,
                 with_suffix p (suffix p ++ utf8 ".json") = Some meta_path) ->
              exists r,
                log_move os source_path p r0 (fs2 ++ more)
                = Ok r (fs2 ++ more)
                /\ moved r = true /\ Mover.dest_filename r = name p
                /\ (error r <> None ->
                    write_metadata = true
                    \/ resolve_fault os p <> None
                    \/ resolve_fault os source_path <> None)
                /\ (error r = None -> write_metadata = true ->
                    exists meta_path,
                      with_suffix p (suffix p ++ utf8 ".json")
                      = Some meta_path
                      /\ is_file (fs2 ++ more) meta_path = true)).
    { intros more Hmeta Hex.
      destruct (log_move_cases os source_path p r0 (fs2 ++ more))
        as [(-> & _) | (e & -> & He)].
      - exists r0. split; [reflexivity|]. split; [reflexivity|].
        split; [reflexivity|].
        split; [intro H; contradiction H; reflexivity|].
        intros _ Hw. destruct (Hex Hw) as [m Hm]. exists m.
        split; [exact Hm | exact (Hmeta m Hw Hm)].
      - eexists. split; [reflexivity|]. split; [reflexivity|].
        split; [reflexivity|]. split; [|discriminate].
        intros _. right. destruct He as [He | He]; [left | right]; congruence. }
    destruct write_metadata.
    + unfold bind at 1.
      destruct (dump_metadata_cases p extracted fs2) as (o & more & -> & Ho).
      destruct o as [text|].
      * unfold ret. eexists. eexists. split; [reflexivity|].
        apply Hfin; try reflexivity.
        -- intros _. left. reflexivity.
        -- discriminate.
      * destruct (Ho eq_refl) as (m & Hm & Hfile).
        destruct (Hlog more) as (r & -> & H1 & H2 & H3 & H4).
        -- intros m' _ Hm'. rewrite Hm in Hm'. injection Hm' as <-.
           exact Hfile.
        -- intros _. exists m. exact Hm.
        -- eexists. eexists. split; [reflexivity|].
           apply Hfin; assumption.
    + destruct (Hlog []) as (r & Hrun & H1 & H2 & H3 & H4).
      * intros m' H. discriminate H.
      * intro H. discriminate H.
      * rewrite app_nil_r in Hrun. rewrite Hrun.
        eexists. eexists. split; [reflexivity|].
        rewrite <- (app_nil_r fs2). apply Hfin; assumption.
Qed.

End WithFaults.

(** One file moved to the directory where "facture.pdf" stands. *)
Lemma move_to_destination_effect_witness :
  exists r fs',
    move_to_destination no_faults (abs_path ["inbox"; "a.pdf"]%string)
      (abs_path ["out"; "EDF"]%string) (utf8 "facture.pdf") sample_extracted
      false sample_fs = Ok r fs'
    /\ dest_path r = abs_path ["out"; "EDF"; "facture_1.pdf"]%string
    /\ is_file fs' (dest_path r) = true
    /\ is_file fs' (abs_path ["inbox"; "a.pdf"]%string) = false
    /\ is_file fs' (abs_path ["out"; "EDF"; "facture.pdf"]%string) = true.
Proof.
  destruct (move_to_destination no_faults (abs_path ["inbox"; "a.pdf"]%string)
              (abs_path ["out"; "EDF"]%string) (utf8 "facture.pdf")
              sample_extracted false sample_fs) as [r fs'| |] eqn:E;
    [|vm_compute in E; discriminate ..].
  exists r, fs'. split; [reflexivity|].
  destruct (@move_to_destination_effect no_faults _ _ _ _ _ _ _ E)
    as (Hk & _ & _ & _ & Hm & Hd & _).
  assert (Hmoved : moved r = true)
    by (vm_compute in E; injection E as <- _; reflexivity).
  destruct (Hm Hmoved) as [_ Hs]. destruct (Hd Hmoved facture_simple) as [Hf _].
  split; [vm_compute in E; injection E as <- _; vm_compute; reflexivity|].
  split; [exact Hf|]. split; [exact Hs|].
  apply is_file_in. apply Hk; [vm_compute; tauto|].
  intro H. discriminate.
Defined.

(** With a full disk the file is moved to A_CLASSER before the metadata
    fail: the result says [moved] and carries an error, and [main.py],
    which reads the error, reports a failure for a file that has left the
    inbox. *)
Example move_to_a_classer_moved_with_error :
  match move_to_a_classer no_faults disk_full no_value_error
          (utf8 "20240315_101500") (abs_path ["inbox"; "a.pdf"]%string)
          (abs_path ["out"; "A_CLASSER"]%string) sample_extracted false true
          sample_fs with
  | Ok r fs' =>
    moved r = true
    /\ error r = Some (utf8 "[Errno 28] No space left on device")
    /\ Mover.dest_filename r = utf8 "20240315_101500_A_CLASSER_a.pdf"
    /\ is_file fs' (abs_path ["inbox"; "a.pdf"]%string) = false
    /\ is_file fs' (dest_path r) = true
  | _ => False
  end.
Proof. vm_compute. repeat split; reflexivity. Qed.

Example move_to_a_classer_metadata :
  match move_to_a_classer no_faults no_write_fault no_value_error
          (utf8 "20240315_101500") (abs_path ["inbox"; "a.pdf"]%string)
          (abs_path ["out"; "A_CLASSER"]%string) sample_extracted false true
          sample_fs with
  | Ok r fs' =>
    moved r = true /\ error r = None
    /\ is_file fs'
         (abs_path ["out"; "A_CLASSER";
                    "20240315_101500_A_CLASSER_a.pdf.json"]%string) = true
  | _ => False
  end.
Proof. vm_compute. repeat split; reflexivity. Qed.

Example move_to_failed_name :
  match move_to_failed no_faults (abs_path ["inbox"; "a.pdf"]%string)
          (abs_path ["out"; "FAILED"]%string) (utf8 "illisible") false
          sample_fs with
  | Ok o _ => o = Some (abs_path ["out"; "FAILED"; "a_FAILED.pdf"]%string)
  | _ => False
  end.
Proof. vm_compute. reflexivity. Qed.

Example move_to_failed_dry_run_name :
  match move_to_failed no_faults (abs_path ["inbox"; "a.pdf"]%string)
          (abs_path ["out"; "FAILED"]%string) (utf8 "illisible") true
          sample_fs with
  | Ok o _ => o = Some (abs_path ["out"; "FAILED"; "a.pdf_FAILED"]%string)
  | _ => False
  end.
Proof. vm_compute. reflexivity. Qed.

End RelocationFacts.
(* ================================================================== *)
(** * The date of the metadata, written and read back                   *)
(* ================================================================== *)

Module IsoFacts.
Import Py Re Models Extract Serialize Spec PyFacts DateFacts.

Lemma z_range_in (lo : Z) (n : nat) (x : Z) :
  (lo <= x < lo + Z.of_nat n)%Z -> In x (z_range lo n).
Proof.
  intro H. unfold z_range. apply in_map_iff. exists (Z.to_nat (x - lo)).
  split; [lia|]. apply in_seq. lia.
Qed.

Lemma date_eqb_eq (a b : date) : date_eqb a b = true -> a = b.
Proof.
  unfold date_eqb. rewrite !andb_true_iff, !Z.eqb_eq.
  destruct a, b; cbn [year month day]. intros [[-> ->] ->]. reflexivity.
Qed.

(** Every day of the window is read back. *)
Lemma window_days_read_back : forallb reads_back window_days = true.
Proof. vm_compute. reflexivity. Qed.

(** The ISO writing of a date of the window 2000-01-01..2030-12-31, as
    [to_dict] puts it into the metadata, is read back by [extract_date]
    as the same date. *)
Theorem extract_date_isoformat (d : date) :
  valid_date d -> in_window d = true ->
  extract_date (U := Latin1) (isoformat d) = Some d.
Proof.
  intros (Hy & Hm & Hd) Hw. pose proof (in_window_years d Hw) as Hyw.
  assert (Hin : In (year d, month d, day d) window_days).
  { unfold window_days. apply in_flat_map. exists (year d).
    split; [apply z_range_in; lia|]. apply in_flat_map. exists (month d).
    split; [apply z_range_in; lia|]. apply in_map.
    apply z_range_in.
    assert (days_in_month (year d) (month d) <= 31)%Z.
    { unfold days_in_month.
      destruct (month d =? 2)%Z; [destruct (is_leap (year d)); lia|].
      destruct (_ || _); lia. }
    lia. }
  pose proof window_days_read_back as T. rewrite forallb_forall in T.
  specialize (T _ Hin). unfold reads_back in T.
  assert (Emk : mk_date (year d) (month d) (day d) = Some d).
  { unfold mk_date.
    assert (E : ((1 <=? year d) && (year d <=? 9999) && (1 <=? month d)
                 && (month d <=? 12) && (1 <=? day d)
                 && (day d <=? days_in_month (year d) (month d)))%Z = true).
    { rewrite !andb_true_iff, !Z.leb_le. lia. }
    rewrite E. destruct d; reflexivity. }
  rewrite Emk in T.
  destruct (extract_date (U := Latin1) (isoformat d)) as [d'|];
    [|discriminate].
  apply date_eqb_eq in T. congruence.
Qed.

(** The 29th of February 2024. *)
Lemma extract_date_isoformat_witness :
  extract_date (U := Latin1)
    (isoformat {| year := 2024; month := 2; day := 29 |})
  = Some {| year := 2024; month := 2; day := 29 |}.
Proof.
  apply extract_date_isoformat.
  - unfold valid_date. cbn [year month day]. vm_compute.
    repeat split; discriminate.
  - vm_compute. reflexivity.
Defined.

Example isoformat_padded :
  isoformat {| year := 2024; month := 2; day := 9 |} = utf8 "2024-02-09".
Proof. vm_compute. reflexivity. Qed.

End IsoFacts.
(* ================================================================== *)
(** * The events of the watcher and what it tracks                      *)
(* ================================================================== *)

Module EventFacts.
Import Py Pathlib Watcher Spec PyFacts PathFacts WatcherFacts.

Lemma tracked_pending_get d p :
  In p (tracked d) -> exists e, pending_get d p = Some e.
Proof.
  unfold tracked. induction d as [|[q w] d IH]; [intros []|].
  cbn [map fst pending_get]. intros [H | H].
  - subst q. rewrite path_eqb_refl. eauto.
  - destruct (path_eqb q p); [eauto | exact (IH H)].
Qed.

Lemma tracked_set_new d p v :
  pending_get d p = None -> tracked (pending_set d p v) = tracked d ++ [p].
Proof.
  unfold tracked. induction d as [|[q w] d IH]; [reflexivity|].
  cbn [pending_get pending_set map fst app].
  destruct (path_eqb q p); [discriminate|]. intro H.
  cbn [map fst]. rewrite IH by exact H. reflexivity.
Qed.

Section WithUnicode.
Context {U : Unicode}.
Variable fnmatch : str -> str -> bool.

(** What an event leaves: the handler itself, or the handler with one
    entry more, for the path of the event. *)
Lemma on_created_cases (h : StableFileHandler) (time : float)
  (at_filter at_schedule : Path -> probe) (event : FileSystemEvent) :
  on_created fnmatch h time at_filter at_schedule event = h
  \/ (exists size,
        is_directory event = false
        /\ _should_ignore fnmatch h at_filter (src_path event) = false
        /\ pending_get (_pending h) (src_path event) = None
        /\ at_schedule (src_path event) = Size size
        /\ on_created fnmatch h time at_filter at_schedule event
           = with_pending h (pending_set (_pending h) (src_path event)
                               (size, time))).
Proof.
  unfold on_created. destruct (is_directory event); [left; reflexivity|].
  cbv zeta. destruct (_should_ignore fnmatch h at_filter (src_path event));
    [left; reflexivity|].
  unfold _schedule_check.
  destruct (pending_get (_pending h) (src_path event)); [left; reflexivity|].
  destruct (at_schedule (src_path event)) as [| |size];
    [left; reflexivity | left; reflexivity|].
  right. exists size. repeat split; reflexivity.
Qed.

(** An event never touches the entry of a tracked file: however many
    times a file is reported as modified, its recorded size and time
    stay, and only a check that finds another size restarts its
    window.  An entry is made only for the path of an event that is not
    about a directory, that the filter lets pass, and whose size can be
    read; its time is the time of the event.  A modification is handled
    as a creation is. *)
Theorem on_created_registers (h : StableFileHandler) (time : float)
  (at_filter at_schedule : Path -> probe) (event : FileSystemEvent) :
  let h' := on_created fnmatch h time at_filter at_schedule event in
  (forall p e,
     pending_get (_pending h) p = Some e ->
     pending_get (_pending h') p = Some e)
  /\ (forall p e,
        pending_get (_pending h) p = None ->
        pending_get (_pending h') p = Some e ->
        p = src_path event /\ is_directory event = false
        /\ _should_ignore fnmatch h at_filter p = false
        /\ exists size, at_schedule p = Size size /\ e = (size, time))
  /\ on_modified fnmatch h time at_filter at_schedule event = h'.
Proof.
  cbv zeta. split; [|split; [|reflexivity]].
  - intros p e He.
    destruct (on_created_cases h time at_filter at_schedule event)
      as [-> | (size & _ & _ & Hn & _ & ->)]; [exact He|].
    cbn [with_pending _pending].
    rewrite pending_get_set_other; [exact He|].
    intro E. rewrite E in Hn. congruence.
  - intros p e Hn He.
    destruct (on_created_cases h time at_filter at_schedule event)
      as [E | (size & Hd & Hi & _ & Hs & E)]; rewrite E in He.
    + congruence.
    + cbn [with_pending _pending] in He.
      destruct (path_eq_dec (src_path event) p) as [<- | Hne].
      * rewrite pending_get_set_same in He. injection He as <-.
        repeat split; auto. exists size. split; [exact Hs | reflexivity].
      * rewrite pending_get_set_other in He by exact Hne. congruence.
Qed.

Lemma should_ignore_accepted (h : StableFileHandler) (answer : Path -> probe)
  (p : Path) :
  _should_ignore fnmatch h answer p = false -> accepted fnmatch h p.
Proof.
  unfold _should_ignore, accepted. destruct (_is_pdf p); [|discriminate].
  cbn [negb]. destruct (_matches_exclude fnmatch p (exclude_patterns h));
    [discriminate|]. intros _. split; reflexivity.
Qed.

Lemma accepted_same (h0 h : StableFileHandler) (p : Path) :
  exclude_patterns h = exclude_patterns h0 ->
  accepted fnmatch h p -> accepted fnmatch h0 p.
Proof. unfold accepted. intros ->. tauto. Qed.

Lemma act_sound (h0 h : StableFileHandler) (a : Action) :
  sound fnmatch h0 h ->
  sound fnmatch h0 (fst (act fnmatch h a))
  /\ forall p, In p (snd (act fnmatch h a)) ->
               accepted fnmatch h0 p /\ In p (tracked (_pending h)).
Proof.
  intros (Hnd & Hacc & He & Hm & Hs).
  assert (Ev : forall time f s event,
            sound fnmatch h0 (on_created fnmatch h time f s event)).
  { intros time f s event.
    destruct (on_created_cases h time f s event)
      as [-> | (size & _ & Hi & Hn & _ & ->)];
      [exact (conj Hnd (conj Hacc (conj He (conj Hm Hs))))|].
    unfold sound. cbn [with_pending _pending exclude_patterns min_file_size
                         stability_seconds].
    rewrite (tracked_set_new _ _ _ Hn).
    split; [|split; [|repeat split; assumption]].
    - apply NoDup_app; [exact Hnd | constructor; [intros [] | constructor]|].
      intros x Hx [<- | []]. apply tracked_pending_get in Hx.
      destruct Hx as [e Hx]. congruence.
    - intros p Hp. apply in_app_or in Hp. destruct Hp as [Hp | [<- | []]];
        [exact (Hacc p Hp)|].
      apply (@accepted_same h0 h _ He).
      apply should_ignore_accepted with (answer := f). exact Hi. }
  destruct a as [time f s event | time f s event | t]; cbn [act fst snd].
  - split; [apply Ev | intros p []].
  - split; [apply Ev | intros p []].
  - split.
    + unfold sound. split; [apply check_pending_nodup; exact Hnd|].
      split; [|repeat split; assumption].
      intros p Hp. apply tracked_pending_get in Hp. destruct Hp as [e Hp].
      rewrite check_pending_entry in Hp by exact Hnd.
      destruct (pending_get (_pending h) p) as [e0|] eqn:E0; [|discriminate].
      apply Hacc. apply pending_get_tracked with (e := e0). exact E0.
    + intros p Hp. apply check_pending_called in Hp; [|exact Hnd].
      destruct Hp as (e & Hg & _ & _ & Hi). split.
      * apply (@accepted_same h0 h _ He).
        apply should_ignore_accepted with (answer := at_dispatch t). exact Hi.
      * apply pending_get_tracked with (e := e). exact Hg.
Qed.

Lemma run_actions_sound (h0 : StableFileHandler) (l : list Action) :
  forall h, sound fnmatch h0 h ->
  sound fnmatch h0 (fst (run_actions fnmatch h l))
  /\ forall called p,
       In called (snd (run_actions fnmatch h l)) -> In p called ->
       accepted fnmatch h0 p.
Proof.
  induction l as [|a l IH]; intros h Hs.
  - cbn [run_actions fst snd]. split; [exact Hs | intros called p []].
  - cbn [run_actions]. destruct (act_sound a Hs) as [Hs1 Hc1].
    destruct (act fnmatch h a) as [h1 d] eqn:Ea. cbn [fst snd] in Hs1, Hc1.
    destruct (IH h1 Hs1) as [Hs2 Hc2].
    destruct (run_actions fnmatch h1 l) as [h2 ds]. cbn [fst snd] in *.
    split; [exact Hs2|]. intros called p [<- | Hin] Hp.
    + exact (proj1 (Hc1 p Hp)).
    + exact (Hc2 called p Hin Hp).
Qed.

(** Whatever the observer reports and whenever the checks come, a
    handler that starts with distinct tracked paths, all of them PDF
    files that no exclusion pattern matches, stays so: no path is ever
    tracked twice -- [get_pending_count] counts files -- every tracked
    path and every path handed over is such a PDF, and the settings do
    not change.  A handler that starts with nothing tracked is in that
    case. *)
Theorem watcher_invariant (h : StableFileHandler) (l : list Action) :
  NoDup (tracked (_pending h)) ->
  (forall p, In p (tracked (_pending h)) -> accepted fnmatch h p) ->
  let h' := fst (run_actions fnmatch h l) in
  NoDup (tracked (_pending h'))
  /\ get_pending_count h' = List.length (tracked (_pending h'))
  /\ (forall p, In p (tracked (_pending h')) -> accepted fnmatch h p)
  /\ (forall called p,
        In called (snd (run_actions fnmatch h l)) -> In p called ->
        accepted fnmatch h p)
  /\ exclude_patterns h' = exclude_patterns h
  /\ min_file_size h' = min_file_size h
  /\ stability_seconds h' = stability_seconds h.
Proof.
  intros Hnd Hacc. cbv zeta.
  assert (Hs : sound fnmatch h h)
    by exact (conj Hnd (conj Hacc (conj eq_refl (conj eq_refl eq_refl)))).
  destruct (run_actions_sound l Hs) as [(H1 & H2 & H3 & H4 & H5) Hc].
  split; [exact H1|]. split.
  - unfold get_pending_count, tracked. rewrite length_map. reflexivity.
  - exact (conj H2 (conj Hc (conj H3 (conj H4 H5)))).
Qed.

End WithUnicode.

Lemma watcher_invariant_witness :
  snd (run_actions (U := Latin1) fnmatch_tmp fresh_handler sample_actions)
  = [[]; []; []; []; []; [inbox_file]]
  /\ forall called p,
       In called (snd (run_actions (U := Latin1) fnmatch_tmp fresh_handler
                         sample_actions)) ->
       In p called -> accepted (U := Latin1) fnmatch_tmp fresh_handler p.
Proof.
  split; [vm_compute; reflexivity|].
  refine (proj1 (proj2 (proj2 (proj2
            (@watcher_invariant Latin1 fnmatch_tmp fresh_handler
               sample_actions _ _))))).
  - constructor.
  - intros p [].
Defined.

End EventFacts.
(* ================================================================== *)
(** * What the resolution of the supplier leaves alone                  *)
(* ================================================================== *)

Module ResolveFacts.
Import Py Models Classify Suppliers Spec PyFacts ClassifyFacts.

Section WithUnicode.
Context {U : Unicode}.

Lemma containment_loop_cases (raw : str) (items : list (str * str))
  (e : ExtractedData) :
  containment_loop raw items e = e
  \/ exists alias v,
       In (alias, v) items
       /\ contains (u_lower raw) (u_lower alias) = true
       /\ containment_loop raw items e = set_fournisseur e v.
Proof.
  induction items as [|[k v] items IH]; [left; reflexivity|].
  cbn [containment_loop].
  destruct (contains (u_lower raw) (u_lower k)) eqn:E.
  - right. exists k, v. split; [left; reflexivity|]. split; [exact E | reflexivity].
  - destruct IH as [IH | (a & w & Hin & Hc & IH)]; [left; exact IH|].
    right. exists a, w. split; [right; exact Hin|]. split; assumption.
Qed.

Lemma keep_better_best (cutoff : Z) (r : Q) (name : str)
  (best : Q * option str) :
  snd (keep_better cutoff r name best) = snd best
  \/ snd (keep_better cutoff r name best) = Some name.
Proof.
  unfold keep_better. destruct (_ && _); [right | left]; reflexivity.
Qed.

Lemma score_loop_best (fz : Fuzz) (cutoff : Z) (raw : str)
  (mapping : list (str * str)) :
  forall best,
    snd (fold_left (score_step fz cutoff raw) mapping best) = snd best
    \/ exists alias v,
         In (alias, v) mapping
         /\ snd (fold_left (score_step fz cutoff raw) mapping best) = Some v.
Proof.
  induction mapping as [|[alias v] mapping IH]; intro best;
    [left; reflexivity|].
  cbn [fold_left].
  destruct (IH (score_step fz cutoff raw best (alias, v)))
    as [E | (a & w & Hin & E)].
  - rewrite E. unfold score_step.
    destruct (keep_better_best cutoff
                (partial_ratio fz (u_lower raw) (u_lower alias)) v
                (keep_better cutoff (ratio fz (u_lower raw) (u_lower alias))
                   v best)) as [E1 | E1]; rewrite E1.
    + destruct (keep_better_best cutoff
                  (ratio fz (u_lower raw) (u_lower alias)) v best)
        as [E2 | E2]; rewrite E2.
      * left. reflexivity.
      * right. exists alias, v. split; [left; reflexivity | reflexivity].
    + right. exists alias, v. split; [left; reflexivity | reflexivity].
  - right. exists a, w. split; [right; exact Hin | exact E].
Qed.

Lemma resolve_fournisseur_cases (fuzz_mod : option Fuzz)
  (e : ExtractedData) (mapping : list (str * str)) (cutoff : Z) :
  resolve_fournisseur fuzz_mod e mapping cutoff = e
  \/ exists v,
       resolve_fournisseur fuzz_mod e mapping cutoff = set_fournisseur e v.
Proof.
  unfold resolve_fournisseur.
  destruct (fournisseur_raw e) as [raw|]; [|left; reflexivity].
  destruct (negb (truthy raw)); [left; reflexivity|].
  destruct mapping as [|m0 mapping]; [left; reflexivity|].
  destruct fuzz_mod as [fz|].
  - destruct (snd (fold_left (score_step fz cutoff raw) (m0 :: mapping)
                     (inject_Z 0, None))) as [w|]; [|left; reflexivity].
    destruct (truthy w); [right; exists w; reflexivity | left; reflexivity].
  - destruct (containment_loop_cases raw (m0 :: mapping) e)
      as [E | (a & w & _ & _ & E)]; [left; exact E | right; exists w; exact E].
Qed.

(** The resolution returns the data as they are, or the data with the
    canonical name of an alias of the mapping as supplier: no other field
    is touched, a supplier is never removed, and no name is made up.
    The name the scorers lead to is not empty; the alias found without
    the scorers is contained in the raw text, case apart. *)
Theorem resolve_fournisseur_frame (fuzz_mod : option Fuzz)
  (e : ExtractedData) (mapping : list (str * str)) (cutoff : Z) :
  resolve_fournisseur fuzz_mod e mapping cutoff = e
  \/ exists raw alias v,
       fournisseur_raw e = Some raw
       /\ In (alias, v) mapping
       /\ resolve_fournisseur fuzz_mod e mapping cutoff = set_fournisseur e v
       /\ match fuzz_mod with
          | Some _ => v <> []
          | None => contains (u_lower raw) (u_lower alias) = true
          end.
Proof.
  unfold resolve_fournisseur.
  destruct (fournisseur_raw e) as [raw|]; [|left; reflexivity].
  destruct (negb (truthy raw)); [left; reflexivity|].
  destruct mapping as [|m0 mapping]; [left; reflexivity|].
  destruct fuzz_mod as [fz|].
  - destruct (score_loop_best fz cutoff raw (m0 :: mapping) (inject_Z 0, None))
      as [E | (a & w & Hin & E)]; rewrite E.
    + left. reflexivity.
    + destruct (truthy w) eqn:Ew; [|left; reflexivity].
      right. exists raw, a, w. repeat split; auto.
      intro H. subst w. discriminate.
  - destruct (containment_loop_cases raw (m0 :: mapping) e)
      as [E | (a & w & Hin & Hc & E)]; [left; exact E|].
    right. exists raw, a, w. repeat split; auto.
Qed.

(** For data without a supplier yet, as the extraction leaves them, the
    resolution never lowers the confidence. *)
Theorem resolve_fournisseur_confidence (fuzz_mod : option Fuzz)
  (e : ExtractedData) (mapping : list (str * str)) (cutoff : Z) :
  opt_truthy (fournisseur e) = false ->
  (compute_confidence e
   <=? compute_confidence (resolve_fournisseur fuzz_mod e mapping cutoff))%float
  = true.
Proof.
  intro Hf.
  assert (M : more_signals e (resolve_fournisseur fuzz_mod e mapping cutoff)).
  { destruct (resolve_fournisseur_cases fuzz_mod e mapping cutoff)
      as [-> | (v & ->)].
    - unfold more_signals. tauto.
    - unfold more_signals, type_recognized.
      cbn [set_fournisseur fournisseur fournisseur_raw date_doc type_document
             numero_facture montant_ttc].
      rewrite Hf. repeat split; auto; discriminate. }
  rewrite !compute_confidence_exact.
  pose proof (weights_range e).
  pose proof (weights_range (resolve_fournisseur fuzz_mod e mapping cutoff)).
  pose proof (weights_mono M). apply hundredths_mono; lia.
Qed.

End WithUnicode.

(** The raw text "EDF SA" and a mapping that knows it. *)
Lemma resolve_fournisseur_confidence_witness :
  (compute_confidence edf_raw
   <=? compute_confidence
         (resolve_fournisseur (U := Latin1) (Some exact_fuzz) edf_raw
            [(utf8 "edf sa", utf8 "EDF")] 70))%float = true
  /\ compute_confidence
       (resolve_fournisseur (U := Latin1) (Some exact_fuzz) edf_raw
          [(utf8 "edf sa", utf8 "EDF")] 70) = 0.55%float.
Proof.
  split; [|vm_compute; reflexivity].
  apply resolve_fournisseur_confidence. reflexivity.
Defined.

End ResolveFacts.
